(** * road_runner: a shallow embedding of the run planning and execution engine

    Python dicts are association lists in insertion order ([Dict]); Python
    values coming from YAML are [PyValue]; raising an exception is the [Err]
    branch of [Result]; the process (its environment and the effects it has
    on the outside world) is threaded through the state monad [M]. *)

From Stdlib Require Import String Ascii List ZArith QArith Bool Lia Sorted Permutation.
Import ListNotations.
Set Warnings "-register-all".
Open Scope string_scope.
Open Scope list_scope.
Open Scope nat_scope.

Infix "+:+" := String.append (right associativity, at level 60).

(** ** Python values *)

(** Values as they come out of the YAML loader.  Python floats are modelled
    by their (finite) rational value; tuples and lists are both [VList]. *)
Inductive PyValue : Type :=
| VNone
| VBool (b : bool)
| VInt (z : Z)
| VFloat (q : Q)
| VStr (s : string)
| VList (items : list PyValue)
| VDict (entries : list (string * PyValue)).

(** A Python [dict] with string keys, in insertion order. *)
Definition Dict (V : Type) : Type := list (string * V).

(** [d.get(k)] *)
Fixpoint dict_get {V} (d : Dict V) (k : string) : option V :=
  match d with
  | [] => None
  | (k', v) :: rest => if String.eqb k k' then Some v else dict_get rest k
  end.

(** [d[k] = v]: an existing key keeps its position, a new key goes last. *)
Fixpoint dict_set {V} (d : Dict V) (k : string) (v : V) : Dict V :=
  match d with
  | [] => [(k, v)]
  | (k', v') :: rest =>
      if String.eqb k k' then (k', v) :: rest else (k', v') :: dict_set rest k v
  end.

(** [d.update(u)] *)
Definition dict_update {V} (d : Dict V) (u : Dict V) : Dict V :=
  fold_left (fun acc kv => dict_set acc (fst kv) (snd kv)) u d.

(** ** Exceptions and the error/state monad *)

(** The exception classes of [exceptions.py] (carrying the name the message
    is about), the [ValueError]/[TypeError] of a failed [int()] or
    [float()], the [OverflowError] of [float()] on an integer too large for
    a double, and the [OSError] that [subprocess.run] raises when it cannot
    start a program. *)
Inductive PyExc : Type :=
| ValidationError (what : string)
| SafetyViolationError (what : string)
| AdapterExecutionError (what : string)
| ValueError (what : string)
| OSError (what : string)
| OverflowError (what : string).

Inductive Result (A : Type) : Type :=
| Ok (a : A)
| Err (e : PyExc).
Arguments Ok {A} a.
Arguments Err {A} e.

Definition rbind {A B} (m : Result A) (k : A -> Result B) : Result B :=
  match m with Ok a => k a | Err e => Err e end.

Notation "x <-? m ;; k" := (rbind m (fun x => k))
  (at level 61, m at next level, right associativity).

(** [for x in xs: f(x)] where [f] may raise. *)
Fixpoint for_each {A} (f : A -> Result unit) (xs : list A) : Result unit :=
  match xs with
  | [] => Ok tt
  | x :: rest => _ <-? f x ;; for_each f rest
  end.

(** [[f(x) for x in xs]] where [f] may raise. *)
Fixpoint map_r {A B} (f : A -> Result B) (xs : list A) : Result (list B) :=
  match xs with
  | [] => Ok []
  | x :: rest => y <-? f x ;; ys <-? map_r f rest ;; Ok (y :: ys)
  end.

(** ** Strings *)

Definition ascii_lower (c : ascii) : ascii :=
  let n := nat_of_ascii c in
  if (65 <=? n) && (n <=? 90) then ascii_of_nat (n + 32) else c.

Definition ascii_upper (c : ascii) : ascii :=
  let n := nat_of_ascii c in
  if (97 <=? n) && (n <=? 122) then ascii_of_nat (n - 32) else c.

Fixpoint str_map (f : ascii -> ascii) (s : string) : string :=
  match s with
  | EmptyString => EmptyString
  | String c rest => String (f c) (str_map f rest)
  end.

(** [str.lower()] and [str.upper()] on ASCII text. *)
Definition lower (s : string) : string := str_map ascii_lower s.
Definition upper (s : string) : string := str_map ascii_upper s.

(** [needle in haystack] for strings. *)
Definition str_contains (needle haystack : string) : bool :=
  match String.index 0 needle haystack with Some _ => true | None => false end.

(** Decimal digits of a natural number ([str(n)]). *)
Fixpoint digits_aux (fuel n : nat) (acc : string) : string :=
  match fuel with
  | O => acc
  | S fuel' =>
      let acc' := String (ascii_of_nat (48 + n mod 10)) acc in
      if n <? 10 then acc' else digits_aux fuel' (n / 10) acc'
  end.

Definition nat_str (n : nat) : string := digits_aux (S n) n "".

Definition z_str (z : Z) : string :=
  if (z <? 0)%Z then "-" +:+ nat_str (Z.to_nat (- z)) else nat_str (Z.to_nat z).

(** [f"{n:02d}"] *)
Definition pad2 (n : nat) : string :=
  if n <? 10 then "0" +:+ nat_str n else nat_str n.

(** ** Numbers *)

(** [float(n)] of an integer: the nearest double, ties to even (CPython
    rounds correctly); [None] when that is 2^1024 or more in magnitude, where
    CPython raises [OverflowError]. *)
Definition int_to_float (z : Z) : option Q :=
  let a := Z.abs z in
  let rounded :=
    if (a <? 2 ^ 53)%Z then a
    else
      let s := (Z.log2 a - 52)%Z in
      let m := Z.shiftr a s in
      let r := (a - Z.shiftl m s)%Z in
      let half := Z.shiftl 1 (s - 1) in
      let m' := if (half <? r)%Z || ((r =? half)%Z && Z.odd m) then (m + 1)%Z else m in
      Z.shiftl m' s in
  if (2 ^ 1024 <=? rounded)%Z then None else Some (inject_Z (Z.sgn z * rounded)).

(** [float(value)]: [Err (ValueError _)] when Python raises [TypeError] or
    [ValueError], [Err (OverflowError _)] for an integer too large for a
    double.  The parse of a string is CPython's and is taken as a parameter
    (finite results only: YAML floats and parsed strings are finite numbers
    here, inf and nan are not modelled). *)
Section Numbers.
Variable float_of_str : string -> option Q.

Definition py_float (v : PyValue) : Result Q :=
  match v with
  | VBool b => Ok (if b then 1%Q else 0%Q)
  | VInt z =>
      match int_to_float z with
      | Some q => Ok q
      | None => Err (OverflowError "int too large to convert to float")
      end
  | VFloat q => Ok q
  | VStr s => match float_of_str s with Some q => Ok q | None => Err (ValueError s) end
  | VNone | VList _ | VDict _ => Err (ValueError "float")
  end.
End Numbers.

Definition Qltb (x y : Q) : bool := negb (Qle_bool y x).

(** [artifacts.sanitize]:
    [re.sub(r"[^A-Za-z0-9_.-]+", "-", name.strip()).strip("-").lower()]. *)
Definition py_isspace (c : ascii) : bool :=
  let n := nat_of_ascii c in ((9 <=? n) && (n <=? 13)) || ((28 <=? n) && (n <=? 32)).

Fixpoint lstrip (p : ascii -> bool) (s : string) : string :=
  match s with
  | EmptyString => EmptyString
  | String c rest => if p c then lstrip p rest else s
  end.

Definition str_rev (s : string) : string :=
  string_of_list_ascii (rev (list_ascii_of_string s)).

Definition strip (p : ascii -> bool) (s : string) : string :=
  str_rev (lstrip p (str_rev (lstrip p s))).

Definition name_char (c : ascii) : bool :=
  let n := nat_of_ascii c in
  ((48 <=? n) && (n <=? 57)) || ((65 <=? n) && (n <=? 90)) || ((97 <=? n) && (n <=? 122))
  || (n =? 95) || (n =? 46) || (n =? 45).

(** Each maximal run of characters outside [[A-Za-z0-9_.-]] becomes one ["-"]. *)
Fixpoint replace_runs (in_run : bool) (s : string) : string :=
  match s with
  | EmptyString => EmptyString
  | String c rest =>
      if name_char c then String c (replace_runs false rest)
      else if in_run then replace_runs true rest
      else String "-" (replace_runs true rest)
  end.

Definition sanitize (name : string) : string :=
  lower (strip (fun c => Ascii.eqb c "-") (replace_runs false (strip py_isspace name))).

(** ** models.py *)

Record FlowStep : Type := {
  step_name : string;
  step_adapter : string;
  step_parameters : Dict PyValue;
  step_sweeps : Dict (list PyValue)
}.

Record FlowDefinition : Type := {
  flow_metadata : Dict PyValue;
  flow_steps : list FlowStep
}.

Record TargetMargins : Type := {
  fixed : Dict PyValue;
  target_sweeps : Dict (list PyValue);
  jitter : option (Dict PyValue)
}.

Record MarginPoint : Type := {
  identifier : string;
  values : Dict (Dict PyValue);
  seed : Z
}.

Record MarginProfile : Type := {
  mp_metadata : Dict PyValue;
  global_seed : option Z;
  targets : Dict TargetMargins
}.

(** [itertools.product] over the pools: the last pool varies fastest. *)
Fixpoint product {A} (pools : list (list A)) : list (list A) :=
  match pools with
  | [] => [[]]
  | pool :: rest => flat_map (fun x => map (cons x) (product rest)) pool
  end.

(** [FlowStep.expanded_parameters] *)
Definition expanded_parameters (s : FlowStep) : list (Dict PyValue) :=
  match step_sweeps s with
  | [] => [step_parameters s]
  | sweeps =>
      let keys := map fst sweeps in
      map (fun combo => dict_update (step_parameters s) (combine keys combo))
          (product (map snd sweeps))
  end.

(** [target_values = dict(target.fixed); if target.jitter: target_values["jitter"] = ...]:
    the jitter mapping is added when it is truthy, i.e. a non-empty dict. *)
Definition target_values (t : TargetMargins) : Dict PyValue :=
  match jitter t with
  | Some ((_ :: _) as j) => dict_set (fixed t) "jitter" (VDict j)
  | _ => fixed t
  end.

Definition SweepEntry : Type := (string * string * list PyValue)%type.

(** The first loop of [expand_points]: [base_values] and [sweep_entries]. *)
Fixpoint collect_targets (ts : Dict TargetMargins) (base : Dict (Dict PyValue))
    (entries : list SweepEntry) : Dict (Dict PyValue) * list SweepEntry :=
  match ts with
  | [] => (base, entries)
  | (tn, t) :: rest =>
      collect_targets rest (dict_set base tn (target_values t))
        (entries ++ map (fun pv => (tn, fst pv, snd pv)) (target_sweeps t))
  end.

(** [for (target_name, parameter, _), chosen in zip(sweep_entries, combo):
       values.setdefault(target_name, {})[parameter] = chosen] *)
Definition overlay (base : Dict (Dict PyValue)) (entries : list SweepEntry)
    (combo : list PyValue) : Dict (Dict PyValue) :=
  fold_left
    (fun vals ec =>
       let '((tn, p, _), chosen) := ec in
       let inner := match dict_get vals tn with Some d => d | None => [] end in
       dict_set vals tn (dict_set inner p chosen))
    (combine entries combo) base.

(** [for idx, combo in enumerate(combos): ...] *)
Fixpoint enumerate_points (base : Dict (Dict PyValue)) (entries : list SweepEntry)
    (base_seed : Z) (idx : nat) (combos : list (list PyValue)) : list MarginPoint :=
  match combos with
  | [] => []
  | combo :: rest =>
      {| identifier := "point-" +:+ nat_str idx;
         values := overlay base entries combo;
         seed := (base_seed + Z.of_nat idx)%Z |}
      :: enumerate_points base entries base_seed (S idx) rest
  end.

(** [self.global_seed or 0] *)
Definition seed_or_0 (s : option Z) : Z :=
  match s with Some z => z | None => 0%Z end.

(** [MarginProfile.expand_points] *)
Definition expand_points (mp : MarginProfile) : list MarginPoint :=
  let '(base_values, sweep_entries) := collect_targets (targets mp) [] [] in
  match sweep_entries with
  | [] => [{| identifier := "point-0"; values := base_values; seed := seed_or_0 (global_seed mp) |}]
  | _ =>
      enumerate_points base_values sweep_entries (seed_or_0 (global_seed mp)) 0
        (product (map (fun e : SweepEntry => snd e) sweep_entries))
  end.

(** ** Safety bounds *)

Record Bound : Type := {
  minimum : option Q;
  maximum : option Q
}.

Record SafetyPolicy : Type := {
  sp_metadata : Dict PyValue;
  avt_bounds : Dict Bound;
  behavior : Dict PyValue
}.

Section Safety.
Variable float_of_str : string -> option Q.

(** [Bound.validate] *)
Definition bound_validate (b : Bound) (name : string) (value : PyValue) : Result unit :=
  match value with
  | VNone => Ok tt
  | _ =>
      match py_float float_of_str value with
      | Err (ValueError _) => Err (ValidationError name)
      | Err e => Err e
      | Ok numeric =>
          if match minimum b with Some m => Qltb numeric m | None => false end
          then Err (SafetyViolationError name)
          else if match maximum b with Some m => Qltb m numeric | None => false end
          then Err (SafetyViolationError name)
          else Ok tt
      end
  end.

(** [SafetyPolicy.validate_value]; a [Bound] instance is always truthy. *)
Definition validate_value (policy : SafetyPolicy) (name : string) (value : PyValue)
    : Result unit :=
  match dict_get (avt_bounds policy) name with
  | None => Ok tt
  | Some bound =>
      match value with
      | VList items => for_each (bound_validate bound name) items
      | _ => bound_validate bound name value
      end
  end.

(** [runner._validate_safety] *)
Definition validate_safety (policy : SafetyPolicy) (vals : Dict PyValue) : Result unit :=
  for_each (fun kv => if String.eqb (fst kv) "jitter" then Ok tt
                      else validate_value policy (fst kv) (snd kv)) vals.

End Safety.

Example sanitize_ex : sanitize "  Mem Test (x2) " = "mem-test-x2".
Proof. reflexivity. Qed.
Example pad2_ex : pad2 7 = "07" /\ pad2 12 = "12" /\ nat_str 305 = "305".
Proof. repeat split; reflexivity. Qed.

(** ** Processes and artifacts *)

(** What the program does to the world outside its own memory. *)
Inductive Event : Type :=
| ClockRead
| SeedRandom (z : Z)
| CollectSysinfo
| MakeDirs (path : string)
| WriteFile (path : string)
| AppendLine (path : string)
| Spawn (argv : list string) (env : Dict string).

(** The process: its environment ([os.environ]) and the effects so far. *)
Record World : Type := {
  environ : Dict string;
  events : list Event
}.

Definition M (A : Type) : Type := World -> World * Result A.

Definition ret {A} (a : A) : M A := fun w => (w, Ok a).
Definition raise {A} (e : PyExc) : M A := fun w => (w, Err e).
Definition mbind {A B} (m : M A) (k : A -> M B) : M B :=
  fun w => match m w with
           | (w', Ok a) => k a w'
           | (w', Err e) => (w', Err e)
           end.
Definition lift {A} (r : Result A) : M A := fun w => (w, r).
Definition get_world : M World := fun w => (w, Ok w).
Definition emit (e : Event) : M unit :=
  fun w => ({| environ := environ w; events := events w ++ [e] |}, Ok tt).

Notation "x <- m ;; k" := (mbind m (fun x => k))
  (at level 61, m at next level, right associativity).
Notation "m ;;; k" := (mbind m (fun _ : unit => k))
  (at level 61, right associativity).

(** [try: ... except AdapterExecutionError as exc: ...]: [Some str(exc)] when
    caught; any other exception propagates. *)
Definition catch_exec (m : M unit) : M (option string) :=
  fun w => match m w with
           | (w', Ok _) => (w', Ok None)
           | (w', Err (AdapterExecutionError msg)) => (w', Ok (Some msg))
           | (w', Err e) => (w', Err e)
           end.

(** ** adapters.py *)

Definition py_num (v : PyValue) : option Q :=
  match v with
  | VBool b => Some (if b then 1%Q else 0%Q)
  | VInt z => Some (inject_Z z)
  | VFloat q => Some q
  | _ => None
  end.

(** Python [==] on YAML values: numbers compare by value across bool, int
    and float; dicts compare regardless of key order. *)
Fixpoint py_eq (a b : PyValue) {struct a} : bool :=
  match a, b with
  | VNone, VNone => true
  | VStr s, VStr t => String.eqb s t
  | VList xs, VList ys =>
      (fix eq_items (xs ys : list PyValue) : bool :=
         match xs, ys with
         | [], [] => true
         | x :: xs', y :: ys' => py_eq x y && eq_items xs' ys'
         | _, _ => false
         end) xs ys
  | VDict d, VDict e =>
      Nat.eqb (length d) (length e) &&
      (fix eq_entries (d : list (string * PyValue)) : bool :=
         match d with
         | [] => true
         | (k, v) :: rest =>
             match dict_get e k with Some v' => py_eq v v' | None => false end
             && eq_entries rest
         end) d
  | _, _ =>
      match py_num a, py_num b with
      | Some x, Some y => Qeq_bool x y
      | _, _ => false
      end
  end.

Record AdapterParameter : Type := {
  ap_type : string;
  allowed : option (list PyValue);
  ap_minimum : option Q;
  ap_maximum : option Q
}.

Record AdapterManifest : Type := {
  am_name : string;
  am_path : string;
  am_parameters : Dict AdapterParameter;
  am_description : option string;
  am_args : list string
}.

(** [--key] with underscores replaced by dashes *)
Definition flag_of (key : string) : string :=
  "--" +:+ str_map (fun c => if Ascii.eqb c "_" then "-"%char else c) key.

Definition is_absolute (p : string) : bool :=
  match p with String c _ => Ascii.eqb c "/" | EmptyString => false end.

(** [Path(p).parent] for a path written with ["/"] separators. *)
Fixpoint drop_through_slash (s : string) : string :=
  match s with
  | EmptyString => EmptyString
  | String c rest => if Ascii.eqb c "/" then rest else drop_through_slash rest
  end.

Definition path_parent (p : string) : string := str_rev (drop_through_slash (str_rev p)).

Section Adapters.
Variable float_of_str : string -> option Q.
(** [str(value)] *)
Variable py_str : PyValue -> string.
(** [Path(p).exists()] *)
Variable path_exists : string -> bool.
(** [shutil.which(name)] *)
Variable which : string -> option string.
(** The exit code of a child started with [argv] and [env] after the given
    history of effects, or [None] when [subprocess.run] raises [OSError]
    (for instance [FileNotFoundError]) without starting a child. *)
Variable spawn_exit : list Event -> list string -> Dict string -> option Z.

(** [AdapterParameter.validate] *)
Definition param_validate (spec : AdapterParameter) (name : string) (value : PyValue)
    : Result unit :=
  if match allowed spec with
     | Some al => negb (existsb (py_eq value) al)
     | None => false
     end
  then Err (ValidationError name)
  else if String.eqb (ap_type spec) "integer" || String.eqb (ap_type spec) "float" then
    match py_float float_of_str value with
    | Err (ValueError _) => Err (ValidationError name)
    | Err e => Err e
    | Ok numeric =>
        if match ap_minimum spec with Some m => Qltb numeric m | None => false end
        then Err (ValidationError name)
        else if match ap_maximum spec with Some m => Qltb m numeric | None => false end
        then Err (ValidationError name)
        else Ok tt
    end
  else Ok tt.

(** The second loop of [build_command]. *)
Fixpoint param_flags (params : Dict PyValue) : list string :=
  match params with
  | [] => []
  | (key, value) :: rest =>
      let flag := flag_of key in
      match value with
      | VBool true => [flag]
      | VBool false => []
      | _ => [flag; py_str value]
      end ++ param_flags rest
  end.

(** [AdapterManifest.build_command] *)
Definition build_command (m : AdapterManifest) (params : Dict PyValue) : Result (list string) :=
  _ <-? for_each (fun kv => match dict_get (am_parameters m) (fst kv) with
                            | Some spec => param_validate spec (fst kv) (snd kv)
                            | None => Ok tt
                            end) params ;;
  Ok (am_path m :: am_args m ++ param_flags params).

(** [AdapterRegistry.get] on the loaded manifests. *)
Definition registry_get (registry : Dict AdapterManifest) (name : string)
    : Result AdapterManifest :=
  match dict_get registry name with
  | Some m => Ok m
  | None => Err (ValidationError name)
  end.

(** The part of [AdapterExecutor.run] before the child is started: the
    command to run, or the exception raised. *)
Definition resolve_command (manifest : AdapterManifest) (name : string)
    (command : list string) : Result (list string) :=
  let path := am_path manifest in
  let cmd0 := hd "" command in
  let executable := if is_absolute path then which cmd0 else Some cmd0 in
  if is_absolute path && negb (path_exists path) then Err (AdapterExecutionError name)
  else if is_absolute path then Ok (path :: tl command)
  else match executable with
       | Some (String _ _ as e) => Ok (e :: tl command)
       | _ => Err (AdapterExecutionError name)
       end.

(** [AdapterExecutor.run] *)
Definition adapter_run (registry : Dict AdapterManifest) (name : string)
    (parameters : Dict PyValue) (stdout_path stderr_path : string)
    (env : option (Dict string)) : M unit :=
  manifest <- lift (registry_get registry name) ;;
  command <- lift (build_command manifest parameters) ;;
  command' <- lift (resolve_command manifest name command) ;;
  emit (MakeDirs (path_parent stdout_path)) ;;;
  emit (MakeDirs (path_parent stderr_path)) ;;;
  emit (WriteFile stdout_path) ;;;
  emit (WriteFile stderr_path) ;;;
  w <- get_world ;;
  let child_env := match env with Some ((_ :: _) as e) => e | _ => environ w end in
  match spawn_exit (events w) command' child_env with
  | None => raise (OSError (hd "" command'))
  | Some code =>
      emit (Spawn command' child_env) ;;;
      if (code =? 0)%Z then ret tt else raise (AdapterExecutionError name)
  end.

End Adapters.

(** CPython's [str()] on scalars, for concrete runs: floats are rendered by
    [float_repr], containers are not rendered. *)
Definition str_scalar (float_repr : Q -> string) (v : PyValue) : string :=
  match v with
  | VNone => "None"
  | VBool true => "True"
  | VBool false => "False"
  | VInt z => z_str z
  | VFloat q => float_repr q
  | VStr s => s
  | VList _ | VDict _ => ""
  end.

(** ** safety.py: matching a hardware fingerprint *)

Record HardwareFingerprint : Type := {
  cpu_model : string;
  total_cores : option Z;
  architecture : string
}.

Section Matching.
Variable py_str : PyValue -> string.
(** [int(s)] on a string *)
Variable int_of_str : string -> option Z.

(** [int(value)]: [None] when Python raises. *)
Definition py_int (v : PyValue) : option Z :=
  match v with
  | VBool b => Some (if b then 1%Z else 0%Z)
  | VInt z => Some z
  | VFloat q => Some (Z.quot (Qnum q) (Zpos (Qden q)))
  | VStr s => int_of_str s
  | VNone | VList _ | VDict _ => None
  end.

(** [_ensure_list(criteria.get(key))] *)
Definition ensure_list (v : option PyValue) : list string :=
  match v with
  | None | Some VNone => []
  | Some (VList items) => map py_str items
  | Some x => [py_str x]
  end.

(** [if subs and not any(s.lower() in text for s in subs): return False] *)
Definition contains_rejects (subs : list string) (text : string) : bool :=
  match subs with
  | [] => false
  | _ => negb (existsb (fun s => str_contains (lower s) text) subs)
  end.

(** [if bound is not None and total_cores is not None and outside(total_cores, int(bound))] *)
Definition cores_reject (bound : option PyValue) (cores : option Z)
    (outside : Z -> Z -> bool) : Result bool :=
  match bound, cores with
  | Some VNone, _ | None, _ | _, None => Ok false
  | Some b, Some tc =>
      match py_int b with
      | Some n => Ok (outside tc n)
      | None => Err (ValueError "cores")
      end
  end.

(** [safety._matches] *)
Definition matches (criteria : Dict PyValue) (fp : HardwareFingerprint) : Result bool :=
  let cpu := lower (cpu_model fp) in
  let arch := lower (architecture fp) in
  if contains_rejects (ensure_list (dict_get criteria "cpu_model_contains")) cpu then Ok false
  else if contains_rejects (ensure_list (dict_get criteria "architecture_contains")) arch
  then Ok false
  else
    lo <-? cores_reject (dict_get criteria "min_cores") (total_cores fp) Z.ltb ;;
    if lo then Ok false
    else
      hi <-? cores_reject (dict_get criteria "max_cores") (total_cores fp)
                (fun tc n => Z.ltb n tc) ;;
      if hi then Ok false else Ok true.

End Matching.

(** ** runner.py *)

Record StepPlan : Type := {
  sp_step : FlowStep;
  invocations : list (Dict PyValue);
  margin : Dict PyValue
}.

Record SubRunPlan : Type := {
  sr_identifier : string;
  margin_point : MarginPoint;
  sr_steps : list StepPlan
}.

Record RunPlan : Type := {
  parent_id : string;
  flow_path : string;
  margin_path : option string;
  safety_source : string;
  rp_flow : FlowDefinition;
  rp_margin_profile : MarginProfile;
  rp_safety_policy : SafetyPolicy;
  rp_seed : Z;
  subruns : list SubRunPlan
}.

(** [_default_margin_profile] *)
Definition default_margin_profile : MarginProfile :=
  {| mp_metadata := []; global_seed := None;
     targets := [("default", {| fixed := []; target_sweeps := []; jitter := None |})] |}.

Definition dict_get_or_empty {V} (d : Dict (Dict V)) (k : string) : Dict V :=
  match dict_get d k with Some inner => inner | None => [] end.

(** [_apply_margin_for_step] *)
Definition apply_margin_for_step (point : MarginPoint) (adapter : string) : Dict PyValue :=
  let default_values := dict_get_or_empty (values point) "default" in
  let adapter_values := dict_get_or_empty (values point) adapter in
  fold_left (fun combined kv =>
               if String.eqb (fst kv) "jitter" then combined
               else dict_set combined (fst kv) (snd kv))
            (default_values ++ adapter_values) [].

(** [load_margin_profile(margin_path) if margin_path else _default_margin_profile()] *)
Definition margin_profile_of (mpath : option string) (loaded : option MarginProfile)
    : MarginProfile :=
  match mpath, loaded with
  | Some _, Some m => m
  | _, _ => default_margin_profile
  end.

(** [enumerate(xs)] *)
Definition enumerate {A} (xs : list A) : list (nat * A) := combine (seq 0 (length xs)) xs.

(** [RunPaths] *)
Definition run_parent_dir (base pid : string) : string := base +:+ "/" +:+ pid.
Definition subrun_dir (base pid sid : string) : string :=
  run_parent_dir base pid +:+ "/subruns/" +:+ sid.
Definition subrun_summary (base pid sid : string) : string :=
  subrun_dir base pid sid +:+ "/summary.json".
Definition subrun_ldjson (base pid sid : string) : string :=
  subrun_dir base pid sid +:+ "/steps.ldjson".

(** The file-name part of [RunPaths.step_stdout] and [RunPaths.step_stderr]. *)
Definition step_log_suffix (step_name : string) (index invocation : nat) : string :=
  let suffix := pad2 index +:+ "_" +:+ sanitize step_name in
  if invocation =? 0 then suffix else suffix +:+ "_" +:+ pad2 invocation.

Definition step_stdout (base pid sid step_name : string) (index invocation : nat) : string :=
  subrun_dir base pid sid +:+ "/stdout/" +:+ step_log_suffix step_name index invocation +:+ ".log".
Definition step_stderr (base pid sid step_name : string) (index invocation : nat) : string :=
  subrun_dir base pid sid +:+ "/stderr/" +:+ step_log_suffix step_name index invocation +:+ ".log".

(** [p.relative_to(parent)] for a [p] below [parent]. *)
Definition relative_to (p parent : string) : string :=
  substring (S (String.length parent)) (String.length p) p.

Record StepResult : Type := {
  res_name : string;
  res_adapter : string;
  res_status : string;
  res_parameters : Dict PyValue;
  res_stdout : string;
  res_stderr : string;
  res_margin : Dict PyValue;
  res_error : option string
}.

(** A sub-run summary; timestamps and durations are not modelled. *)
Record SubSummary : Type := {
  sub_run_id : string;
  sub_point_id : string;
  sub_status : string;
  sub_steps : list StepResult
}.

(** [self._executor.run(adapter, parameters, stdout_path, stderr_path, env=env)] *)
Definition Executor : Type :=
  string -> Dict PyValue -> string -> string -> option (Dict string) -> M unit.

Section Runner.
Variable float_of_str : string -> option Q.
Variable py_str : PyValue -> string.
(** [int(time.time())], the UTC timestamp string of [_generate_parent_run_id],
    and the first ten hex digits of a SHA-256 digest. *)
Variable now_secs : Z.
Variable utc_stamp : string.
Variable sha256_10 : string -> string.

(** [ensure_seed] *)
Definition ensure_seed (s : option Z) : M Z :=
  match s with
  | None => emit ClockRead ;;; emit (SeedRandom now_secs) ;;; ret now_secs
  | Some z => emit (SeedRandom z) ;;; ret z
  end.

(** [_generate_parent_run_id] *)
Definition generate_parent_run_id (fpath : string) (s : Z) : M string :=
  emit ClockRead ;;;
  ret ("rr-" +:+ utc_stamp +:+ "-" +:+ sha256_10 (fpath +:+ ":" +:+ z_str s +:+ ":" +:+ utc_stamp)).

(** The body of the inner [for step in flow.steps] loop of [Runner.plan]. *)
Definition plan_step (policy : SafetyPolicy) (point : MarginPoint) (step : FlowStep)
    : Result StepPlan :=
  let step_margin := apply_margin_for_step point (step_adapter step) in
  _ <-? validate_safety float_of_str policy step_margin ;;
  _ <-? for_each (fun kv => validate_safety float_of_str policy [kv]) (step_parameters step) ;;
  _ <-? for_each (fun kv => validate_safety float_of_str policy [(fst kv, VList (snd kv))])
          (step_sweeps step) ;;
  Ok {| sp_step := step; invocations := expanded_parameters step; margin := step_margin |}.

(** The body of the outer [for index, point in enumerate(points)] loop. *)
Definition plan_subrun (policy : SafetyPolicy) (flow : FlowDefinition) (pid : string)
    (ip : nat * MarginPoint) : Result SubRunPlan :=
  let '(index, point) := ip in
  _ <-? for_each (fun tv => validate_safety float_of_str policy (snd tv)) (values point) ;;
  let ident := pid +:+ "-s" +:+ pad2 index in
  steps <-? map_r (plan_step policy point) (flow_steps flow) ;;
  Ok {| sr_identifier := ident; margin_point := point; sr_steps := steps |}.

(** [Runner.plan], on the loaded flow, the loaded margin profile (when a
    margin path is given) and the resolved safety policy. *)
Definition plan (fpath : string) (flow : FlowDefinition) (mpath : option string)
    (loaded_margin : option MarginProfile) (safety : SafetyPolicy) (safety_identifier : string)
    : M RunPlan :=
  let mp := margin_profile_of mpath loaded_margin in
  s <- ensure_seed (global_seed mp) ;;
  pid <- generate_parent_run_id fpath s ;;
  subs <- lift (map_r (plan_subrun safety flow pid) (enumerate (expand_points mp))) ;;
  ret {| parent_id := pid; flow_path := fpath; margin_path := mpath;
         safety_source := safety_identifier; rp_flow := flow; rp_margin_profile := mp;
         rp_safety_policy := safety; rp_seed := s; subruns := subs |}.

(** [_build_step_environment] *)
Definition build_step_environment (subplan : SubRunPlan) (rp : RunPlan) (step_plan : StepPlan)
    (parameters : Dict PyValue) : M (Dict string) :=
  w <- get_world ;;
  let env := environ w in
  let env := dict_set env "RR_RUN_ID" (parent_id rp) in
  let env := dict_set env "RR_SUB_RUN_ID" (sr_identifier subplan) in
  let env := dict_set env "RR_STEP_ADAPTER" (step_adapter (sp_step step_plan)) in
  let env := dict_set env "RR_STEP_NAME" (step_name (sp_step step_plan)) in
  let env := fold_left (fun env kv =>
                dict_set env ("RR_PARAM_" +:+ upper (sanitize (fst kv))) (py_str (snd kv)))
              parameters env in
  let env := fold_left (fun env kv =>
                dict_set env ("RR_MARGIN_" +:+ upper (sanitize (fst kv))) (py_str (snd kv)))
              (margin step_plan) env in
  let env := dict_set env "RR_MARGIN_POINT" (identifier (margin_point subplan)) in
  let env := dict_set env "RR_GLOBAL_SEED" (z_str (rp_seed rp)) in
  ret env.

Variable executor : Executor.
Variable runs_path : string.

(** [for invocation_index, parameters in enumerate(step_plan.invocations)]:
    the results recorded so far, and whether every invocation passed. *)
Fixpoint run_invocations (rp : RunPlan) (subplan : SubRunPlan) (step_index : nat)
    (step_plan : StepPlan) (invocation_index : nat) (invs : list (Dict PyValue))
    (acc : list StepResult) : M (list StepResult * bool) :=
  match invs with
  | [] => ret (acc, true)
  | parameters :: rest =>
      let step := sp_step step_plan in
      let sid := sr_identifier subplan in
      let pid := parent_id rp in
      let step_label :=
        if length (invocations step_plan) =? 1 then step_name step
        else step_name step +:+ "[" +:+ nat_str invocation_index +:+ "]" in
      let ldjson := subrun_ldjson runs_path pid sid in
      emit (AppendLine ldjson) ;;;
      let stdout_path := step_stdout runs_path pid sid (step_name step) step_index invocation_index in
      let stderr_path := step_stderr runs_path pid sid (step_name step) step_index invocation_index in
      error_message <- catch_exec
        (env <- build_step_environment subplan rp step_plan parameters ;;
         executor (step_adapter step) parameters stdout_path stderr_path (Some env)) ;;
      emit (AppendLine ldjson) ;;;
      let result_status := match error_message with None => "PASS" | Some _ => "FAIL" end in
      let parent := run_parent_dir runs_path pid in
      let result := {| res_name := step_label; res_adapter := step_adapter step;
                       res_status := result_status; res_parameters := parameters;
                       res_stdout := relative_to stdout_path parent;
                       res_stderr := relative_to stderr_path parent;
                       res_margin := margin step_plan; res_error := error_message |} in
      match error_message with
      | None => run_invocations rp subplan step_index step_plan (S invocation_index) rest
                  (acc ++ [result])
      | Some _ => ret (acc ++ [result], false)
      end
  end.

(** [for step_index, step_plan in enumerate(subplan.steps)]: the results and
    the sub-run status. *)
Fixpoint run_steps (rp : RunPlan) (subplan : SubRunPlan) (step_index : nat)
    (steps : list StepPlan) (acc : list StepResult) : M (list StepResult * string) :=
  match steps with
  | [] => ret (acc, "PASS")
  | step_plan :: rest =>
      r <- run_invocations rp subplan step_index step_plan 0 (invocations step_plan) acc ;;
      let '(acc', passed) := r in
      if passed then run_steps rp subplan (S step_index) rest acc'
      else ret (acc', "FAIL")
  end.

(** [Runner._execute_subrun] *)
Definition execute_subrun (rp : RunPlan) (subplan : SubRunPlan) : M SubSummary :=
  let sid := sr_identifier subplan in
  let pid := parent_id rp in
  emit (MakeDirs (subrun_dir runs_path pid sid)) ;;;
  emit (MakeDirs (path_parent (subrun_ldjson runs_path pid sid))) ;;;
  r <- run_steps rp subplan 0 (sr_steps subplan) [] ;;
  let '(steps, status) := r in
  emit (WriteFile (subrun_summary runs_path pid sid)) ;;;
  ret {| sub_run_id := sid; sub_point_id := identifier (margin_point subplan);
         sub_status := status; sub_steps := steps |}.

Fixpoint execute_subruns (rp : RunPlan) (subs : list SubRunPlan) : M (list SubSummary) :=
  match subs with
  | [] => ret []
  | subplan :: rest =>
      sub_summary <- execute_subrun rp subplan ;;
      emit (WriteFile (run_parent_dir runs_path (parent_id rp) +:+ "/summary.json")) ;;;
      others <- execute_subruns rp rest ;;
      ret (sub_summary :: others)
  end.

(** [Runner.execute]: the [summary["subruns"]] it returns. *)
Definition execute (rp : RunPlan) (dry_run : bool) : M (list SubSummary) :=
  let parent := run_parent_dir runs_path (parent_id rp) in
  emit (MakeDirs parent) ;;;
  emit (WriteFile (parent +:+ "/plan.json")) ;;;
  emit CollectSysinfo ;;;
  emit (WriteFile (parent +:+ "/sysinfo.json")) ;;;
  emit (WriteFile (parent +:+ "/safety_policy.json")) ;;;
  emit (WriteFile (parent +:+ "/summary.json")) ;;;
  if dry_run then ret []
  else
    subs <- execute_subruns rp (subruns rp) ;;
    emit (WriteFile (parent +:+ "/report.md")) ;;;
    emit (WriteFile (parent +:+ "/report.html")) ;;;
    ret subs.

End Runner.

(** ** Statements of the specification *)

(** A number lies within a bound: no present side is crossed. *)
Definition within (b : Bound) (x : Q) : Prop :=
  match minimum b with Some m => (m <= x)%Q | None => True end /\
  match maximum b with Some m => (x <= m)%Q | None => True end.

(** The argv words of one supplied parameter, as section 3 of the spec
    describes them. *)
Definition argv_words (py_str : PyValue -> string) (kv : string * PyValue) : list string :=
  match snd kv with
  | VBool true => [flag_of (fst kv)]
  | VBool false => []
  | v => [flag_of (fst kv); py_str v]
  end.

(** The RR_* variables an adapter receives (section 4.6 of the spec), in the
    order they are set. *)
Definition rr_variables (py_str : PyValue -> string) (subplan : SubRunPlan) (rp : RunPlan)
    (step_plan : StepPlan) (parameters : Dict PyValue) : Dict string :=
  [("RR_RUN_ID", parent_id rp); ("RR_SUB_RUN_ID", sr_identifier subplan);
   ("RR_STEP_ADAPTER", step_adapter (sp_step step_plan));
   ("RR_STEP_NAME", step_name (sp_step step_plan))]
  ++ map (fun kv => ("RR_PARAM_" +:+ upper (sanitize (fst kv)), py_str (snd kv))) parameters
  ++ map (fun kv => ("RR_MARGIN_" +:+ upper (sanitize (fst kv)), py_str (snd kv)))
         (margin step_plan)
  ++ [("RR_MARGIN_POINT", identifier (margin_point subplan));
      ("RR_GLOBAL_SEED", z_str (rp_seed rp))].



(** The (target, parameter, values) sweep entries, flattened in declaration
    order across targets. *)
Definition sweep_entries_of (ts : Dict TargetMargins) : list SweepEntry :=
  flat_map (fun tt => map (fun pv => (fst tt, fst pv, snd pv)) (target_sweeps (snd tt))) ts.

(** The per-target baseline: fixed values plus a non-empty jitter mapping. *)
Definition baseline (mp : MarginProfile) : Dict (Dict PyValue) :=
  map (fun tt => (fst tt, target_values (snd tt))) (targets mp).

Definition entry_key (e : SweepEntry) : string * string :=
  let '(tn, p, _) := e in (tn, p).

(** [values.get(target, {}).get(parameter)] *)
Definition dict_get2 (d : Dict (Dict PyValue)) (tn p : string) : option PyValue :=
  match dict_get d tn with Some inner => dict_get inner p | None => None end.

(** The invocations a sub-run plan lists, flattened across its steps in order:
    the adapter and the parameters of each. *)
Definition planned_invocations (subplan : SubRunPlan) : list (string * Dict PyValue) :=
  flat_map (fun sp => map (fun p => (step_adapter (sp_step sp), p)) (invocations sp))
    (sr_steps subplan).

Definition result_key (r : StepResult) : string * Dict PyValue :=
  (res_adapter r, res_parameters r).

Definition result_passed (r : StepResult) : Prop := res_status r = "PASS".

(** A sub-run summary that records, in order, the invocations attempted up to
    and including the first failing one: status PASS when all planned
    invocations were attempted and passed, FAIL when the last recorded result
    failed and every earlier one passed. *)
Definition short_circuit_summary (subplan : SubRunPlan) (s : SubSummary) : Prop :=
  sub_run_id s = sr_identifier subplan /\
  sub_point_id s = identifier (margin_point subplan) /\
  (exists rest, map result_key (sub_steps s) ++ rest = planned_invocations subplan) /\
  ((sub_status s = "PASS" /\ map result_key (sub_steps s) = planned_invocations subplan /\
    Forall result_passed (sub_steps s)) \/
   (sub_status s = "FAIL" /\ exists ok last, sub_steps s = ok ++ [last] /\
    Forall result_passed ok /\ res_status last = "FAIL")).

(** An invocation the runner's [AdapterExecutor] can reach the spawn with:
    its adapter is registered and its parameters satisfy the manifest's
    schema, so neither [registry.get] nor [build_command] raises. *)
Definition invocation_ok (float_of_str : string -> option Q) (py_str : PyValue -> string)
    (registry : Dict AdapterManifest) (adapter : string) (parameters : Dict PyValue) : Prop :=
  match registry_get registry adapter with
  | Ok m => match build_command float_of_str py_str m parameters with
            | Ok _ => True
            | Err _ => False
            end
  | Err _ => False
  end.

(** Every invocation of every step of every sub-run of a plan is such an
    invocation. *)
Definition plan_invocations_ok (float_of_str : string -> option Q) (py_str : PyValue -> string)
    (registry : Dict AdapterManifest) (rp : RunPlan) : Prop :=
  Forall (fun sub => Forall (fun sp =>
    Forall (invocation_ok float_of_str py_str registry (step_adapter (sp_step sp)))
           (invocations sp)) (sr_steps sub)) (subruns rp).

(** A value under a name other than [jitter] that fails the bound the policy
    registers for that name; a list fails when one of its items does. *)
Definition bound_rejects (float_of_str : string -> option Q) (policy : SafetyPolicy)
    (name : string) (v : PyValue) : Prop :=
  name <> "jitter" /\
  exists b, dict_get (avt_bounds policy) name = Some b /\
  match v with
  | VList items => exists x e, In x items /\ bound_validate float_of_str b name x = Err e
  | _ => exists e, bound_validate float_of_str b name v = Err e
  end.

(** Some margin value of a point, fixed step parameter or sweep value list
    fails its bound. *)
Definition planning_violation (float_of_str : string -> option Q) (policy : SafetyPolicy)
    (flow : FlowDefinition) (mp : MarginProfile) : Prop :=
  (exists pt tn tv name v, In pt (expand_points mp) /\ In (tn, tv) (values pt) /\
     In (name, v) tv /\ bound_rejects float_of_str policy name v) \/
  (exists step name v, In step (flow_steps flow) /\ In (name, v) (step_parameters step) /\
     bound_rejects float_of_str policy name v) \/
  (exists step name vs, In step (flow_steps flow) /\ In (name, vs) (step_sweeps step) /\
     bound_rejects float_of_str policy name (VList vs)).

(** The only effects planning may have: reading the clock and seeding the RNG. *)
Definition planning_event (e : Event) : Prop :=
  e = ClockRead \/ exists z, e = SeedRandom z.

(** One iteration of the overlay loop of [expand_points]. *)
Definition overlay_step (vals : Dict (Dict PyValue)) (ec : SweepEntry * PyValue)
    : Dict (Dict PyValue) :=
  let '((tn, p, _), chosen) := ec in
  let inner := match dict_get vals tn with Some d => d | None => [] end in
  dict_set vals tn (dict_set inner p chosen).

(** The (target, parameter) key of a chosen sweep value. *)
Definition combo_key (ec : SweepEntry * PyValue) : string * string := entry_key (fst ec).

(** The invocations of a list of step plans, flattened in order. *)
Definition step_invocations (steps : list StepPlan) : list (string * Dict PyValue) :=
  flat_map (fun sp => map (fun p => (step_adapter (sp_step sp), p)) (invocations sp)) steps.

(** [lstrip] on the list of characters. *)
Fixpoint drop_while (p : ascii -> bool) (l : list ascii) : list ascii :=
  match l with
  | [] => []
  | c :: rest => if p c then drop_while p rest else l
  end.

(** ** config.py: loading flows and margin profiles *)

(** The loaders read what [yaml.safe_load] returns; mappings are taken to
    have string keys. *)

(** [bool(v)] *)
Definition py_truthy (v : PyValue) : bool :=
  match v with
  | VNone => false
  | VBool b => b
  | VInt z => negb (z =? 0)%Z
  | VFloat q => negb (Qeq_bool q 0)
  | VStr s => negb (String.eqb s "")
  | VList l => negb (Nat.eqb (length l) 0)
  | VDict d => negb (Nat.eqb (length d) 0)
  end.

(** [key in data] *)
Definition dict_has {V} (d : Dict V) (k : string) : bool :=
  match dict_get d k with Some _ => true | None => false end.

(** [list(v)] when [isinstance(v, Iterable) and not isinstance(v, (str, bytes))]:
    the items of a list, the keys of a mapping; [None] for any other value. *)
Definition sweep_list (v : PyValue) : option (list PyValue) :=
  match v with
  | VList l => Some l
  | VDict d => Some (map (fun kv => VStr (fst kv)) d)
  | _ => None
  end.

(** [_require_keys] *)
Definition require_keys (data : Dict PyValue) (keys : list string) : Result unit :=
  for_each (fun key => if dict_has data key then Ok tt else Err (ValidationError key)) keys.

Section Config.
(** [str(v)] *)
Variable py_str : PyValue -> string.
(** [dict(v)] on a value that is not a mapping: the pairs of a list of
    pairs, or the [TypeError]/[ValueError] CPython raises. *)
Variable dict_of_other : PyValue -> Result (Dict PyValue).

(** [dict(v)] *)
Definition py_dict (v : PyValue) : Result (Dict PyValue) :=
  match v with VDict d => Ok d | _ => dict_of_other v end.

(** The body of [for idx, entry in enumerate(steps_raw)] in [load_flow]. *)
Definition load_flow_step (path : string) (ie : nat * PyValue) : Result FlowStep :=
  let '(idx, entry) := ie in
  let ctx := path +:+ " step[" +:+ nat_str idx +:+ "]" in
  match entry with
  | VDict e =>
      _ <-? require_keys e ["name"; "adapter"] ;;
      let parameters := match dict_get e "parameters" with Some v => v | None => VDict [] end in
      let sweeps := match dict_get e "sweeps" with Some v => v | None => VDict [] end in
      match parameters with
      | VDict params =>
          _ <-? match sweeps with
                | VDict _ => Ok tt
                | _ => if py_truthy sweeps then Err (ValidationError ctx) else Ok tt
                end ;;
          normalized <-? map_r (fun kv => match sweep_list (snd kv) with
                                          | Some l => Ok (fst kv, l)
                                          | None => Err (ValidationError (fst kv))
                                          end)
                               (match sweeps with VDict s => s | _ => [] end) ;;
          Ok {| step_name := py_str (match dict_get e "name" with Some v => v | None => VNone end);
                step_adapter := py_str (match dict_get e "adapter" with Some v => v | None => VNone end);
                step_parameters := params;
                step_sweeps := normalized |}
      | _ => Err (ValidationError ctx)
      end
  | _ => Err (ValidationError ctx)
  end.

(** [load_flow], on the parsed YAML document. *)
Definition load_flow (path : string) (payload : PyValue) : Result FlowDefinition :=
  match payload with
  | VDict p =>
      _ <-? require_keys p ["metadata"; "steps"] ;;
      let metadata := match dict_get p "metadata" with Some v => v | None => VNone end in
      match dict_get p "steps" with
      | Some (VList steps_raw) =>
          steps <-? map_r (load_flow_step path) (enumerate steps_raw) ;;
          md <-? py_dict metadata ;;
          Ok {| flow_metadata := md; flow_steps := steps |}
      | _ => Err (ValidationError path)
      end
  | _ => Err (ValidationError path)
  end.

(** The inner loop of [load_margin_profile] over one target's entries:
    [(fixed, sweeps, jitter)] so far. *)
Fixpoint load_target_entries (ctx : string) (items : Dict PyValue)
    (acc : Dict PyValue * Dict (list PyValue) * option (Dict PyValue))
    : Result (Dict PyValue * Dict (list PyValue) * option (Dict PyValue)) :=
  match items with
  | [] => Ok acc
  | (param_name, value) :: rest =>
      let '(fx, sw, jt) := acc in
      if String.eqb param_name "jitter" then
        load_target_entries ctx rest (fx, sw, match value with VDict d => Some d | _ => None end)
      else match value with
           | VDict d =>
               match dict_get d "sweep" with
               | Some sweep_values =>
                   match sweep_list sweep_values with
                   | Some l => load_target_entries ctx rest (fx, dict_set sw param_name l, jt)
                   | None => Err (ValidationError param_name)
                   end
               | None =>
                   match dict_get d "value" with
                   | Some v => load_target_entries ctx rest (dict_set fx param_name v, sw, jt)
                   | None => load_target_entries ctx rest (dict_set fx param_name value, sw, jt)
                   end
               end
           | _ => load_target_entries ctx rest (dict_set fx param_name value, sw, jt)
           end
  end.

(** The outer loop over [targets_raw.items()]. *)
Fixpoint load_targets (path : string) (items : Dict PyValue) (acc : Dict TargetMargins)
    : Result (Dict TargetMargins) :=
  match items with
  | [] => Ok acc
  | (target_name, VDict tp) :: rest =>
      r <-? load_target_entries (path +:+ " target '" +:+ target_name +:+ "'") tp ([], [], None) ;;
      let '(fx, sw, jt) := r in
      load_targets path rest
        (dict_set acc target_name {| fixed := fx; target_sweeps := sw; jitter := jt |})
  | (target_name, _) :: _ => Err (ValidationError target_name)
  end.

(** [seed = payload.get("global_seed")] and its check: [bool] is a subclass
    of [int], so [True] and [False] pass. They are kept here as the seeds 1
    and 0, which they equal as numbers (in [global_seed or 0] and
    [base_seed + idx]); [str()] alone renders them differently, so for a
    boolean seed the program's [RR_GLOBAL_SEED] and parent run id digest
    input read [True] or [False] where this model has 1 or 0. *)
Definition load_global_seed (path : string) (seed : option PyValue) : Result (option Z) :=
  match seed with
  | None | Some VNone => Ok None
  | Some (VInt z) => Ok (Some z)
  | Some (VBool b) => Ok (Some (if b then 1%Z else 0%Z))
  | Some _ => Err (ValidationError path)
  end.

(** [load_margin_profile], on the parsed YAML document. *)
Definition load_margin_profile (path : string) (payload : PyValue) : Result MarginProfile :=
  match payload with
  | VDict p =>
      _ <-? require_keys p ["metadata"; "targets"] ;;
      let metadata := match dict_get p "metadata" with Some v => v | None => VNone end in
      match dict_get p "targets" with
      | Some (VDict targets_raw) =>
          ts <-? load_targets path targets_raw [] ;;
          seed <-? load_global_seed path (dict_get p "global_seed") ;;
          md <-? py_dict metadata ;;
          Ok {| mp_metadata := md; global_seed := seed; targets := ts |}
      | _ => Err (ValidationError path)
      end
  | _ => Err (ValidationError path)
  end.

End Config.

(** A flow step entry [load_flow] accepts: a mapping with [name] and
    [adapter], [parameters] absent or a mapping, [sweeps] absent, falsy, or a
    mapping whose every value is list-like. *)
Definition step_entry_ok (entry : PyValue) : bool :=
  match entry with
  | VDict e =>
      dict_has e "name" && dict_has e "adapter" &&
      match dict_get e "parameters" with None | Some (VDict _) => true | Some _ => false end &&
      match dict_get e "sweeps" with
      | None => true
      | Some (VDict s) => forallb (fun kv => match sweep_list (snd kv) with
                                             | Some _ => true | None => false end) s
      | Some v => negb (py_truthy v)
      end
  | _ => false
  end.

(** What a margin target entry contributes to the fixed values, and to the
    sweeps. *)
Definition margin_fixed_of (v : PyValue) : option PyValue :=
  match v with
  | VDict d =>
      match dict_get d "sweep" with
      | Some _ => None
      | None => match dict_get d "value" with Some x => Some x | None => Some v end
      end
  | _ => Some v
  end.

Definition margin_sweep_of (v : PyValue) : option (list PyValue) :=
  match v with
  | VDict d => match dict_get d "sweep" with Some sv => sweep_list sv | None => None end
  | _ => None
  end.

(** ** safety.py: the profile engine *)

(** The characters [str.splitlines] breaks at, on ASCII text: [\n], [\x0b],
    [\x0c], [\r], [\x1c], [\x1d] and [\x1e]; [\r\n] is a single break. *)
Definition is_linebreak (c : ascii) : bool :=
  let n := nat_of_ascii c in ((10 <=? n) && (n <=? 13)) || ((28 <=? n) && (n <=? 30)).

(** [str.splitlines()], reading [s] with the current line [cur] begun: a
    line break ends a line, and text after the last break is a last line
    when it is not empty. *)
Fixpoint splitlines_from (s cur : string) : list string :=
  match s with
  | EmptyString => if String.eqb cur "" then [] else [cur]
  | String c rest =>
      if Ascii.eqb c "013"%char then
        match rest with
        | String c' rest' =>
            if Ascii.eqb c' "010"%char then cur :: splitlines_from rest' ""
            else cur :: splitlines_from rest ""
        | EmptyString => cur :: splitlines_from rest ""
        end
      else if is_linebreak c then cur :: splitlines_from rest ""
      else splitlines_from rest (cur +:+ String c "")
  end.

Definition splitlines (s : string) : list string := splitlines_from s "".

(** [line.split(":", 1)] when [":" in line], [None] otherwise. *)
Fixpoint split_colon (s : string) : option (string * string) :=
  match s with
  | EmptyString => None
  | String c rest =>
      if Ascii.eqb c ":" then Some ("", rest)
      else match split_colon rest with
           | Some (k, v) => Some (String c k, v)
           | None => None
           end
  end.

(** [safety._parse_lscpu] *)
Definition parse_lscpu (output : string) : Dict string :=
  fold_left (fun parsed line =>
               match split_colon line with
               | None => parsed
               | Some (key, value) =>
                   dict_set parsed (lower (strip py_isspace key)) (strip py_isspace value)
               end)
            (splitlines output) [].

(** [d.get(k, default)] *)
Definition get_or {V} (d : Dict V) (k : string) (default : V) : V :=
  match dict_get d k with Some v => v | None => default end.

Fixpoint take_word (s : string) : string :=
  match s with
  | EmptyString => EmptyString
  | String c rest => if py_isspace c then EmptyString else String c (take_word rest)
  end.

(** [s.split()[0]] of a string with a character that is not blank. *)
Definition first_word (s : string) : string := take_word (lstrip py_isspace s).

Section Fingerprint.
(** [int(s)] on a string *)
Variable int_of_str : string -> option Z.

(** [HardwareFingerprint.from_sysinfo].  A value of [_parse_lscpu] is
    stripped, so when [cpu(s)] is not empty [cpu_count.split()] has a first
    word; the [ValueError] of a failed [int()] is caught into [None]. *)
Definition from_sysinfo (sysinfo : Dict string) : HardwareFingerprint :=
  let parsed := parse_lscpu (get_or sysinfo "lscpu" "") in
  let arch := strip py_isspace (get_or parsed "architecture" "") in
  {| cpu_model := strip py_isspace (get_or parsed "model name" "");
     total_cores :=
       match dict_get parsed "cpu(s)" with
       | Some cpu_count =>
           if String.eqb cpu_count "" then None else int_of_str (first_word cpu_count)
       | None => None
       end;
     architecture := if String.eqb arch "" then get_or sysinfo "uname" "" else arch |}.
End Fingerprint.

(** [safety.SafetyProfile] *)
Record SafetyProfile : Type := {
  prof_name : string;
  prof_description : option PyValue;
  priority : Z;
  prof_match : Dict PyValue;
  prof_policy : SafetyPolicy;
  source_path : string
}.

(** [self._profiles.sort(key=lambda profile: profile.priority, reverse=True)]
    at the end of [SafetyProfileEngine.load]: Python's sort is stable, and
    with [reverse=True] profiles of equal priority keep their order. *)
Fixpoint insert_by_priority (p : SafetyProfile) (sorted : list SafetyProfile)
    : list SafetyProfile :=
  match sorted with
  | [] => [p]
  | q :: rest =>
      if (priority p <? priority q)%Z then q :: insert_by_priority p rest else p :: sorted
  end.

Fixpoint sort_by_priority (profiles : list SafetyProfile) : list SafetyProfile :=
  match profiles with
  | [] => []
  | p :: rest => insert_by_priority p (sort_by_priority rest)
  end.

Section Selection.
Variable py_str : PyValue -> string.
Variable int_of_str : string -> option Z.

(** [for profile in self._profiles: if _matches(profile.match, fingerprint): return profile] *)
Fixpoint first_match (fp : HardwareFingerprint) (profiles : list SafetyProfile)
    : Result (option SafetyProfile) :=
  match profiles with
  | [] => Ok None
  | p :: rest =>
      m <-? matches py_str int_of_str (prof_match p) fp ;;
      if m then Ok (Some p) else first_match fp rest
  end.

(** [SafetyProfileEngine.select] on the profiles [load] has left in the engine. *)
Definition select (profiles : list SafetyProfile) (sysinfo : Dict string)
    : Result (option SafetyProfile) :=
  match profiles with
  | [] => Ok None
  | _ => first_match (from_sysinfo int_of_str sysinfo) profiles
  end.
End Selection.

(** Every character of [s] satisfies [p]. *)
Fixpoint str_forallb (p : ascii -> bool) (s : string) : bool :=
  match s with
  | EmptyString => true
  | String c rest => p c && str_forallb p rest
  end.

(** An [lscpu] output: one line [key:value] for each entry. *)
Definition lscpu_text (entries : list (string * string)) : string :=
  fold_right (fun kv acc => fst kv +:+ ":" +:+ snd kv +:+ String "010"%char acc) "" entries.

(** An entry that [lscpu_text] writes on a line of its own: no line break in
    it, and no colon in its key. *)
Definition lscpu_entry_ok (kv : string * string) : bool :=
  str_forallb (fun c => negb (is_linebreak c) && negb (Ascii.eqb c ":")) (fst kv) &&
  str_forallb (fun c => negb (is_linebreak c)) (snd kv).

(** A path within the directory [d] (paths written with ["/"] separators):
    [d] itself, or a path strictly below it. *)
Definition path_below (d p : string) : Prop := exists r, p = d +:+ String "/" r.
Definition path_within (d p : string) : Prop := p = d \/ path_below d p.

(** An effect on the file system touching only paths within [d]; the other
    effects touch no path. *)
Definition event_within (d : string) (e : Event) : Prop :=
  match e with
  | MakeDirs p | WriteFile p | AppendLine p => path_within d p
  | ClockRead | SeedRandom _ | CollectSysinfo | Spawn _ _ => True
  end.

(** A computation that only adds effects, each of them within [d]. *)
Definition effects_within {A} (d : string) (m : M A) : Prop :=
  forall w, exists new, events (fst (m w)) = events w ++ new /\ Forall (event_within d) new.

(** ** Concrete inputs *)

(** A policy bounding [vcore_mv] to [900, 1000]. *)
Definition ex_policy : SafetyPolicy :=
  {| sp_metadata := [];
     avt_bounds := [("vcore_mv", {| minimum := Some (900 # 1); maximum := Some (1000 # 1) |})];
     behavior := [] |}.

(** The [stress] adapter: [duration] is a float in [0, 10]. *)
Definition ex_manifest : AdapterManifest :=
  {| am_name := "stress"; am_path := "/opt/diags/stress";
     am_parameters := [("duration", {| ap_type := "float"; allowed := None;
                                       ap_minimum := Some 0%Q; ap_maximum := Some (10 # 1) |})];
     am_description := None; am_args := [] |}.

Definition ex_registry : Dict AdapterManifest := [("stress", ex_manifest)].

(** One step, swept over two thread counts. *)
Definition ex_step (duration : Z) : FlowStep :=
  {| step_name := "stress"; step_adapter := "stress";
     step_parameters := [("duration", VInt duration)];
     step_sweeps := [("threads", [VInt 1; VInt 2])] |}.

Definition ex_flow (duration : Z) : FlowDefinition :=
  {| flow_metadata := []; flow_steps := [ex_step duration] |}.

(** Two margin points: [vcore_mv] swept over 900 and 950. *)
Definition ex_margin : MarginProfile :=
  {| mp_metadata := []; global_seed := Some 7%Z;
     targets := [("default", {| fixed := []; target_sweeps := [("vcore_mv", [VInt 900; VInt 950])];
                               jitter := None |})] |}.

Definition ex_world : World := {| environ := [("PATH", "/usr/bin")]; events := [] |}.

Definition ex_py_str : PyValue -> string := str_scalar (fun _ => "<float>").

(** [Runner.plan] on the concrete inputs, with a fixed clock and digest. *)
Definition ex_plan_run (flow : FlowDefinition) (mpath : option string)
    (mp : option MarginProfile) : World * Result RunPlan :=
  plan (fun _ => None) 1760486400%Z "20261015T000000Z" (fun _ => "0123456789")
       "flows/stress.yaml" flow mpath mp ex_policy "policy/safety.yaml" ex_world.

Definition ex_plan (duration : Z) : RunPlan :=
  match snd (ex_plan_run (ex_flow duration) (Some "margins/vcore.yaml") (Some ex_margin)) with
  | Ok rp => rp
  | Err _ => {| parent_id := ""; flow_path := ""; margin_path := None; safety_source := "";
                rp_flow := ex_flow duration; rp_margin_profile := ex_margin;
                rp_safety_policy := ex_policy; rp_seed := 0%Z; subruns := [] |}
  end.

(** The real executor on the [stress] manifest: the binary exists and each
    child exits with [exit_code]. *)
Definition ex_executor (exit_code : list string -> Z) : Executor :=
  adapter_run (fun _ => None) ex_py_str (fun p => String.eqb p "/opt/diags/stress")
              (fun _ => None) (fun _ argv _ => Some (exit_code argv)) ex_registry.

(** The real executor on the [stress] manifest when the binary exists but
    cannot be started ([subprocess.run] raises an [OSError], for instance a
    [PermissionError] on a file without execute permission). *)
Definition ex_unspawnable_executor : Executor :=
  adapter_run (fun _ => None) ex_py_str (fun p => String.eqb p "/opt/diags/stress")
              (fun _ => None) (fun _ _ _ => None) ex_registry.

(** Whether an effect creates the directory [d]. *)
Definition makes_dir (d : string) (ev : Event) : bool :=
  match ev with MakeDirs p => String.eqb p d | _ => false end.

(** A step that fixes [threads] and also sweeps it. *)
Definition ex_collide_step : FlowStep :=
  {| step_name := "stress"; step_adapter := "stress";
     step_parameters := [("threads", VInt 4); ("duration", VInt 1)];
     step_sweeps := [("threads", [VInt 1; VInt 2])] |}.

(** A manifest naming its executable by a relative name. *)
Definition ex_relative_manifest : AdapterManifest :=
  {| am_name := "memtest"; am_path := "memtest"; am_parameters := [];
     am_description := None; am_args := [] |}.

(** [shutil.which] with [memtest] installed under /usr/bin. *)
Definition ex_which (cmd : string) : option string :=
  if String.eqb cmd "memtest" then Some "/usr/bin/memtest" else None.

(** A margin profile whose default target fixes [vcore_mv] out of bounds. *)
Definition ex_margin_high : MarginProfile :=
  {| mp_metadata := []; global_seed := None;
     targets := [("default", {| fixed := [("vcore_mv", VInt 5000)]; target_sweeps := [];
                               jitter := None |})] |}.

(** A margin profile whose only sweep has no value: it expands to no point. *)
Definition ex_margin_empty_sweep : MarginProfile :=
  {| mp_metadata := []; global_seed := Some 7%Z;
     targets := [("default", {| fixed := []; target_sweeps := [("vcore_mv", [])];
                               jitter := None |})] |}.

(** A flow whose step fixes [vcore_mv] out of bounds. *)
Definition ex_flow_high : FlowDefinition :=
  {| flow_metadata := [];
     flow_steps := [{| step_name := "stress"; step_adapter := "stress";
                       step_parameters := [("vcore_mv", VInt 5000)]; step_sweeps := [] |}] |}.

(** A margin profile whose target declares an empty jitter mapping. *)
Definition ex_margin_empty_jitter : MarginProfile :=
  {| mp_metadata := []; global_seed := None;
     targets := [("default", {| fixed := [("vcore_mv", VInt 900)]; target_sweeps := [];
                               jitter := Some [] |})] |}.

(** An exit code: 1 for the child started with [--threads 2], 0 otherwise. *)
Definition ex_exit_threads2 (argv : list string) : Z :=
  if existsb (String.eqb "2") argv then 1%Z else 0%Z.



(** A decimal digit character. *)
Definition is_digit (c : ascii) : Prop := 48 <= nat_of_ascii c <= 57.

(** Reading back a string of decimal digits, to show that [nat_str] and
    [pad2] never render two numbers alike. *)
Fixpoint dec_from (k : nat) (s : string) : nat :=
  match s with
  | EmptyString => k
  | String c s' => dec_from (k * 10 + (nat_of_ascii c - 48)) s'
  end.

(** A flow document: a swept [stress] step and an [idle] step whose
    [sweeps] is [null]. *)
Definition ex_flow_doc : PyValue :=
  VDict [("metadata", VDict [("name", VStr "stress")]);
         ("steps", VList [VDict [("name", VStr "stress"); ("adapter", VStr "stress");
                                 ("parameters", VDict [("duration", VInt 5)]);
                                 ("sweeps", VDict [("threads", VList [VInt 1; VInt 2])])];
                          VDict [("name", VStr "idle"); ("adapter", VStr "idle");
                                 ("sweeps", VNone)]])].

(** [dict()] of a value that is not a mapping, as raising. *)
Definition ex_dict_of_other (_ : PyValue) : Result (Dict PyValue) := Err (ValueError "dict").

Definition ex_loaded_flow : FlowDefinition :=
  match load_flow ex_py_str ex_dict_of_other "flows/stress.yaml" ex_flow_doc with
  | Ok fd => fd
  | Err _ => {| flow_metadata := []; flow_steps := [] |}
  end.

(** The targets of a margin document: [vcore_mv] swept, [soc_mv] fixed
    through [value], [fan] fixed as given, with a jitter mapping. *)
Definition ex_margin_targets : Dict PyValue :=
  [("default", VDict [("vcore_mv", VDict [("sweep", VList [VInt 900; VInt 950])]);
                      ("soc_mv", VDict [("value", VInt 850)]);
                      ("fan", VStr "max");
                      ("jitter", VDict [("vcore_mv", VInt 5)])]);
   ("stress", VDict [("threads", VInt 4)])].

Definition ex_margin_doc : Dict PyValue :=
  [("metadata", VDict []); ("targets", VDict ex_margin_targets); ("global_seed", VInt 7)].

Definition ex_loaded_margin : MarginProfile :=
  match load_margin_profile ex_dict_of_other "margins/vcore.yaml" (VDict ex_margin_doc) with
  | Ok m => m
  | Err _ => default_margin_profile
  end.

(** [int(s)] on strings of decimal digits. *)
Definition ex_int_of_str (s : string) : option Z :=
  if negb (String.eqb s "") &&
     str_forallb (fun c => (48 <=? nat_of_ascii c) && (nat_of_ascii c <=? 57)) s
  then Some (Z.of_nat (dec_from 0 s)) else None.

Definition ex_profile (name : string) (prio : Z) (criteria : Dict PyValue) : SafetyProfile :=
  {| prof_name := name; prof_description := None; priority := prio;
     prof_match := criteria; prof_policy := ex_policy;
     source_path := "/etc/road_runner/profiles/" +:+ name +:+ ".yaml" |}.

Definition ex_generic : SafetyProfile := ex_profile "generic" 0 [].
Definition ex_epyc : SafetyProfile :=
  ex_profile "epyc" 10 [("cpu_model_contains", VStr "EPYC")].
Definition ex_xeon : SafetyProfile :=
  ex_profile "xeon" 10 [("cpu_model_contains", VList [VStr "Xeon"; VStr "Core"])].
Definition ex_large : SafetyProfile :=
  ex_profile "large" 5 [("min_cores", VInt 64)].

(** Profile files in the order [sorted(glob)] reads them. *)
Definition ex_profiles : list SafetyProfile := [ex_epyc; ex_generic; ex_large; ex_xeon].

Definition ex_sysinfo (model : string) : Dict string :=
  [("uname", "Linux host 6.1.0 x86_64");
   ("lscpu", lscpu_text [("Architecture", "        x86_64"); ("CPU(s)", "       32");
                         ("Model name", "      " +:+ model)])].

(** * Properties *)

Lemma Qltb_false_iff (x y : Q) : Qltb x y = false <-> (y <= x)%Q.
Proof.
  unfold Qltb. rewrite negb_false_iff. apply Qle_bool_iff.
Qed.

Lemma Qltb_true_iff (x y : Q) : Qltb x y = true <-> (x < y)%Q.
Proof.
  unfold Qltb. rewrite negb_true_iff. split.
  - intro H. apply Qnot_le_lt. intro H'. apply Qle_bool_iff in H'. congruence.
  - intro H. destruct (Qle_bool y x) eqn:E; [|reflexivity].
    apply Qle_bool_iff in E. exfalso. apply (Qlt_not_le x y H E).
Qed.

(** C4 (as the code does it): [Bound.validate] lets [None] through; any
    other value that [float()] rejects with [TypeError] or [ValueError]
    fails with a [ValidationError]; an integer too large for a double makes
    [float()] raise [OverflowError], which [Bound.validate] does not catch;
    a converted number (an integer rounded to the nearest double, exact up
    to 2^53 in magnitude) passes exactly when it lies within the bound and
    fails with a [SafetyViolationError] otherwise. *)
Theorem bound_validate_contract :
  forall (float_of_str : string -> option Q) (b : Bound) (name : string) (v : PyValue),
    (v = VNone -> bound_validate float_of_str b name v = Ok tt) /\
    (forall e, py_float float_of_str v = Err e ->
       (exists m, e = ValueError m) \/ (exists m, e = OverflowError m)) /\
    (forall m, v <> VNone -> py_float float_of_str v = Err (ValueError m) ->
       bound_validate float_of_str b name v = Err (ValidationError name)) /\
    (forall m, v <> VNone -> py_float float_of_str v = Err (OverflowError m) ->
       bound_validate float_of_str b name v = Err (OverflowError m)) /\
    (forall z, (Z.abs z <= 2 ^ 53)%Z -> py_float float_of_str (VInt z) = Ok (inject_Z z)) /\
    (forall x, v <> VNone -> py_float float_of_str v = Ok x ->
       (bound_validate float_of_str b name v = Ok tt <-> within b x) /\
       (~ within b x -> bound_validate float_of_str b name v = Err (SafetyViolationError name))).
Proof.
  intros fs b name v.
  assert (Hbody : forall x, v <> VNone -> py_float fs v = Ok x ->
            bound_validate fs b name v =
            if match minimum b with Some m => Qltb x m | None => false end
            then Err (SafetyViolationError name)
            else if match maximum b with Some m => Qltb m x | None => false end
            then Err (SafetyViolationError name) else Ok tt).
  { intros x Hn Hf. unfold bound_validate.
    destruct v; try congruence; rewrite Hf; reflexivity. }
  split; [intros ->; reflexivity|]. split.
  { intros e He. destruct v; simpl in He;
      repeat (match type of He with context [match ?x with _ => _ end] => destruct x end);
      try discriminate; injection He as <-; eauto. }
  split.
  { intros m Hn Hf. unfold bound_validate.
    destruct v; try congruence; rewrite Hf; reflexivity. }
  split.
  { intros m Hn Hf. unfold bound_validate.
    destruct v; try congruence; rewrite Hf; reflexivity. }
  split.
  { intros z Hz. destruct (Z.abs z <? 2 ^ 53)%Z eqn:E.
    - simpl py_float. unfold int_to_float. cbv zeta. rewrite E.
      replace (2 ^ 1024 <=? Z.abs z)%Z with false
        by (symmetry; apply Z.leb_gt; apply Z.ltb_lt in E; lia).
      rewrite Z.mul_comm, Z.abs_sgn. reflexivity.
    - apply Z.ltb_ge in E.
      assert (Hz' : z = (2 ^ 53)%Z \/ z = (- 2 ^ 53)%Z) by lia.
      destruct Hz' as [-> | ->]; vm_compute; reflexivity. }
  intros x Hn Hf. rewrite (Hbody x Hn Hf). unfold within.
    destruct (minimum b) as [lo|] eqn:Elo; destruct (maximum b) as [hi|] eqn:Ehi.
    + destruct (Qltb x lo) eqn:E1.
      * apply Qltb_true_iff in E1. split.
        -- split; [discriminate|]. intros [H1 _]. exfalso. exact (Qlt_not_le x lo E1 H1).
        -- reflexivity.
      * apply Qltb_false_iff in E1. destruct (Qltb hi x) eqn:E2.
        -- apply Qltb_true_iff in E2. split.
           ++ split; [discriminate|]. intros [_ H2]. exfalso. exact (Qlt_not_le hi x E2 H2).
           ++ reflexivity.
        -- apply Qltb_false_iff in E2. split.
           ++ split; [intros _; split; assumption | reflexivity].
           ++ intros Hw. exfalso. apply Hw. split; assumption.
    + destruct (Qltb x lo) eqn:E1.
      * apply Qltb_true_iff in E1. split.
        -- split; [discriminate|]. intros [H1 _]. exfalso. exact (Qlt_not_le x lo E1 H1).
        -- reflexivity.
      * apply Qltb_false_iff in E1. split.
        -- split; [intros _; split; [assumption | exact I] | reflexivity].
        -- intros Hw. exfalso. apply Hw. split; [assumption | exact I].
    + destruct (Qltb hi x) eqn:E2.
      * apply Qltb_true_iff in E2. split.
        -- split; [discriminate|]. intros [_ H2]. exfalso. exact (Qlt_not_le hi x E2 H2).
        -- reflexivity.
      * apply Qltb_false_iff in E2. split.
        -- split; [intros _; split; [exact I | assumption] | reflexivity].
        -- intros Hw. exfalso. apply Hw. split; [exact I | assumption].
    + split.
      * split; [intros _; split; exact I | reflexivity].
      * intros Hw. exfalso. apply Hw. split; exact I.
Qed.

(** ** Dictionaries, loops and products *)

Lemma dict_get_set {V} (d : Dict V) (k k' : string) (v : V) :
  dict_get (dict_set d k v) k' = if String.eqb k' k then Some v else dict_get d k'.
Proof.
  induction d as [|[k0 v0] rest IH]; simpl.
  - reflexivity.
  - destruct (String.eqb k k0) eqn:E.
    + apply String.eqb_eq in E. subst k0. simpl. destruct (String.eqb k' k); reflexivity.
    + simpl. rewrite IH. destruct (String.eqb k' k0) eqn:E'; [|reflexivity].
      apply String.eqb_eq in E'. subst k0.
      destruct (String.eqb k' k) eqn:E''; [|reflexivity].
      apply String.eqb_eq in E''. subst k. rewrite String.eqb_refl in E. discriminate.
Qed.

Lemma dict_get_app {V} (d e : Dict V) (k : string) :
  dict_get (d ++ e) k = match dict_get d k with Some v => Some v | None => dict_get e k end.
Proof.
  induction d as [|[k0 v0] rest IH]; simpl; [reflexivity|].
  destruct (String.eqb k k0); [reflexivity | exact IH].
Qed.

(** [d.update(u)]: the last binding of a key in [u] wins, other keys keep
    their value in [d]. *)
Lemma dict_get_update {V} (d u : Dict V) (k : string) :
  dict_get (dict_update d u) k =
  match dict_get (rev u) k with Some v => Some v | None => dict_get d k end.
Proof.
  unfold dict_update. revert d. induction u as [|[k0 v0] rest IH]; intro d; simpl.
  - reflexivity.
  - rewrite IH, dict_get_app, dict_get_set. simpl.
    destruct (dict_get (rev rest) k); [reflexivity|].
    destruct (String.eqb k k0); reflexivity.
Qed.

Lemma dict_get_in {V} (u : Dict V) (k : string) (v : V) :
  NoDup (map fst u) -> In (k, v) u -> dict_get u k = Some v.
Proof.
  induction u as [|[k0 v0] rest IH]; simpl; intros Hnd Hin; [contradiction|].
  inversion Hnd as [|x l Hnot Hnd' Heq]; subst.
  destruct Hin as [Heq|Hin].
  - inversion Heq; subst. rewrite String.eqb_refl. reflexivity.
  - destruct (String.eqb k k0) eqn:E.
    + apply String.eqb_eq in E. subst k0. exfalso. apply Hnot.
      apply (in_map fst) in Hin. exact Hin.
    + apply IH; assumption.
Qed.

Lemma dict_get_notin {V} (u : Dict V) (k : string) :
  ~ In k (map fst u) -> dict_get u k = None.
Proof.
  induction u as [|[k0 v0] rest IH]; simpl; intros Hn; [reflexivity|].
  destruct (String.eqb k k0) eqn:E.
  - apply String.eqb_eq in E. subst. exfalso. apply Hn. left. reflexivity.
  - apply IH. intro H. apply Hn. right. exact H.
Qed.

Lemma dict_get_some_in {V} (u : Dict V) (k : string) (v : V) :
  dict_get u k = Some v -> In k (map fst u).
Proof.
  induction u as [|[k0 v0] rest IH]; simpl; intros H; [discriminate|].
  destruct (String.eqb k k0) eqn:E.
  - apply String.eqb_eq in E. left. symmetry. exact E.
  - right. apply IH. exact H.
Qed.

Lemma dict_get_keys_in {V} (u : Dict V) (k : string) :
  In k (map fst u) -> exists v, dict_get u k = Some v.
Proof.
  induction u as [|[k0 v0] rest IH]; simpl; intros H; [contradiction|].
  destruct (String.eqb k k0) eqn:E; [exists v0; reflexivity|].
  apply IH. destruct H as [H|H]; [|exact H].
  subst. rewrite String.eqb_refl in E. discriminate.
Qed.

Lemma for_each_ok {A} (f : A -> Result unit) (xs : list A) :
  for_each f xs = Ok tt <-> (forall x, In x xs -> f x = Ok tt).
Proof.
  induction xs as [|x rest IH]; simpl.
  - split; [intros _ y [] | reflexivity].
  - unfold rbind. destruct (f x) as [[]|e] eqn:E.
    + rewrite IH. split.
      * intros H y [<-|Hy]; [exact E | apply H; exact Hy].
      * intros H y Hy. apply H. right. exact Hy.
    + split; [discriminate|]. intros H. rewrite (H x (or_introl eq_refl)) in E. discriminate.
Qed.

Lemma map_r_ok {A B} (f : A -> Result B) (xs : list A) (ys : list B) :
  map_r f xs = Ok ys -> forall x, In x xs -> exists y, f x = Ok y.
Proof.
  revert ys. induction xs as [|x rest IH]; simpl; intros ys H y Hy; [contradiction|].
  unfold rbind in H. destruct (f x) as [b|e] eqn:E; [|discriminate].
  destruct (map_r f rest) as [bs|e] eqn:E2; [|discriminate].
  destruct Hy as [<-|Hy]; [exists b; exact E | exact (IH bs eq_refl y Hy)].
Qed.

Lemma in_product {A} (pools : list (list A)) (c : list A) :
  In c (product pools) -> Forall2 (@In A) c pools.
Proof.
  revert c. induction pools as [|pool rest IH]; simpl; intros c Hc.
  - destruct Hc as [<-|[]]. constructor.
  - apply in_flat_map in Hc. destruct Hc as [x [Hx Hc]].
    apply in_map_iff in Hc. destruct Hc as [c' [<- Hc']].
    constructor; [exact Hx | apply IH; exact Hc'].
Qed.

Lemma length_product {A} (pools : list (list A)) :
  length (product pools) = fold_right Nat.mul 1 (map (@length A) pools).
Proof.
  induction pools as [|pool rest IH]; simpl; [reflexivity|].
  rewrite <- IH. induction pool as [|x xs IHp]; simpl; [reflexivity|].
  rewrite length_app, length_map, IHp. reflexivity.
Qed.

Lemma nth_error_combine {A B} (l1 : list A) (l2 : list B) (i : nat) :
  nth_error (combine l1 l2) i =
  match nth_error l1 i, nth_error l2 i with
  | Some a, Some b => Some (a, b)
  | _, _ => None
  end.
Proof.
  revert l2 i. induction l1 as [|a l1 IH]; intros [|b l2] [|i]; simpl; try reflexivity.
  - destruct (nth_error l1 i); reflexivity.
  - apply IH.
Qed.

Lemma map_fst_combine {A B} (l1 : list A) (l2 : list B) :
  length l1 = length l2 -> map fst (combine l1 l2) = l1.
Proof.
  revert l2. induction l1 as [|a l1 IH]; intros [|b l2]; simpl; intros H;
    try discriminate; [reflexivity|].
  rewrite IH; [reflexivity | lia].
Qed.

Lemma Forall2_nth_error_r {A B} (R : A -> B -> Prop) (l1 : list A) (l2 : list B) (j : nat) (b : B) :
  Forall2 R l1 l2 -> nth_error l2 j = Some b -> exists a, nth_error l1 j = Some a /\ R a b.
Proof.
  intros H. revert j. induction H as [|a b' l1 l2 Hab H IH]; intros [|j]; simpl;
    intros E; try discriminate.
  - inversion E; subst. exists a. split; [reflexivity | exact Hab].
  - apply IH. exact E.
Qed.

Lemma Forall2_length' {A B} (R : A -> B -> Prop) (l1 : list A) (l2 : list B) :
  Forall2 R l1 l2 -> length l1 = length l2.
Proof. intros H. induction H; simpl; congruence. Qed.

(** C9: on a key that is both fixed and swept, every invocation carries the
    swept value of its combination. *)
Theorem expanded_parameters_sweep_wins :
  forall (s : FlowStep) (inv : Dict PyValue),
    NoDup (map fst (step_sweeps s)) -> In inv (expanded_parameters s) ->
    exists combo,
      In combo (product (map snd (step_sweeps s))) /\
      forall j k vs, nth_error (step_sweeps s) j = Some (k, vs) ->
        exists v, nth_error combo j = Some v /\ In v vs /\ dict_get inv k = Some v.
Proof.
  intros s inv Hnd Hin. unfold expanded_parameters in Hin.
  destruct (step_sweeps s) as [|sw0 sws] eqn:Esw.
  - exists []. split; [simpl; left; reflexivity|].
    intros [|j] k vs E; discriminate.
  - set (sweeps := sw0 :: sws) in *.
    apply in_map_iff in Hin. destruct Hin as [combo [Hinv Hcombo]].
    exists combo. split; [exact Hcombo|].
    intros j k vs Ej.
    pose proof (in_product _ _ Hcombo) as HF.
    assert (Ejs : nth_error (map snd sweeps) j = Some vs).
    { rewrite nth_error_map, Ej. reflexivity. }
    destruct (Forall2_nth_error_r _ _ _ _ _ HF Ejs) as [v [Ev Hv]].
    exists v. split; [exact Ev|]. split; [exact Hv|].
    subst inv. rewrite dict_get_update.
    assert (Hlen : length (map fst sweeps) = length combo).
    { apply Forall2_length' in HF. rewrite !length_map in *. lia. }
    assert (Hin2 : In (k, v) (combine (map fst sweeps) combo)).
    { apply nth_error_In with (n := j). rewrite nth_error_combine, nth_error_map, Ej, Ev.
      reflexivity. }
    rewrite (dict_get_in (rev (combine (map fst sweeps) combo)) k v).
    + reflexivity.
    + rewrite map_rev, map_fst_combine by exact Hlen. apply NoDup_rev. exact Hnd.
    + apply in_rev. rewrite rev_involutive. exact Hin2.
Qed.

Lemma param_flags_words (py_str : PyValue -> string) (params : Dict PyValue) :
  param_flags py_str params = flat_map (argv_words py_str) params.
Proof.
  induction params as [|[k v] rest IH]; simpl; [reflexivity|].
  rewrite IH. unfold argv_words. simpl. destruct v as [| [] | | | | |]; reflexivity.
Qed.

(** C6: [build_command] succeeds exactly when every supplied key declared in
    the schema validates (undeclared keys are not checked), and then yields
    the manifest path, the fixed args and, per supplied key in order, its
    flag words. *)
Theorem build_command_argv :
  forall (float_of_str : string -> option Q) (py_str : PyValue -> string)
         (m : AdapterManifest) (params : Dict PyValue) (cmd : list string),
    build_command float_of_str py_str m params = Ok cmd <->
    (forall k v spec, In (k, v) params -> dict_get (am_parameters m) k = Some spec ->
                      param_validate float_of_str spec k v = Ok tt) /\
    cmd = am_path m :: am_args m ++ flat_map (argv_words py_str) params.
Proof.
  intros fs py_str m params cmd. unfold build_command, rbind.
  set (check := fun kv : string * PyValue =>
                  match dict_get (am_parameters m) (fst kv) with
                  | Some spec => param_validate fs spec (fst kv) (snd kv)
                  | None => Ok tt
                  end).
  assert (Hiff : for_each check params = Ok tt <->
                 (forall k v spec, In (k, v) params -> dict_get (am_parameters m) k = Some spec ->
                                   param_validate fs spec k v = Ok tt)).
  { rewrite for_each_ok. split.
    - intros H k v spec Hin Hs. specialize (H (k, v) Hin). unfold check in H. simpl in H.
      rewrite Hs in H. exact H.
    - intros H [k v] Hin. unfold check. simpl.
      destruct (dict_get (am_parameters m) k) as [spec|] eqn:Hs; [|reflexivity].
      exact (H k v spec Hin Hs). }
  rewrite param_flags_words.
  destruct (for_each check params) as [[]|e] eqn:E.
  - split.
    + intros H. inversion H; subst. split; [apply Hiff; reflexivity | reflexivity].
    + intros [_ ->]. reflexivity.
  - split; [discriminate|]. intros [H _]. apply Hiff in H. discriminate.
Qed.

Lemma dict_update_app {V} (d u1 u2 : Dict V) :
  dict_update d (u1 ++ u2) = dict_update (dict_update d u1) u2.
Proof. unfold dict_update. apply fold_left_app. Qed.

Lemma dict_update_map {A V} (d : Dict V) (f : A -> string * V) (xs : list A) :
  dict_update d (map f xs) = fold_left (fun acc x => dict_set acc (fst (f x)) (snd (f x))) xs d.
Proof.
  unfold dict_update. revert d. induction xs as [|x rest IH]; intro d; simpl; [reflexivity|].
  apply IH.
Qed.

Lemma dict_set_nonempty {V} (d : Dict V) (k : string) (v : V) : dict_set d k v <> [].
Proof. destruct d as [|[k0 v0] rest]; simpl; [discriminate|]. destruct (String.eqb k k0); discriminate. Qed.

Lemma build_step_environment_update (py_str : PyValue -> string) subplan rp step_plan params w :
  build_step_environment py_str subplan rp step_plan params w =
  (w, Ok (dict_update (environ w) (rr_variables py_str subplan rp step_plan params))).
Proof.
  unfold build_step_environment, rr_variables, mbind, get_world, ret.
  rewrite !dict_update_app, !dict_update_map. reflexivity.
Qed.

(** C10: the adapter environment is a copy of [os.environ] extended with the
    RR_* variables: every inherited variable is still there, a synthesized
    one replaces an inherited one of the same name, other inherited values
    are unchanged, the result is non-empty (so [run] passes it to the child
    rather than [None]), and the process state, its environment included, is
    left as it was. *)
Theorem build_step_environment_extends :
  forall (py_str : PyValue -> string) (subplan : SubRunPlan) (rp : RunPlan)
         (step_plan : StepPlan) (params : Dict PyValue) (w : World),
    let rr := rr_variables py_str subplan rp step_plan params in
    exists env,
      build_step_environment py_str subplan rp step_plan params w = (w, Ok env) /\
      env <> [] /\
      (forall k v, dict_get (environ w) k = Some v -> exists v', dict_get env k = Some v') /\
      (forall k, In k (map fst rr) -> dict_get env k = dict_get (rev rr) k) /\
      (forall k, ~ In k (map fst rr) -> dict_get env k = dict_get (environ w) k).
Proof.
  intros py_str subplan rp step_plan params w rr.
  exists (dict_update (environ w) rr). split; [apply build_step_environment_update|].
  split.
  { unfold rr, rr_variables. rewrite !dict_update_app. simpl.
    unfold dict_update at 1. simpl. apply dict_set_nonempty. }
  split; [|split].
  - intros k v Hk. rewrite dict_get_update.
    destruct (dict_get (rev rr) k) as [v'|]; [exists v'; reflexivity | exists v; exact Hk].
  - intros k Hk. rewrite dict_get_update.
    destruct (dict_get (rev rr) k) as [v'|] eqn:E; [reflexivity|].
    exfalso. destruct (dict_get_keys_in (rev rr) k) as [v' Hv'].
    + rewrite map_rev, <- in_rev. exact Hk.
    + congruence.
  - intros k Hk. rewrite dict_get_update.
    rewrite dict_get_notin; [reflexivity|].
    rewrite map_rev, <- in_rev. exact Hk.
Qed.

(** C7 (what the code does): for a manifest whose path is relative, the
    command's first word is kept as written; [shutil.which] is not consulted
    and the "executable not found" error cannot be raised. *)
Theorem resolve_command_relative_unresolved :
  forall (path_exists : string -> bool) (which : string -> option string)
         (m : AdapterManifest) (name : string) (rest : list string),
    is_absolute (am_path m) = false -> am_path m <> "" ->
    resolve_command path_exists which m name (am_path m :: rest) = Ok (am_path m :: rest).
Proof.
  intros path_exists which m name rest Hrel Hne. unfold resolve_command. simpl.
  rewrite Hrel. simpl. destruct (am_path m) as [|c s] eqn:E; [congruence | reflexivity].
Qed.

(** The part of C7 the code keeps: an absolute manifest path that does not
    exist makes [run] raise [AdapterExecutionError] before any child is
    started or any capture file is opened. *)
Lemma adapter_run_absolute_missing :
  forall float_of_str py_str path_exists which spawn_exit registry name params o e env
         (m : AdapterManifest) (cmd : list string) (w : World),
    registry_get registry name = Ok m ->
    build_command float_of_str py_str m params = Ok cmd ->
    is_absolute (am_path m) = true -> path_exists (am_path m) = false ->
    adapter_run float_of_str py_str path_exists which spawn_exit registry name params o e env w
    = (w, Err (AdapterExecutionError name)).
Proof.
  intros until w. intros Hr Hb Habs Hex.
  unfold adapter_run, mbind, lift. rewrite Hr, Hb. unfold resolve_command.
  rewrite Habs, Hex. reflexivity.
Qed.





(** ** Margin point expansion *)

Lemma dict_set_new {V} (d : Dict V) (k : string) (v : V) :
  ~ In k (map fst d) -> dict_set d k v = d ++ [(k, v)].
Proof.
  induction d as [|[k0 v0] rest IH]; simpl; intros Hn; [reflexivity|].
  destruct (String.eqb k k0) eqn:E.
  - apply String.eqb_eq in E. subst. exfalso. apply Hn. left. reflexivity.
  - rewrite IH; [reflexivity|]. intro H. apply Hn. right. exact H.
Qed.

Lemma collect_targets_spec (ts : Dict TargetMargins) :
  forall base entries,
    NoDup (map fst base ++ map fst ts) ->
    collect_targets ts base entries =
    (base ++ map (fun tt => (fst tt, target_values (snd tt))) ts,
     entries ++ sweep_entries_of ts).
Proof.
  induction ts as [|[tn t] rest IH]; intros base entries Hnd; simpl.
  - rewrite !app_nil_r. reflexivity.
  - rewrite dict_set_new.
    + rewrite IH.
      * rewrite <- !app_assoc. reflexivity.
      * rewrite map_app, <- app_assoc. simpl. exact Hnd.
    + intro H. apply (NoDup_remove_2 _ _ _ Hnd). apply in_or_app. left. exact H.
Qed.

Lemma enumerate_points_length base entries s idx combos :
  length (enumerate_points base entries s idx combos) = length combos.
Proof.
  revert idx. induction combos as [|c rest IH]; intro idx; simpl; [reflexivity|].
  rewrite IH. reflexivity.
Qed.

Lemma enumerate_points_nth base entries s idx combos i c :
  nth_error combos i = Some c ->
  nth_error (enumerate_points base entries s idx combos) i =
  Some {| identifier := "point-" +:+ nat_str (idx + i);
          values := overlay base entries c;
          seed := (s + Z.of_nat (idx + i))%Z |}.
Proof.
  revert idx i. induction combos as [|c0 rest IH]; intros idx [|i] E; simpl in *;
    try discriminate.
  - inversion E; subst. rewrite Nat.add_0_r. reflexivity.
  - rewrite (IH (S idx) i E). replace (S idx + i) with (idx + S i) by lia. reflexivity.
Qed.

Lemma dict_get2_overlay_step vals tn p vs c tn' p' :
  dict_get2 (overlay_step vals ((tn, p, vs), c)) tn' p' =
  if String.eqb tn' tn && String.eqb p' p then Some c else dict_get2 vals tn' p'.
Proof.
  unfold overlay_step, dict_get2. rewrite dict_get_set.
  destruct (String.eqb tn' tn) eqn:E1; simpl; [|reflexivity].
  apply String.eqb_eq in E1. subst tn'.
  rewrite dict_get_set. destruct (String.eqb p' p); [reflexivity|].
  destruct (dict_get vals tn); reflexivity.
Qed.

Lemma overlay_fold_untouched (l : list (SweepEntry * PyValue)) :
  forall vals tn p, ~ In (tn, p) (map combo_key l) ->
    dict_get2 (fold_left overlay_step l vals) tn p = dict_get2 vals tn p.
Proof.
  induction l as [|[[[tn0 p0] vs0] c0] rest IH]; intros vals tn p Hn; cbn [fold_left];
    [reflexivity|].
  rewrite IH.
  - rewrite dict_get2_overlay_step.
    destruct (String.eqb tn tn0) eqn:E1; destruct (String.eqb p p0) eqn:E2; simpl; try reflexivity.
    apply String.eqb_eq in E1. apply String.eqb_eq in E2. subst. exfalso. apply Hn.
    left. reflexivity.
  - intro H. apply Hn. right. exact H.
Qed.

Lemma overlay_fold_set (l : list (SweepEntry * PyValue)) :
  forall vals tn p vs c, NoDup (map combo_key l) -> In ((tn, p, vs), c) l ->
    dict_get2 (fold_left overlay_step l vals) tn p = Some c.
Proof.
  induction l as [|[[[tn0 p0] vs0] c0] rest IH]; intros vals tn p vs c Hnd Hin;
    cbn [fold_left]; [contradiction|].
  inversion Hnd as [|x l Hnot Hnd' Heq]; subst.
  destruct Hin as [Heq|Hin].
  - inversion Heq; subst. rewrite overlay_fold_untouched by exact Hnot.
    rewrite dict_get2_overlay_step, !String.eqb_refl. reflexivity.
  - exact (IH _ tn p vs c Hnd' Hin).
Qed.

Lemma overlay_as_fold base entries combo :
  overlay base entries combo = fold_left overlay_step (combine entries combo) base.
Proof. reflexivity. Qed.

Lemma map_combo_key_combine (entries : list SweepEntry) (combo : list PyValue) :
  length entries = length combo ->
  map combo_key (combine entries combo) = map entry_key entries.
Proof.
  intros H. unfold combo_key. rewrite <- (map_map fst entry_key), map_fst_combine by exact H.
  reflexivity.
Qed.

Lemma sweep_entry_key_target (ts : Dict TargetMargins) a b :
  In (a, b) (map entry_key (sweep_entries_of ts)) -> In a (map fst ts).
Proof.
  intros H. apply in_map_iff in H. destruct H as [[[a' b'] vs] [Heq Hin]].
  simpl in Heq. inversion Heq; subst a' b'.
  unfold sweep_entries_of in Hin. apply in_flat_map in Hin.
  destruct Hin as [[tn t] [Hin Hin']]. apply in_map_iff in Hin'.
  destruct Hin' as [[p v] [Heq' _]]. simpl in Heq'. inversion Heq'; subst.
  apply (in_map fst) in Hin. exact Hin.
Qed.

Lemma sweep_entries_keys_nodup (ts : Dict TargetMargins) :
  NoDup (map fst ts) ->
  (forall tn t, In (tn, t) ts -> NoDup (map fst (target_sweeps t))) ->
  NoDup (map entry_key (sweep_entries_of ts)).
Proof.
  induction ts as [|[tn t] rest IH]; intros Hnd Hsw; simpl; [constructor|].
  inversion Hnd as [|x l Hnot Hnd' Heq]; subst.
  rewrite map_app. apply NoDup_app.
  - rewrite map_map. simpl.
    assert (Hk : NoDup (map fst (target_sweeps t))) by (apply (Hsw tn t); left; reflexivity).
    revert Hk. generalize (target_sweeps t). intros sw Hk.
    induction sw as [|[p vs] sw' IHs]; simpl; [constructor|].
    inversion Hk as [|y l' Hn' Hk' Heq']; subst. constructor.
    + intro H. apply in_map_iff in H. destruct H as [[p' vs'] [Heq2 Hin2]]. simpl in Heq2.
      inversion Heq2; subst. apply Hn'. apply (in_map fst) in Hin2. exact Hin2.
    + apply IHs. exact Hk'.
  - apply IH; [exact Hnd'|]. intros tn' t' H. apply (Hsw tn' t'). right. exact H.
  - intros [a b] Ha Hb. rewrite map_map in Ha. apply in_map_iff in Ha.
    destruct Ha as [[p vs] [Ha _]]. simpl in Ha. inversion Ha; subst a.
    apply Hnot. exact (sweep_entry_key_target rest _ _ Hb).
Qed.

Lemma expand_points_nonempty_nth (mp : MarginProfile) (i : nat) (combo : list PyValue) :
  NoDup (map fst (targets mp)) ->
  sweep_entries_of (targets mp) <> [] ->
  nth_error (product (map snd (sweep_entries_of (targets mp)))) i = Some combo ->
  nth_error (expand_points mp) i =
  Some {| identifier := "point-" +:+ nat_str i;
          values := overlay (baseline mp) (sweep_entries_of (targets mp)) combo;
          seed := (seed_or_0 (global_seed mp) + Z.of_nat i)%Z |}.
Proof.
  intros Hnd Hne Hc. unfold expand_points.
  rewrite (collect_targets_spec (targets mp) [] [] Hnd). simpl.
  unfold baseline. destruct (sweep_entries_of (targets mp)) as [|e es]; [contradiction|].
  rewrite (enumerate_points_nth _ _ _ 0 _ i combo Hc). reflexivity.
Qed.

(** C3: with no sweep entry, one point "point-0" carrying the baseline (fixed
    values plus a non-empty jitter mapping) and the global seed (0 when absent);
    otherwise one point per combination of the flattened sweep entries, in
    [itertools.product] order, point i named "point-i" with seed global_seed + i,
    whose values are the baseline with that combination overlaid. *)
Theorem expand_points_contract (mp : MarginProfile) :
  NoDup (map fst (targets mp)) ->
  (forall tn t, In (tn, t) (targets mp) -> NoDup (map fst (target_sweeps t))) ->
  (sweep_entries_of (targets mp) = [] ->
   expand_points mp =
   [{| identifier := "point-0"; values := baseline mp; seed := seed_or_0 (global_seed mp) |}]) /\
  (sweep_entries_of (targets mp) <> [] ->
   length (expand_points mp) =
     fold_right Nat.mul 1 (map (fun e : SweepEntry => length (snd e)) (sweep_entries_of (targets mp))) /\
   forall i combo,
     nth_error (product (map snd (sweep_entries_of (targets mp)))) i = Some combo ->
     exists pt, nth_error (expand_points mp) i = Some pt /\
       identifier pt = "point-" +:+ nat_str i /\
       seed pt = (seed_or_0 (global_seed mp) + Z.of_nat i)%Z /\
       (forall j tn p vs v, nth_error (sweep_entries_of (targets mp)) j = Some (tn, p, vs) ->
          nth_error combo j = Some v -> In v vs /\ dict_get2 (values pt) tn p = Some v) /\
       (forall tn p, ~ In (tn, p) (map entry_key (sweep_entries_of (targets mp))) ->
          dict_get2 (values pt) tn p = dict_get2 (baseline mp) tn p)).
Proof.
  intros Hnd Hsw. split.
  - intros Hnil. unfold expand_points.
    rewrite (collect_targets_spec (targets mp) [] [] Hnd). simpl. rewrite Hnil.
    reflexivity.
  - intros Hne. split.
    + unfold expand_points. rewrite (collect_targets_spec (targets mp) [] [] Hnd). simpl.
      destruct (sweep_entries_of (targets mp)) as [|e es] eqn:He; [contradiction|].
      rewrite enumerate_points_length, length_product, map_map. reflexivity.
    + intros i combo Hc. rewrite (expand_points_nonempty_nth mp i combo Hnd Hne Hc).
      eexists. split; [reflexivity|]. cbn [identifier seed values]. split; [reflexivity|]. split; [reflexivity|].
      assert (Hf : Forall2 (@In PyValue) combo (map snd (sweep_entries_of (targets mp))))
        by (apply in_product; eapply nth_error_In; exact Hc).
      assert (Hlen : length (sweep_entries_of (targets mp)) = length combo)
        by (apply Forall2_length' in Hf; rewrite length_map in Hf; symmetry; exact Hf).
      assert (Hk : NoDup (map combo_key (combine (sweep_entries_of (targets mp)) combo)))
        by (rewrite map_combo_key_combine by exact Hlen;
            apply sweep_entries_keys_nodup; assumption).
      split.
      * intros j tn p vs v Hj Hv. split.
        -- assert (Hm : nth_error (map snd (sweep_entries_of (targets mp))) j = Some vs)
             by exact (map_nth_error snd j _ Hj).
           destruct (Forall2_nth_error_r _ _ _ _ _ Hf Hm) as [a [Ha Hin]].
           rewrite Hv in Ha. inversion Ha; subst a. exact Hin.
        -- rewrite overlay_as_fold. apply (overlay_fold_set _ _ tn p vs v Hk).
           apply (nth_error_In _ j). rewrite nth_error_combine.
           unfold SweepEntry in *. rewrite Hj, Hv. reflexivity.
      * intros tn p Hn. rewrite overlay_as_fold. apply overlay_fold_untouched.
        rewrite map_combo_key_combine by exact Hlen. exact Hn.
Qed.

(** ** Capture file names *)

(** C8: the [stress] step of [ex_plan 1] sweeps [threads] over two values, so
    it has two invocations (labelled [stress[0]] and [stress[1]] by
    [step_label]); the capture files of invocation 0 still carry no invocation
    suffix, because [step_stdout] tests [if invocation:] rather than the
    number of invocations. *)
Theorem step_capture_first_invocation_unsuffixed : exists s rest,
  snd (execute ex_py_str (ex_executor (fun _ => 0%Z)) "runs" (ex_plan 1) false ex_world)
    = Ok (s :: rest) /\
  map (fun r => (res_name r, res_stdout r, res_stderr r)) (sub_steps s) =
  [("stress[0]", "subruns/rr-20261015T000000Z-0123456789-s00/stdout/00_stress.log",
                 "subruns/rr-20261015T000000Z-0123456789-s00/stderr/00_stress.log");
   ("stress[1]", "subruns/rr-20261015T000000Z-0123456789-s00/stdout/00_stress_01.log",
                 "subruns/rr-20261015T000000Z-0123456789-s00/stderr/00_stress_01.log")].
Proof. vm_compute. do 2 eexists. split; reflexivity. Qed.

(** ** Short-circuiting within a sub-run *)

Lemma mbind_emit {B} (e : Event) (k : unit -> M B) (w : World) :
  mbind (emit e) k w = k tt {| environ := environ w; events := events w ++ [e] |}.
Proof. reflexivity. Qed.

Lemma mbind_ok {A B} (m : M A) (k : A -> M B) (w w' : World) (a : A) :
  m w = (w', Ok a) -> mbind m k w = k a w'.
Proof. intros H. unfold mbind. rewrite H. reflexivity. Qed.

Lemma resolve_command_err pe which m name command e :
  resolve_command pe which m name command = Err e -> e = AdapterExecutionError name.
Proof.
  unfold resolve_command.
  destruct (is_absolute (am_path m)); simpl;
    [destruct (pe (am_path m)); simpl; intros H; inversion H; reflexivity|].
  destruct (hd "" command) as [|c s]; intros H; inversion H; reflexivity.
Qed.

(** The runner's executor, on an invocation it can reach the spawn with and
    a child that starts, fails with nothing but [AdapterExecutionError]. *)
Lemma adapter_run_caught fos py_str pe which sx registry a p o e env w :
  (forall evs argv cenv, sx evs argv cenv <> None) ->
  invocation_ok fos py_str registry a p ->
  match snd (adapter_run fos py_str pe which sx registry a p o e env w) with
  | Ok _ | Err (AdapterExecutionError _) => True
  | Err _ => False
  end.
Proof.
  intros Hs Hok. unfold invocation_ok in Hok.
  destruct (registry_get registry a) as [m|err] eqn:Hr; [|contradiction].
  destruct (build_command fos py_str m p) as [cmd|err] eqn:Hb; [|contradiction].
  unfold adapter_run, mbind, lift. rewrite Hr, Hb.
  destruct (resolve_command pe which m a cmd) as [cmd'|err] eqn:Hc.
  - cbn -[emit]. unfold emit, get_world. cbn.
    destruct (sx _ cmd' _) as [code|] eqn:Hx.
    + destruct (code =? 0)%Z; exact I.
    + exfalso. exact (Hs _ _ _ Hx).
  - apply resolve_command_err in Hc. subst err. exact I.
Qed.

Section ExecuteContract.
Variable py_str : PyValue -> string.
(** The runner's [AdapterExecutor] over a registry of manifests. *)
Variable float_of_str : string -> option Q.
Variable path_exists : string -> bool.
Variable which : string -> option string.
Variable spawn_exit : list Event -> list string -> Dict string -> option Z.
Variable registry : Dict AdapterManifest.
Variable runs_path : string.
(** Every child the executor asks for starts: [subprocess.run] raises no
    [OSError]. *)
Hypothesis spawn_starts : forall evs argv env, spawn_exit evs argv env <> None.

Local Abbreviation executor := (adapter_run float_of_str py_str path_exists which spawn_exit registry).
Local Abbreviation ok_inv := (invocation_ok float_of_str py_str registry).

Lemma catch_exec_invocation subplan rp step_plan parameters a o e w :
  ok_inv a parameters ->
  exists w' eo,
    catch_exec (env <- build_step_environment py_str subplan rp step_plan parameters ;;
                executor a parameters o e (Some env)) w = (w', Ok eo).
Proof.
  intros Hok. unfold catch_exec, mbind. rewrite build_step_environment_update.
  pose proof (adapter_run_caught float_of_str py_str path_exists which spawn_exit registry
    a parameters o e
    (Some (dict_update (environ w) (rr_variables py_str subplan rp step_plan parameters))) w
    spawn_starts Hok) as H.
  destruct (executor _ _ _ _ _ w) as [w1 [u|[m|m|m|m|m|m]]]; simpl in H;
    try contradiction; eauto.
Qed.

Lemma run_invocations_spec rp subplan si sp : forall invs idx acc w,
  Forall (ok_inv (step_adapter (sp_step sp))) invs ->
  exists w' res passed,
    run_invocations py_str executor runs_path rp subplan si sp idx invs acc w
      = (w', Ok (acc ++ res, passed)) /\
    (exists rest, map result_key res ++ rest = map (fun p => (step_adapter (sp_step sp), p)) invs) /\
    (passed = true ->
       map result_key res = map (fun p => (step_adapter (sp_step sp), p)) invs /\
       Forall result_passed res) /\
    (passed = false -> exists ok last,
       res = ok ++ [last] /\ Forall result_passed ok /\ res_status last = "FAIL").
Proof.
  induction invs as [|params rest IH]; intros idx acc w Hall.
  - exists w, [], true. rewrite app_nil_r. split; [reflexivity|]. split; [|split].
    + exists []. reflexivity.
    + intros _. split; [reflexivity|constructor].
    + discriminate.
  - apply Forall_cons_iff in Hall. destruct Hall as [Hp Hrest].
    cbn [run_invocations]. rewrite mbind_emit.
    match goal with
    | |- context [mbind (catch_exec (mbind (build_step_environment ?ps ?sub ?r ?st ?pa)
                               (fun env => adapter_run _ _ _ _ _ _ ?a ?pa' ?o ?e (Some env)))) _ ?w0] =>
        destruct (catch_exec_invocation sub r st pa a o e w0 Hp) as [w1 [eo Heo]]
    end.
    rewrite (mbind_ok _ _ _ _ _ Heo), mbind_emit.
    destruct eo as [msg|].
    + eexists _, [_], false. split; [reflexivity|]. split; [|split].
      * exists (map (fun p => (step_adapter (sp_step sp), p)) rest). reflexivity.
      * discriminate.
      * intros _. eexists [], _. split; [reflexivity|]. split; [constructor|reflexivity].
    + match goal with
      | |- context [run_invocations _ _ _ _ _ _ _ _ _ (acc ++ [?r]) ?w0] =>
          destruct (IH (S idx) (acc ++ [r]) w0 Hrest)
            as [w2 [res [passed [Hrun [Hpre [Ht Hf]]]]]];
          exists w2, (r :: res), passed
      end.
      rewrite Hrun, <- app_assoc. split; [reflexivity|]. split; [|split].
      * destruct Hpre as [rest' Hpre]. exists rest'. simpl. rewrite Hpre. reflexivity.
      * intros Hq. destruct (Ht Hq) as [Hk Hall]. split.
        -- simpl. rewrite Hk. reflexivity.
        -- constructor; [reflexivity|exact Hall].
      * intros Hq. destruct (Hf Hq) as [ok [last [Heq [Hok Hl]]]].
        eexists (_ :: ok), last. rewrite Heq. split; [reflexivity|].
        split; [constructor; [reflexivity|exact Hok]|exact Hl].
Qed.

Lemma run_steps_spec rp subplan : forall steps si acc w,
  Forall (fun sp => Forall (ok_inv (step_adapter (sp_step sp))) (invocations sp)) steps ->
  exists w' res status,
    run_steps py_str executor runs_path rp subplan si steps acc w
      = (w', Ok (acc ++ res, status)) /\
    (exists rest, map result_key res ++ rest = step_invocations steps) /\
    ((status = "PASS" /\ map result_key res = step_invocations steps /\
      Forall result_passed res) \/
     (status = "FAIL" /\ exists ok last, res = ok ++ [last] /\
      Forall result_passed ok /\ res_status last = "FAIL")).
Proof.
  induction steps as [|sp rest IH]; intros si acc w Hall.
  - exists w, [], "PASS". rewrite app_nil_r. split; [reflexivity|]. split.
    + exists []. reflexivity.
    + left. split; [reflexivity|]. split; [reflexivity|constructor].
  - apply Forall_cons_iff in Hall. destruct Hall as [Hsp Hrest].
    cbn [run_steps].
    destruct (run_invocations_spec rp subplan si sp (invocations sp) 0 acc w Hsp)
      as [w1 [res1 [passed [Hrun [[rest1 Hpre] [Ht Hf]]]]]].
    rewrite (mbind_ok _ _ _ _ _ Hrun). destruct passed.
    + destruct (Ht eq_refl) as [Hk Hall].
      destruct (IH (S si) (acc ++ res1) w1 Hrest)
        as [w2 [res2 [status [Hrun2 [[rest2 Hpre2] Hst]]]]].
      exists w2, (res1 ++ res2), status. rewrite Hrun2, app_assoc.
      split; [reflexivity|]. split.
      * exists rest2. unfold step_invocations in *. simpl.
        rewrite map_app, <- app_assoc, Hpre2, Hk. reflexivity.
      * destruct Hst as [[Hs [Hk2 Hall2]]|[Hs [ok [last [Heq [Hok Hl]]]]]].
        -- left. split; [exact Hs|]. split.
           ++ unfold step_invocations in *. simpl. rewrite map_app, Hk, Hk2. reflexivity.
           ++ apply Forall_app. split; assumption.
        -- right. split; [exact Hs|]. exists (res1 ++ ok), last.
           rewrite Heq, app_assoc. split; [reflexivity|].
           split; [apply Forall_app; split; assumption|exact Hl].
    + exists w1, res1, "FAIL". split; [reflexivity|]. split.
      * exists (rest1 ++ step_invocations rest). unfold step_invocations. simpl.
        rewrite app_assoc, Hpre. reflexivity.
      * right. split; [reflexivity|]. exact (Hf eq_refl).
Qed.

Lemma execute_subrun_spec rp subplan w :
  Forall (fun sp => Forall (ok_inv (step_adapter (sp_step sp))) (invocations sp))
         (sr_steps subplan) ->
  exists w' s,
    execute_subrun py_str executor runs_path rp subplan w = (w', Ok s) /\
    short_circuit_summary subplan s.
Proof.
  intros Hall. unfold execute_subrun. rewrite !mbind_emit.
  edestruct (run_steps_spec rp subplan (sr_steps subplan) 0 [])
    as [w1 [res [status [Hrun [Hpre Hst]]]]]; [exact Hall|].
  rewrite (mbind_ok _ _ _ _ _ Hrun), mbind_emit. eexists _, _. split; [reflexivity|].
  unfold short_circuit_summary, planned_invocations. cbn [sub_run_id sub_point_id sub_status sub_steps].
  split; [reflexivity|]. split; [reflexivity|]. split; [exact Hpre|exact Hst].
Qed.

Lemma execute_subruns_spec rp : forall subs w,
  Forall (fun sub => Forall (fun sp => Forall (ok_inv (step_adapter (sp_step sp)))
                                              (invocations sp)) (sr_steps sub)) subs ->
  exists w' sums,
    execute_subruns py_str executor runs_path rp subs w = (w', Ok sums) /\
    Forall2 short_circuit_summary subs sums.
Proof.
  induction subs as [|sub rest IH]; intros w Hall; cbn [execute_subruns].
  - exists w, []. split; [reflexivity|constructor].
  - apply Forall_cons_iff in Hall. destruct Hall as [Hsub Hrest].
    destruct (execute_subrun_spec rp sub w Hsub) as [w1 [s [Hs Hsum]]].
    rewrite (mbind_ok _ _ _ _ _ Hs), mbind_emit.
    edestruct IH as [w2 [sums [Hr Hall]]]; [exact Hrest|].
    rewrite (mbind_ok _ _ _ _ _ Hr). exists w2, (s :: sums).
    split; [reflexivity|constructor; assumption].
Qed.

(** X19 (short-circuit per sub-run): with the runner's [AdapterExecutor],
    when every planned invocation names a registered adapter and satisfies its
    parameter schema, and every child starts, a non-dry-run [execute] returns
    one summary per planned sub-run, in plan order, each recording the
    invocations it attempted in order up to and including the first failing
    one, with status PASS exactly when every planned invocation was attempted
    and passed, and FAIL, with the failing invocation recorded last,
    otherwise. *)
Theorem execute_short_circuit_per_subrun (rp : RunPlan) (w : World) :
  plan_invocations_ok float_of_str py_str registry rp ->
  exists w' sums,
    execute py_str executor runs_path rp false w = (w', Ok sums) /\
    Forall2 short_circuit_summary (subruns rp) sums.
Proof.
  intros Hok. unfold execute. rewrite !mbind_emit. cbn iota.
  edestruct (execute_subruns_spec rp (subruns rp)) as [w1 [sums [Hr Hall]]]; [exact Hok|].
  rewrite (mbind_ok _ _ _ _ _ Hr), !mbind_emit. eexists _, sums. split; [reflexivity|exact Hall].
Qed.

End ExecuteContract.

(** ** Planning *)

Lemma validate_value_rejects fos policy name v :
  bound_rejects fos policy name v -> validate_value fos policy name v <> Ok tt.
Proof.
  intros [_ [b [Hb Hv]]] Hok. unfold validate_value in Hok. rewrite Hb in Hok.
  destruct v; try (destruct Hv as [e He]; congruence).
  destruct Hv as [x [e [Hin He]]].
  rewrite for_each_ok in Hok. rewrite (Hok x Hin) in He. discriminate.
Qed.

Lemma validate_safety_rejects fos policy vals name v :
  In (name, v) vals -> bound_rejects fos policy name v ->
  validate_safety fos policy vals <> Ok tt.
Proof.
  intros Hin Hr Hok. unfold validate_safety in Hok. rewrite for_each_ok in Hok.
  specialize (Hok _ Hin). simpl in Hok.
  destruct Hr as [Hj Hrest].
  destruct (String.eqb name "jitter") eqn:E; [apply String.eqb_eq in E; contradiction|].
  exact (validate_value_rejects fos policy name v (conj Hj Hrest) Hok).
Qed.

Lemma result_unit_cases (r : Result unit) : r = Ok tt \/ exists e, r = Err e.
Proof. destruct r as [[]|e]; eauto. Qed.

Lemma plan_step_ok fos policy point step r :
  plan_step fos policy point step = Ok r ->
  for_each (fun kv => validate_safety fos policy [kv]) (step_parameters step) = Ok tt /\
  for_each (fun kv => validate_safety fos policy [(fst kv, VList (snd kv))])
    (step_sweeps step) = Ok tt.
Proof.
  unfold plan_step, rbind.
  destruct (result_unit_cases (validate_safety fos policy (apply_margin_for_step point (step_adapter step))))
    as [H1|[e1 H1]]; rewrite H1; [|discriminate].
  destruct (result_unit_cases (for_each (fun kv => validate_safety fos policy [kv]) (step_parameters step)))
    as [H2|[e2 H2]]; rewrite H2; [|discriminate].
  destruct (result_unit_cases (for_each (fun kv => validate_safety fos policy [(fst kv, VList (snd kv))])
    (step_sweeps step))) as [H3|[e3 H3]]; rewrite H3; [|discriminate].
  intros _. split; reflexivity.
Qed.

Lemma plan_subrun_ok fos policy flow pid i pt r :
  plan_subrun fos policy flow pid (i, pt) = Ok r ->
  for_each (fun tv => validate_safety fos policy (snd tv)) (values pt) = Ok tt /\
  exists steps, map_r (plan_step fos policy pt) (flow_steps flow) = Ok steps.
Proof.
  unfold plan_subrun, rbind.
  destruct (result_unit_cases (for_each (fun tv => validate_safety fos policy (snd tv)) (values pt)))
    as [H1|[e1 H1]]; rewrite H1; [|discriminate].
  destruct (map_r (plan_step fos policy pt) (flow_steps flow)) as [steps|e]; [|discriminate].
  intros _. split; [reflexivity|eauto].
Qed.

Lemma in_enumerate {A} (xs : list A) (x : A) :
  In x xs -> exists i, In (i, x) (enumerate xs).
Proof.
  unfold enumerate. generalize 0. induction xs as [|y ys IH]; intros start Hin; [contradiction|].
  destruct Hin as [<-|Hin].
  - exists start. left. reflexivity.
  - destruct (IH (S start) Hin) as [i Hi]. exists i. right. exact Hi.
Qed.

Lemma plan_world_result fos now utc sha fpath flow mpath loaded safety sid w :
  exists evs pid,
    Forall planning_event evs /\
    plan fos now utc sha fpath flow mpath loaded safety sid w =
    ({| environ := environ w; events := events w ++ evs |},
     match map_r (plan_subrun fos safety flow pid)
             (enumerate (expand_points (margin_profile_of mpath loaded))) with
     | Ok subs => Ok {| parent_id := pid; flow_path := fpath; margin_path := mpath;
                        safety_source := sid; rp_flow := flow;
                        rp_margin_profile := margin_profile_of mpath loaded;
                        rp_safety_policy := safety;
                        rp_seed := match global_seed (margin_profile_of mpath loaded) with
                                   | Some z => z | None => now end;
                        subruns := subs |}
     | Err e => Err e
     end).
Proof.
  unfold plan, ensure_seed, generate_parent_run_id, lift, ret.
  destruct (global_seed (margin_profile_of mpath loaded)) as [z|].
  - exists [SeedRandom z; ClockRead],
      ("rr-" +:+ utc +:+ "-" +:+ sha (fpath +:+ ":" +:+ z_str z +:+ ":" +:+ utc)). split.
    + unfold planning_event. repeat (constructor; [solve [left; reflexivity | right; eauto]|]); constructor.
    + unfold mbind, emit. simpl. rewrite <- !app_assoc. simpl.
      destruct (map_r _ _); reflexivity.
  - exists [ClockRead; SeedRandom now; ClockRead],
      ("rr-" +:+ utc +:+ "-" +:+ sha (fpath +:+ ":" +:+ z_str now +:+ ":" +:+ utc)). split.
    + unfold planning_event. repeat (constructor; [solve [left; reflexivity | right; eauto]|]); constructor.
    + unfold mbind, emit. simpl. rewrite <- !app_assoc. simpl.
      destruct (map_r _ _); reflexivity.
Qed.

Lemma plan_ok_subruns fos safety flow pid mp :
  forall subs, map_r (plan_subrun fos safety flow pid) (enumerate (expand_points mp)) = Ok subs ->
  expand_points mp <> [] -> planning_violation fos safety flow mp -> False.
Proof.
  intros subs Hmap Hne Hviol.
  assert (Hall : forall pt, In pt (expand_points mp) ->
            for_each (fun tv => validate_safety fos safety (snd tv)) (values pt) = Ok tt /\
            exists steps, map_r (plan_step fos safety pt) (flow_steps flow) = Ok steps).
  { intros pt Hpt. destruct (in_enumerate _ _ Hpt) as [i Hi].
    destruct (map_r_ok _ _ _ Hmap _ Hi) as [r Hr]. exact (plan_subrun_ok _ _ _ _ _ _ _ Hr). }
  destruct (expand_points mp) as [|pt0 pts] eqn:Hpts; [contradiction|].
  destruct (Hall pt0 (or_introl eq_refl)) as [_ [steps Hsteps]].
  destruct Hviol as [[pt [tn [tv [name [v [Hpt [Htv [Hin Hr]]]]]]]]|
                     [[step [name [v [Hs [Hin Hr]]]]]|[step [name [vs [Hs [Hin Hr]]]]]]].
  - rewrite Hpts in Hpt. destruct (Hall pt Hpt) as [Hv _]. rewrite for_each_ok in Hv.
    exact (validate_safety_rejects _ _ _ _ _ Hin Hr (Hv _ Htv)).
  - destruct (map_r_ok _ _ _ Hsteps _ Hs) as [sp Hsp].
    destruct (plan_step_ok _ _ _ _ _ Hsp) as [Hp _]. rewrite for_each_ok in Hp.
    exact (validate_safety_rejects _ _ [(name, v)] _ _ (or_introl eq_refl) Hr (Hp _ Hin)).
  - destruct (map_r_ok _ _ _ Hsteps _ Hs) as [sp Hsp].
    destruct (plan_step_ok _ _ _ _ _ Hsp) as [_ Hp]. rewrite for_each_ok in Hp.
    exact (validate_safety_rejects _ _ [(name, VList vs)] _ _ (or_introl eq_refl) Hr (Hp _ Hin)).
Qed.

(** C1 (amended): planning only reads the clock and seeds the RNG (the
    environment is untouched, no process is spawned and no file is written);
    when the margin profile expands to at least one point, a margin value,
    fixed step parameter or sweep value list (under a name other than
    [jitter]) failing its registered bound makes [plan] raise, with no
    [RunPlan] returned; and when the profile expands to no point, [plan]
    returns a [RunPlan] with no sub-run whatever the flow and the policy. *)
Theorem plan_all_or_nothing fos now utc sha fpath flow mpath loaded safety sid w :
  (exists evs, fst (plan fos now utc sha fpath flow mpath loaded safety sid w) =
                 {| environ := environ w; events := events w ++ evs |} /\
               Forall planning_event evs) /\
  (expand_points (margin_profile_of mpath loaded) <> [] ->
   planning_violation fos safety flow (margin_profile_of mpath loaded) ->
   exists e, snd (plan fos now utc sha fpath flow mpath loaded safety sid w) = Err e) /\
  (expand_points (margin_profile_of mpath loaded) = [] ->
   exists rp, snd (plan fos now utc sha fpath flow mpath loaded safety sid w) = Ok rp /\
              subruns rp = []).
Proof.
  destruct (plan_world_result fos now utc sha fpath flow mpath loaded safety sid w)
    as [evs [pid [Hev Hplan]]].
  rewrite Hplan. split; [|split].
  - exists evs. split; [reflexivity|exact Hev].
  - intros Hne Hviol. simpl.
    destruct (map_r _ _) as [subs|e] eqn:Hmap; [|eauto].
    exfalso. exact (plan_ok_subruns _ _ _ _ _ subs Hmap Hne Hviol).
  - intros Hnil. rewrite Hnil. simpl. eexists. split; reflexivity.
Qed.

(** * Witnesses *)

(** C1: the theorem applies to a plan whose margin fixes [vcore_mv] = 5000
    against the bound [900, 1000]. *)
Lemma plan_all_or_nothing_witness :
  expand_points ex_margin_high <> [] /\
  exists e, snd (ex_plan_run (ex_flow 1) (Some "margins/high.yaml") (Some ex_margin_high)) = Err e.
Proof.
  split; [vm_compute; discriminate|].
  apply (plan_all_or_nothing (fun _ => None) 1760486400%Z "20261015T000000Z" (fun _ => "0123456789")
           "flows/stress.yaml" (ex_flow 1) (Some "margins/high.yaml") (Some ex_margin_high)
           ex_policy "policy/safety.yaml" ex_world).
  - vm_compute. discriminate.
  - left. exists {| identifier := "point-0"; values := [("default", [("vcore_mv", VInt 5000)])];
                    seed := 0%Z |}, "default", [("vcore_mv", VInt 5000)], "vcore_mv", (VInt 5000).
    split; [vm_compute; left; reflexivity|].
    split; [left; reflexivity|]. split; [left; reflexivity|].
    split; [discriminate|].
    eexists. split; [reflexivity|]. eexists. vm_compute. reflexivity.
Defined.

(** X19: the real executor on [ex_plan 1], where the child started with
    [--threads 2] exits with 1: the theorem's hypotheses hold, and both
    sub-runs are summarised. *)
Lemma execute_short_circuit_per_subrun_witness :
  plan_invocations_ok (fun _ => None) ex_py_str ex_registry (ex_plan 1) /\
  exists w' sums,
    execute ex_py_str (ex_executor ex_exit_threads2) "runs" (ex_plan 1) false ex_world
      = (w', Ok sums) /\
    Forall2 short_circuit_summary (subruns (ex_plan 1)) sums.
Proof.
  assert (Hok : plan_invocations_ok (fun _ => None) ex_py_str ex_registry (ex_plan 1)).
  { unfold plan_invocations_ok.
    apply Forall_forall. intros sub Hsub. vm_compute in Hsub.
    repeat destruct Hsub as [<-|Hsub]; try contradiction;
      apply Forall_forall; intros sp Hsp; vm_compute in Hsp;
      repeat destruct Hsp as [<-|Hsp]; try contradiction;
      apply Forall_forall; intros p Hp; vm_compute in Hp;
      repeat destruct Hp as [<-|Hp]; try contradiction; vm_compute; exact I. }
  split; [exact Hok|].
  apply (execute_short_circuit_per_subrun ex_py_str (fun _ => None)
           (fun p => String.eqb p "/opt/diags/stress") (fun _ => None)
           (fun _ argv _ => Some (ex_exit_threads2 argv)) ex_registry "runs");
    [intros evs argv env; discriminate | exact Hok].
Defined.

(** C3: the theorem applies to [ex_margin], which has two points. *)
Lemma expand_points_contract_witness :
  NoDup (map fst (targets ex_margin)) /\ length (expand_points ex_margin) = 2.
Proof.
  assert (H1 : NoDup (map fst (targets ex_margin))) by (repeat constructor; simpl; tauto).
  split; [exact H1|].
  destruct (expand_points_contract ex_margin H1) as [_ H].
  - intros tn t [Ht|[]]. inversion Ht; subst. repeat constructor; simpl; tauto.
  - destruct H as [Hl _]; [vm_compute; discriminate|]. rewrite Hl. reflexivity.
Defined.

(** C7: a manifest naming [memtest] relatively runs the bare name although
    [shutil.which] would resolve it to /usr/bin/memtest. *)
Lemma resolve_command_relative_unresolved_witness :
  is_absolute (am_path ex_relative_manifest) = false /\
  ex_which "memtest" = Some "/usr/bin/memtest" /\
  resolve_command (fun _ => false) ex_which ex_relative_manifest "memtest" ["memtest"; "--quick"]
    = Ok ["memtest"; "--quick"].
Proof.
  split; [reflexivity|]. split; [reflexivity|].
  apply (resolve_command_relative_unresolved (fun _ => false) ex_which ex_relative_manifest
           "memtest" ["--quick"]); [reflexivity|discriminate].
Defined.

(** C9: the fixed [threads] = 4 of [ex_collide_step] is overridden by the
    sweep in its first invocation. *)
Lemma expanded_parameters_sweep_wins_witness :
  In [("threads", VInt 1); ("duration", VInt 1)] (expanded_parameters ex_collide_step) /\
  exists combo, In combo (product (map snd (step_sweeps ex_collide_step))) /\
    forall j k vs, nth_error (step_sweeps ex_collide_step) j = Some (k, vs) ->
      exists v, nth_error combo j = Some v /\ In v vs /\
        dict_get [("threads", VInt 1); ("duration", VInt 1)] k = Some v.
Proof.
  assert (Hin : In [("threads", VInt 1); ("duration", VInt 1)] (expanded_parameters ex_collide_step))
    by (vm_compute; left; reflexivity).
  split; [exact Hin|].
  apply (expanded_parameters_sweep_wins ex_collide_step _); [|exact Hin].
  repeat constructor; simpl; tauto.
Defined.

(** * Counterexamples *)

(** C1: a sweep with no value makes the profile expand to no point, so the
    out-of-bounds step parameter [vcore_mv] = 5000 is never checked and
    [plan] returns a plan with no sub-run. *)
Lemma plan_empty_sweep_skips_validation :
  validate_value (fun _ => None) ex_policy "vcore_mv" (VInt 5000)
    = Err (SafetyViolationError "vcore_mv") /\
  exists rp, snd (ex_plan_run ex_flow_high (Some "margins/empty.yaml") (Some ex_margin_empty_sweep))
               = Ok rp /\ subruns rp = [].
Proof. split; [reflexivity|]. vm_compute. eexists. split; reflexivity. Qed.

(** C2 (code bug): an invocation that fails otherwise than with an
    [AdapterExecutionError] is not caught by [_execute_subrun], so it aborts
    [execute] instead of failing only its sub-run. On [ex_plan 1] (two
    sub-runs) with a [stress] binary that cannot be started, [subprocess.run]
    raises an [OSError] (an execution error by the spec's taxonomy): [execute]
    raises it, and the second sub-run is never started (its directory is never
    created). On [ex_plan 20] the adapter schema rejects [duration] = 20 at
    execution time: [execute] raises a [ValidationError] after the first
    sub-run has started, and the second sub-run is never started either. *)
Theorem execute_uncaught_errors_abort :
  map sr_identifier (subruns (ex_plan 1)) =
    ["rr-20261015T000000Z-0123456789-s00"; "rr-20261015T000000Z-0123456789-s01"] /\
  snd (execute ex_py_str ex_unspawnable_executor "runs" (ex_plan 1) false ex_world)
    = Err (OSError "/opt/diags/stress") /\
  existsb (makes_dir (subrun_dir "runs" "rr-20261015T000000Z-0123456789"
                                 "rr-20261015T000000Z-0123456789-s00"))
    (events (fst (execute ex_py_str ex_unspawnable_executor "runs" (ex_plan 1) false ex_world)))
    = true /\
  existsb (makes_dir (subrun_dir "runs" "rr-20261015T000000Z-0123456789"
                                 "rr-20261015T000000Z-0123456789-s01"))
    (events (fst (execute ex_py_str ex_unspawnable_executor "runs" (ex_plan 1) false ex_world)))
    = false /\
  map sr_identifier (subruns (ex_plan 20)) =
    ["rr-20261015T000000Z-0123456789-s00"; "rr-20261015T000000Z-0123456789-s01"] /\
  snd (execute ex_py_str (ex_executor (fun _ => 0%Z)) "runs" (ex_plan 20) false ex_world)
    = Err (ValidationError "duration") /\
  existsb (makes_dir (subrun_dir "runs" "rr-20261015T000000Z-0123456789"
                                 "rr-20261015T000000Z-0123456789-s00"))
    (events (fst (execute ex_py_str (ex_executor (fun _ => 0%Z)) "runs" (ex_plan 20) false ex_world)))
    = true /\
  existsb (makes_dir (subrun_dir "runs" "rr-20261015T000000Z-0123456789"
                                 "rr-20261015T000000Z-0123456789-s01"))
    (events (fst (execute ex_py_str (ex_executor (fun _ => 0%Z)) "runs" (ex_plan 20) false ex_world)))
    = false.
Proof. repeat split; vm_compute; reflexivity. Qed.

(** C3: an empty jitter mapping is present but falsy, so the point carries no
    [jitter] entry. *)
Lemma expand_points_empty_jitter_dropped :
  (exists t, In ("default", t) (targets ex_margin_empty_jitter) /\ jitter t = Some []) /\
  expand_points ex_margin_empty_jitter =
    [{| identifier := "point-0"; values := [("default", [("vcore_mv", VInt 900)])];
        seed := 0%Z |}] /\
  dict_get2 (values {| identifier := "point-0"; values := [("default", [("vcore_mv", VInt 900)])];
                       seed := 0%Z |}) "default" "jitter" = None.
Proof.
  split; [eexists; split; [left; reflexivity|reflexivity]|]. split; reflexivity.
Qed.

(** C4: [None] passes a bound instead of failing. *)
Lemma bound_validate_none_passes :
  bound_validate (fun _ => None) {| minimum := Some (900 # 1); maximum := Some (1000 # 1) |}
    "vcore_mv" VNone = Ok tt.
Proof. reflexivity. Qed.


(** * Further properties of the code *)

(** ** Sanitized names *)

Lemma lstrip_list (p : ascii -> bool) (s : string) :
  list_ascii_of_string (lstrip p s) = drop_while p (list_ascii_of_string s).
Proof.
  induction s as [|c rest IH]; simpl; [reflexivity|].
  destruct (p c); [exact IH|reflexivity].
Qed.

Lemma str_rev_list (s : string) :
  list_ascii_of_string (str_rev s) = rev (list_ascii_of_string s).
Proof. unfold str_rev. apply list_ascii_of_string_of_list_ascii. Qed.

Lemma str_map_list (f : ascii -> ascii) (s : string) :
  list_ascii_of_string (str_map f s) = map f (list_ascii_of_string s).
Proof. induction s as [|c rest IH]; simpl; [reflexivity|]. rewrite IH. reflexivity. Qed.

Lemma drop_while_in p l c : In c (drop_while p l) -> In c l.
Proof.
  induction l as [|x rest IH]; simpl; [tauto|].
  destruct (p x); [intros H; right; exact (IH H)|tauto].
Qed.

Lemma drop_while_hd p l c : hd_error (drop_while p l) = Some c -> p c = false.
Proof.
  induction l as [|x rest IH]; simpl; [discriminate|].
  destruct (p x) eqn:E; [exact IH|]. simpl. intros H. inversion H; subst. exact E.
Qed.

Lemma drop_while_suffix p l : exists pre, l = pre ++ drop_while p l.
Proof.
  induction l as [|x rest IH]; simpl; [exists []; reflexivity|].
  destruct (p x).
  - destruct IH as [pre Hpre]. exists (x :: pre). simpl. rewrite <- Hpre. reflexivity.
  - exists []. reflexivity.
Qed.

Lemma strip_list (p : ascii -> bool) (s : string) :
  list_ascii_of_string (strip p s) =
  rev (drop_while p (rev (drop_while p (list_ascii_of_string s)))).
Proof. unfold strip. rewrite str_rev_list, lstrip_list, str_rev_list, lstrip_list. reflexivity. Qed.

(** The characters of a stripped string come from the string, and its first
    and last characters are not stripped ones. *)
Lemma strip_list_props (p : ascii -> bool) (l : list ascii) :
  let r := rev (drop_while p (rev (drop_while p l))) in
  (forall c, In c r -> In c l) /\
  (forall c, hd_error r = Some c -> p c = false) /\
  (forall c, hd_error (rev r) = Some c -> p c = false).
Proof.
  intros r. split; [|split].
  - intros c Hc. unfold r in Hc. apply in_rev in Hc. apply drop_while_in in Hc.
    apply in_rev in Hc. exact (drop_while_in _ _ _ Hc).
  - intros c Hc. unfold r in Hc.
    destruct (drop_while_suffix p (rev (drop_while p l))) as [pre Hpre].
    set (a := drop_while p l) in *. set (b := drop_while p (rev a)) in *.
    assert (Ha : a = rev b ++ rev pre)
      by (rewrite <- rev_app_distr, <- Hpre, rev_involutive; reflexivity).
    apply (drop_while_hd p l). fold a. rewrite Ha.
    destruct (rev b); [discriminate|exact Hc].
  - intros c Hc. unfold r in Hc. rewrite rev_involutive in Hc. exact (drop_while_hd _ _ _ Hc).
Qed.

Lemma replace_runs_name_chars (s : string) :
  forall in_run c, In c (list_ascii_of_string (replace_runs in_run s)) -> name_char c = true.
Proof.
  induction s as [|x rest IH]; intros in_run c; simpl; [tauto|].
  destruct (name_char x) eqn:E; [|destruct in_run]; simpl.
  - intros [<-|H]; [exact E|exact (IH _ _ H)].
  - exact (IH _ _).
  - intros [<-|H]; [reflexivity|exact (IH _ _ H)].
Qed.

Lemma ascii_lower_props (c : ascii) :
  name_char c = true ->
  name_char (ascii_lower c) = true /\
  (nat_of_ascii (ascii_lower c) < 65 \/ 90 < nat_of_ascii (ascii_lower c)) /\
  (ascii_lower c = "-"%char -> c = "-"%char).
Proof.
  unfold ascii_lower. intros Hn.
  destruct ((65 <=? nat_of_ascii c) && (nat_of_ascii c <=? 90)) eqn:E.
  - apply andb_true_iff in E. destruct E as [E1 E2].
    apply Nat.leb_le in E1. apply Nat.leb_le in E2.
    rewrite nat_ascii_embedding by lia.
    split; [|split].
    + unfold name_char. rewrite nat_ascii_embedding by lia.
      apply orb_true_iff. left. apply orb_true_iff. left. apply orb_true_iff. left.
      apply orb_true_iff. right. apply andb_true_iff. split; apply Nat.leb_le; lia.
    + right. lia.
    + intros H. apply (f_equal nat_of_ascii) in H. rewrite nat_ascii_embedding in H by lia.
      change (nat_of_ascii "-"%char) with 45 in H. lia.
  - split; [exact Hn|]. split; [|tauto].
    apply andb_false_iff in E. destruct E as [E|E]; apply Nat.leb_gt in E; lia.
Qed.

(** [artifacts.sanitize]: a sanitized name is made of lower-case letters,
    digits, [_], [.] and [-] only (so it never holds a path separator), and
    neither starts nor ends with [-]. *)
Theorem sanitize_charset (name : string) :
  let cs := list_ascii_of_string (sanitize name) in
  (forall c, In c cs -> name_char c = true /\ (nat_of_ascii c < 65 \/ 90 < nat_of_ascii c)) /\
  (forall c, hd_error cs = Some c -> c <> "-"%char) /\
  (forall c, hd_error (rev cs) = Some c -> c <> "-"%char).
Proof.
  intros cs. unfold cs, sanitize, lower. rewrite str_map_list, strip_list.
  set (l := list_ascii_of_string (replace_runs false (strip py_isspace name))).
  destruct (strip_list_props (fun c => Ascii.eqb c "-") l) as [Hin [Hhd Hlast]].
  set (r := rev (drop_while _ (rev (drop_while _ l)))) in *.
  assert (Hr : forall c, In c r -> name_char c = true)
    by (intros c Hc; exact (replace_runs_name_chars _ false c (Hin c Hc))).
  split; [|split].
  - intros c Hc. apply in_map_iff in Hc. destruct Hc as [x [<- Hx]].
    destruct (ascii_lower_props x (Hr x Hx)) as [H1 [H2 _]]. split; assumption.
  - intros c Hc. destruct r as [|x rest] eqn:Er; [discriminate|]. simpl in Hc.
    inversion Hc; subst c. intros Heq.
    destruct (ascii_lower_props x (Hr x (or_introl eq_refl))) as [_ [_ H3]].
    specialize (Hhd x eq_refl). rewrite (H3 Heq) in Hhd. discriminate.
  - intros c Hc. rewrite <- map_rev in Hc.
    destruct (rev r) as [|x rest] eqn:Er; [discriminate|]. simpl in Hc.
    inversion Hc; subst c. intros Heq.
    assert (Hx : In x r) by (apply in_rev; rewrite Er; left; reflexivity).
    destruct (ascii_lower_props x (Hr x Hx)) as [_ [_ H3]].
    specialize (Hlast x eq_refl). rewrite (H3 Heq) in Hlast. discriminate.
Qed.

(** ** Step invocations *)

(** [FlowStep.expanded_parameters]: a step has as many invocations as the
    product of its sweep value counts (one when it has no sweep, none when a
    sweep has no value), and a parameter that is not swept keeps its fixed
    value in every invocation. *)
Theorem expanded_parameters_count_and_fixed (s : FlowStep) :
  length (expanded_parameters s) =
    fold_right Nat.mul 1 (map (fun kv => length (snd kv)) (step_sweeps s)) /\
  (forall inv k, In inv (expanded_parameters s) -> ~ In k (map fst (step_sweeps s)) ->
     dict_get inv k = dict_get (step_parameters s) k).
Proof.
  unfold expanded_parameters. destruct (step_sweeps s) as [|sw sws] eqn:E.
  - split; [reflexivity|]. intros inv k [<-|[]] _. reflexivity.
  - split.
    + rewrite length_map, length_product, map_map. reflexivity.
    + intros inv k Hin Hk. apply in_map_iff in Hin. destruct Hin as [combo [<- Hc]].
      rewrite dict_get_update, dict_get_notin; [reflexivity|].
      intros H. apply Hk. rewrite map_rev, <- in_rev in H.
      apply in_product in Hc. apply Forall2_length' in Hc. rewrite length_map in Hc.
      rewrite map_fst_combine in H by (rewrite length_map; symmetry; exact Hc). exact H.
Qed.

(** ** Margin values of a step *)

Lemma dict_get_rev_nodup {V} (u : Dict V) (k : string) :
  NoDup (map fst u) -> dict_get (rev u) k = dict_get u k.
Proof.
  intros Hnd. destruct (dict_get u k) as [v|] eqn:E.
  - apply dict_get_in.
    + rewrite map_rev. apply NoDup_rev. exact Hnd.
    + apply in_rev. rewrite rev_involutive.
      induction u as [|[k0 v0] rest IH]; simpl in *; [discriminate|].
      inversion Hnd; subst. destruct (String.eqb k k0) eqn:Ek.
      * apply String.eqb_eq in Ek. inversion E; subst. left. reflexivity.
      * right. apply IH; assumption.
  - apply dict_get_notin. rewrite map_rev, <- in_rev. intros H.
    destruct (dict_get_keys_in u k H) as [v Hv]. congruence.
Qed.

Lemma margin_fold_lookup (l : Dict PyValue) :
  forall c k,
    dict_get (fold_left (fun combined kv =>
                if String.eqb (fst kv) "jitter" then combined
                else dict_set combined (fst kv) (snd kv)) l c) k =
    if String.eqb k "jitter" then dict_get c k
    else match dict_get (rev l) k with Some v => Some v | None => dict_get c k end.
Proof.
  induction l as [|[k0 v0] rest IH]; intros c k; cbn [fold_left fst snd rev].
  - destruct (String.eqb k "jitter"); reflexivity.
  - rewrite IH, dict_get_app. cbn [dict_get].
    destruct (String.eqb_spec k0 "jitter") as [->|Hj].
    + destruct (String.eqb k "jitter") eqn:Ek; [reflexivity|].
      destruct (dict_get (rev rest) k); [reflexivity|]. reflexivity.
    + rewrite dict_get_set.
      destruct (String.eqb_spec k "jitter") as [->|Hk]; [|destruct (dict_get (rev rest) k); [reflexivity|]; destruct (String.eqb k k0); reflexivity].
      destruct (String.eqb_spec "jitter" k0); [congruence|reflexivity].
Qed.

(** [_apply_margin_for_step]: the margin of a step has no [jitter] entry; any
    other key takes the value the point gives it under the step's adapter,
    else the one under ["default"]. *)
Theorem apply_margin_for_step_lookup (point : MarginPoint) (adapter k : string) :
  NoDup (map fst (dict_get_or_empty (values point) "default")) ->
  NoDup (map fst (dict_get_or_empty (values point) adapter)) ->
  dict_get (apply_margin_for_step point adapter) k =
  if String.eqb k "jitter" then None
  else match dict_get (dict_get_or_empty (values point) adapter) k with
       | Some v => Some v
       | None => dict_get (dict_get_or_empty (values point) "default") k
       end.
Proof.
  intros Hd Ha. unfold apply_margin_for_step. rewrite margin_fold_lookup.
  destruct (String.eqb k "jitter"); [reflexivity|].
  rewrite rev_app_distr, dict_get_app, !dict_get_rev_nodup by assumption.
  destruct (dict_get (dict_get_or_empty (values point) adapter) k); [reflexivity|].
  destruct (dict_get (dict_get_or_empty (values point) "default") k); reflexivity.
Qed.

(** ** Running one adapter *)

(** [AdapterExecutor.run]: a run that returns normally has looked the adapter
    up, built and resolved its command, created the two log directories and
    files, and started exactly one child, which exited with code 0; the
    child gets the environment passed when it is non-empty and the runner's
    own environment otherwise, and nothing else changes. *)
Theorem adapter_run_ok_spawned fos py_str pe which sx registry name params o e env w w' :
  adapter_run fos py_str pe which sx registry name params o e env w = (w', Ok tt) ->
  exists m cmd argv,
    registry_get registry name = Ok m /\
    build_command fos py_str m params = Ok cmd /\
    resolve_command pe which m name cmd = Ok argv /\
    let pre := [MakeDirs (path_parent o); MakeDirs (path_parent e); WriteFile o; WriteFile e] in
    let cenv := match env with Some ((_ :: _) as d) => d | _ => environ w end in
    sx (events w ++ pre) argv cenv = Some 0%Z /\
    w' = {| environ := environ w; events := events w ++ pre ++ [Spawn argv cenv] |}.
Proof.
  intros H. unfold adapter_run, mbind, lift in H.
  destruct (registry_get registry name) as [m|x] eqn:Er; [|discriminate].
  destruct (build_command fos py_str m params) as [cmd|x] eqn:Eb; [|discriminate].
  destruct (resolve_command pe which m name cmd) as [argv|x] eqn:Ec; [|discriminate].
  unfold emit, get_world, raise, ret in H. cbn [environ events] in H.
  rewrite <- !app_assoc in H. cbn [app] in H.
  destruct (sx _ argv _) as [code|] eqn:Es; [|discriminate].
  destruct (code =? 0)%Z eqn:Ez; [|discriminate].
  apply Z.eqb_eq in Ez. subst code. inversion H; subst w'.
  exists m, cmd, argv. repeat split; try assumption.
  rewrite <- !app_assoc. reflexivity.
Qed.

(** [AdapterExecutor.run]: a [ValidationError] (an unknown adapter, or a
    parameter its manifest rejects) is raised before anything is done: no
    directory or file is created and no child is started. *)
Theorem adapter_run_validation_error_no_effect fos py_str pe which sx registry name params
    o e env w w' x :
  adapter_run fos py_str pe which sx registry name params o e env w = (w', Err (ValidationError x)) ->
  w' = w.
Proof.
  intros H. unfold adapter_run, mbind, lift in H.
  destruct (registry_get registry name) as [m|y] eqn:Er; [|cbn beta iota in H; inversion H; reflexivity].
  destruct (build_command fos py_str m params) as [cmd|y] eqn:Eb; [|cbn beta iota in H; inversion H; reflexivity].
  destruct (resolve_command pe which m name cmd) as [argv|y] eqn:Ec.
  - unfold emit, get_world, raise, ret in H. cbn [environ events] in H.
    destruct (sx _ argv _) as [code|]; [|discriminate].
    destruct (code =? 0)%Z; discriminate.
  - exfalso. cbn beta iota in H. inversion H; subst. unfold resolve_command in Ec.
    destruct (is_absolute (am_path m) && negb (pe (am_path m))); [discriminate|].
    destruct (is_absolute (am_path m)); [discriminate|].
    cbn beta iota zeta in Ec. destruct (hd "" cmd) as [|c s]; discriminate.
Qed.

(** ** Planned sub-runs *)

Lemma digits_aux_dec (fuel n : nat) (acc : string) :
  n < fuel -> dec_from 0 (digits_aux fuel n acc) = dec_from n acc.
Proof.
  revert n acc. induction fuel as [|fuel IH]; intros n acc Hn; [lia|].
  cbn [digits_aux]. assert (Hd : nat_of_ascii (ascii_of_nat (48 + n mod 10)) - 48 = n mod 10).
  { rewrite nat_ascii_embedding; [lia|]. pose proof (Nat.mod_upper_bound n 10). lia. }
  destruct (n <? 10) eqn:E.
  - apply Nat.ltb_lt in E. cbn [dec_from]. rewrite Hd, Nat.mod_small by exact E. reflexivity.
  - apply Nat.ltb_ge in E. rewrite IH.
    + cbn [dec_from]. rewrite Hd. f_equal. pose proof (Nat.div_mod_eq n 10). lia.
    + assert (n / 10 < n) by (apply Nat.div_lt; lia). lia.
Qed.

Lemma pad2_dec (n : nat) : dec_from 0 (pad2 n) = n.
Proof.
  unfold pad2, nat_str. destruct (n <? 10).
  - cbn [String.append dec_from]. change (nat_of_ascii "0"%char - 48) with 0.
    rewrite digits_aux_dec by lia. reflexivity.
  - rewrite digits_aux_dec by lia. reflexivity.
Qed.

Lemma pad2_inj (i j : nat) : pad2 i = pad2 j -> i = j.
Proof. intros H. rewrite <- (pad2_dec i), <- (pad2_dec j), H. reflexivity. Qed.

Lemma append_cancel_l (p a b : string) : p +:+ a = p +:+ b -> a = b.
Proof. induction p as [|c p IH]; simpl; [tauto|]. intros H. inversion H. auto. Qed.

Lemma map_r_forall2 {A B} (f : A -> Result B) (xs : list A) (ys : list B) :
  map_r f xs = Ok ys -> Forall2 (fun x y => f x = Ok y) xs ys.
Proof.
  revert ys. induction xs as [|x rest IH]; simpl; intros ys H.
  - inversion H. constructor.
  - unfold rbind in H. destruct (f x) as [b|e] eqn:E; [|discriminate].
    destruct (map_r f rest) as [bs|e] eqn:E2; [|discriminate].
    inversion H; subst. constructor; [exact E | apply IH; reflexivity].
Qed.

Lemma nth_error_enumerate {A} (xs : list A) (i : nat) :
  nth_error (enumerate xs) i = option_map (fun x => (i, x)) (nth_error xs i).
Proof.
  unfold enumerate. rewrite nth_error_combine.
  destruct (nth_error xs i) eqn:E; simpl.
  - assert (Hi : i < length xs) by (apply nth_error_Some; congruence).
    rewrite nth_error_seq. destruct (i <? length xs) eqn:L; [reflexivity|].
    apply Nat.ltb_ge in L. lia.
  - destruct (nth_error (seq 0 (length xs)) i); reflexivity.
Qed.

Lemma plan_step_shape fos policy point step sp :
  plan_step fos policy point step = Ok sp ->
  sp_step sp = step /\ invocations sp = expanded_parameters step /\
  margin sp = apply_margin_for_step point (step_adapter step).
Proof.
  unfold plan_step, rbind.
  destruct (validate_safety _ _ _); [|discriminate].
  destruct (for_each _ (step_parameters step)); [|discriminate].
  destruct (for_each _ (step_sweeps step)); [|discriminate].
  intros H. inversion H. repeat split.
Qed.

Lemma plan_subrun_shape fos policy flow pid i pt sub :
  plan_subrun fos policy flow pid (i, pt) = Ok sub ->
  sr_identifier sub = pid +:+ "-s" +:+ pad2 i /\ margin_point sub = pt /\
  Forall2 (fun step sp => plan_step fos policy pt step = Ok sp) (flow_steps flow) (sr_steps sub).
Proof.
  unfold plan_subrun, rbind.
  destruct (for_each _ (values pt)); [|discriminate].
  destruct (map_r _ (flow_steps flow)) as [steps|e] eqn:E; [|discriminate].
  intros H. inversion H; subst. repeat split. apply map_r_forall2. exact E.
Qed.

Lemma plan_ok_shape fos now utc sha fpath flow mpath loaded safety sid w rp :
  snd (plan fos now utc sha fpath flow mpath loaded safety sid w) = Ok rp ->
  rp_seed rp = match global_seed (margin_profile_of mpath loaded) with
               | Some z => z | None => now end /\
  Forall2 (fun ip sub => plan_subrun fos safety flow (parent_id rp) ip = Ok sub)
    (enumerate (expand_points (margin_profile_of mpath loaded))) (subruns rp).
Proof.
  destruct (plan_world_result fos now utc sha fpath flow mpath loaded safety sid w)
    as [evs [pid [_ Hplan]]].
  rewrite Hplan. simpl. destruct (map_r _ _) as [subs|e] eqn:Hmap; [|discriminate].
  intros H. inversion H; subst. simpl. split; [reflexivity|].
  apply map_r_forall2. exact Hmap.
Qed.

(** [Runner.plan]: a returned plan has one sub-run per margin point, in
    order; the [i]-th is named [<parent id>-s<i:02d>] and carries the [i]-th
    point, and its step plans follow the flow's steps, each with the step's
    expanded invocations and the point's margin for the step's adapter. The
    plan's seed is the profile's global seed, else the current time. *)
Theorem plan_subruns_follow_points fos now utc sha fpath flow mpath loaded safety sid w rp :
  snd (plan fos now utc sha fpath flow mpath loaded safety sid w) = Ok rp ->
  let points := expand_points (margin_profile_of mpath loaded) in
  rp_seed rp = match global_seed (margin_profile_of mpath loaded) with
               | Some z => z | None => now end /\
  length (subruns rp) = length points /\
  forall i sub, nth_error (subruns rp) i = Some sub ->
    nth_error points i = Some (margin_point sub) /\
    sr_identifier sub = parent_id rp +:+ "-s" +:+ pad2 i /\
    map sp_step (sr_steps sub) = flow_steps flow /\
    Forall (fun spl => invocations spl = expanded_parameters (sp_step spl) /\
                       margin spl = apply_margin_for_step (margin_point sub)
                                      (step_adapter (sp_step spl)))
      (sr_steps sub).
Proof.
  intros H. cbv zeta. destruct (plan_ok_shape _ _ _ _ _ _ _ _ _ _ _ _ H) as [Hseed Hsubs].
  split; [exact Hseed|]. split.
  - apply Forall2_length' in Hsubs. unfold enumerate in Hsubs.
    rewrite length_combine, length_seq, Nat.min_id in Hsubs. symmetry. exact Hsubs.
  - intros i sub Hi. destruct (Forall2_nth_error_r _ _ _ _ _ Hsubs Hi) as [[j pt] [Hj Hsub]].
    rewrite nth_error_enumerate in Hj.
    destruct (nth_error (expand_points (margin_profile_of mpath loaded)) i) as [pt'|] eqn:Hp; [|discriminate].
    simpl in Hj. inversion Hj; subst j pt'.
    destruct (plan_subrun_shape _ _ _ _ _ _ _ Hsub) as [Hid [Hpt Hsteps]].
    rewrite Hpt. split; [reflexivity|]. split; [exact Hid|].
    clear Hsub Hid. induction Hsteps as [|step spl steps spls Hs Hrest IH]; simpl.
    + split; [reflexivity | constructor].
    + destruct (plan_step_shape _ _ _ _ _ Hs) as [Hst [Hinv Hm]].
      destruct IH as [IH1 IH2]. rewrite Hst, IH1. split; [reflexivity|].
      constructor; [|exact IH2]. rewrite Hst. split; assumption.
Qed.

(** [Runner.plan]: the sub-runs of a returned plan have pairwise distinct
    identifiers, so no two of them share a directory under the run. *)
Theorem plan_subrun_ids_distinct fos now utc sha fpath flow mpath loaded safety sid w rp :
  snd (plan fos now utc sha fpath flow mpath loaded safety sid w) = Ok rp ->
  NoDup (map sr_identifier (subruns rp)).
Proof.
  intros H. destruct (plan_ok_shape _ _ _ _ _ _ _ _ _ _ _ _ H) as [_ Hsubs].
  apply NoDup_nth_error. intros i j Hi Heq.
  rewrite length_map in Hi.
  destruct (nth_error (subruns rp) i) as [si|] eqn:Ei;
    [|apply nth_error_None in Ei; lia].
  rewrite !nth_error_map, Ei in Heq. simpl in Heq.
  destruct (nth_error (subruns rp) j) as [sj|] eqn:Ej; [|discriminate].
  simpl in Heq. inversion Heq as [Hij].
  destruct (Forall2_nth_error_r _ _ _ _ _ Hsubs Ei) as [[i' pi] [Hi' Hsi]].
  destruct (Forall2_nth_error_r _ _ _ _ _ Hsubs Ej) as [[j' pj] [Hj' Hsj]].
  rewrite nth_error_enumerate in Hi', Hj'.
  destruct (nth_error _ i) in Hi'; [|discriminate]. destruct (nth_error _ j) in Hj'; [|discriminate].
  simpl in Hi', Hj'. inversion Hi'; inversion Hj'; subst i' j'.
  destruct (plan_subrun_shape _ _ _ _ _ _ _ Hsi) as [Ii _].
  destruct (plan_subrun_shape _ _ _ _ _ _ _ Hsj) as [Ij _].
  rewrite Ii, Ij in Hij. apply append_cancel_l in Hij.
  apply (append_cancel_l "-s") in Hij. apply pad2_inj. exact Hij.
Qed.

(** ** Log files of the invocations *)

Lemma las_app (s t : string) :
  list_ascii_of_string (s +:+ t) = list_ascii_of_string s ++ list_ascii_of_string t.
Proof. induction s as [|c s IH]; simpl; [reflexivity|]. rewrite IH. reflexivity. Qed.

Lemma las_inj (s t : string) : list_ascii_of_string s = list_ascii_of_string t -> s = t.
Proof.
  intros H. rewrite <- (string_of_list_ascii_of_string s), <- (string_of_list_ascii_of_string t), H.
  reflexivity.
Qed.

Lemma digits_aux_chars (fuel n : nat) (acc : string) (c : ascii) :
  In c (list_ascii_of_string (digits_aux fuel n acc)) ->
  In c (list_ascii_of_string acc) \/ is_digit c.
Proof.
  revert n acc. induction fuel as [|fuel IH]; intros n acc Hin; cbn [digits_aux] in Hin; [left; exact Hin|].
  assert (Hd : forall acc', In c (list_ascii_of_string (String (ascii_of_nat (48 + n mod 10)) acc')) ->
                 In c (list_ascii_of_string acc') \/ is_digit c).
  { intros acc' [<-|H]; [right|left; exact H]. unfold is_digit.
    pose proof (Nat.mod_upper_bound n 10). rewrite nat_ascii_embedding; lia. }
  destruct (n <? 10).
  - apply Hd. exact Hin.
  - destruct (IH _ _ Hin) as [H|H]; [apply Hd; exact H|right; exact H].
Qed.

Lemma pad2_chars (n : nat) (c : ascii) : In c (list_ascii_of_string (pad2 n)) -> is_digit c.
Proof.
  unfold pad2, nat_str. destruct (n <? 10).
  - cbn [String.append list_ascii_of_string]. intros [<-|H].
    + unfold is_digit. change (nat_of_ascii "0"%char) with 48. lia.
    + destruct (digits_aux_chars _ _ _ _ H) as [[]|H']; exact H'.
  - intros H. destruct (digits_aux_chars _ _ _ _ H) as [[]|H']; exact H'.
Qed.

Lemma sep_split (sep : ascii) (a b c d : list ascii) :
  ~ In sep a -> ~ In sep c -> a ++ sep :: b = c ++ sep :: d -> a = c /\ b = d.
Proof.
  revert c. induction a as [|x a IH]; intros [|y c] Ha Hc H; simpl in H.
  - inversion H. split; reflexivity.
  - inversion H; subst. exfalso. apply Hc. left. reflexivity.
  - inversion H; subst. exfalso. apply Ha. left. reflexivity.
  - inversion H as [[Hxy Hrest]]. subst y.
    destruct (IH c) as [-> ->]; [intro; apply Ha; right; assumption
                              | intro; apply Hc; right; assumption | exact Hrest | ].
    split; reflexivity.
Qed.

Lemma not_digit_seps : ~ is_digit "_"%char /\ ~ is_digit "."%char.
Proof.
  unfold is_digit. change (nat_of_ascii "_"%char) with 95. change (nat_of_ascii "."%char) with 46.
  split; lia.
Qed.

Lemma pad2_sep (i j : nat) (sep : ascii) (b d : list ascii) :
  ~ is_digit sep ->
  list_ascii_of_string (pad2 i) ++ sep :: b = list_ascii_of_string (pad2 j) ++ sep :: d ->
  i = j /\ b = d.
Proof.
  intros Hs H. apply sep_split in H;
    [| intros Hin; exact (Hs (pad2_chars _ _ Hin)) | intros Hin; exact (Hs (pad2_chars _ _ Hin))].
  destruct H as [H1 H2]. split; [apply pad2_inj, las_inj; exact H1 | exact H2].
Qed.

(** [RunPaths.step_stdout]: two invocations write the same stdout log only
    when they belong to the same step index and, for the same step name, to
    the same invocation index; so within a sub-run no invocation's log
    overwrites another's. *)
Theorem step_stdout_distinct (base pid sid n1 n2 : string) (i1 i2 k1 k2 : nat) :
  step_stdout base pid sid n1 i1 k1 = step_stdout base pid sid n2 i2 k2 ->
  i1 = i2 /\ (n1 = n2 -> k1 = k2).
Proof.
  intros H. unfold step_stdout, step_log_suffix in H.
  apply (f_equal list_ascii_of_string) in H.
  destruct (k1 =? 0) eqn:E1, (k2 =? 0) eqn:E2; rewrite ?las_app in H;
    rewrite <- ?app_assoc in H; apply app_inv_head in H;
    change (list_ascii_of_string "/stdout/") with
      ["/"; "s"; "t"; "d"; "o"; "u"; "t"; "/"]%char in H;
    change (list_ascii_of_string "_") with ["_"%char] in H; cbn [app] in H;
    repeat match goal with H : _ :: _ = _ :: _ |- _ => injection H as H end;
    (apply pad2_sep in H; [|apply not_digit_seps]); destruct H as [-> H];
    split; try reflexivity; intros ->; apply app_inv_head in H;
    apply Nat.eqb_eq in E1 || apply Nat.eqb_neq in E1;
    apply Nat.eqb_eq in E2 || apply Nat.eqb_neq in E2; try lia;
    change (list_ascii_of_string ".log") with [".";"l";"o";"g"]%char in H; cbn [app] in H.
  - discriminate.
  - discriminate.
  - injection H as H. apply pad2_sep in H; [lia|apply not_digit_seps].
Qed.

(** ** Loading a flow *)

Lemma require_keys_ok (d : Dict PyValue) (keys : list string) :
  require_keys d keys = Ok tt <-> forall k, In k keys -> dict_has d k = true.
Proof.
  unfold require_keys. rewrite for_each_ok. split; intros H k Hk; specialize (H k Hk).
  - destruct (dict_has d k); [reflexivity|discriminate].
  - rewrite H. reflexivity.
Qed.

Lemma require_keys_err (d : Dict PyValue) (keys : list string) (e : PyExc) :
  require_keys d keys = Err e -> exists w, e = ValidationError w.
Proof.
  unfold require_keys. induction keys as [|k rest IH]; simpl; [discriminate|].
  unfold rbind. destruct (dict_has d k); [exact IH|]. intros H. inversion H. eauto.
Qed.

Lemma dict_has_get {V} (d : Dict V) (k : string) :
  dict_has d k = true -> exists v, dict_get d k = Some v.
Proof. unfold dict_has. destruct (dict_get d k); [eauto|discriminate]. Qed.

Lemma map_r_err_all {A B} (f : A -> Result B) (xs : list A) (e : PyExc) :
  (forall x e', f x = Err e' -> exists w, e' = ValidationError w) ->
  map_r f xs = Err e -> exists w, e = ValidationError w.
Proof.
  intros Hf. induction xs as [|x rest IH]; simpl; [discriminate|].
  unfold rbind. destruct (f x) as [y|e'] eqn:E.
  - destruct (map_r f rest); [discriminate|]. intros H. inversion H; subst. apply IH. reflexivity.
  - intros H. inversion H; subst. exact (Hf x e E).
Qed.

Lemma map_r_err_some {A B} (f : A -> Result B) (xs : list A) (x : A) (e : PyExc) :
  In x xs -> f x = Err e -> exists e', map_r f xs = Err e'.
Proof.
  intros Hin Hx. induction xs as [|y rest IH]; simpl; [contradiction|]. unfold rbind.
  destruct Hin as [<-|Hin].
  - rewrite Hx. eauto.
  - destruct (f y); [|eauto]. destruct (IH Hin) as [e' He']. rewrite He'. eauto.
Qed.

Lemma sweep_entry_f_err (kv : string * PyValue) (e : PyExc) :
  match sweep_list (snd kv) with Some l => Ok (fst kv, l) | None => Err (ValidationError (fst kv)) end
    = Err e -> exists w, e = ValidationError w.
Proof. destruct (sweep_list (snd kv)); intros H; inversion H. eauto. Qed.

Section FlowLoading.
Variable py_str : PyValue -> string.
Variable dict_of_other : PyValue -> Result (Dict PyValue).

Lemma load_flow_step_err path ie e :
  load_flow_step py_str path ie = Err e -> exists w, e = ValidationError w.
Proof.
  destruct ie as [i entry]. unfold load_flow_step.
  destruct entry as [| | | | | |d]; intros H; try (inversion H; eauto; fail).
  unfold rbind in H. destruct (require_keys d ["name"; "adapter"]) as [[]|x] eqn:Er;
    [|inversion H; subst; exact (require_keys_err _ _ _ Er)].
  destruct (dict_get d "parameters") as [pv|];
    [destruct pv as [| | | | | |params]; try (inversion H; eauto; fail)|].
  all: destruct (dict_get d "sweeps") as [sv|]; [destruct sv|]; cbn [py_truthy] in H;
    try (destruct (negb _) in H); try (destruct b in H); try (inversion H; eauto; fail).
  all: destruct (map_r _ _) as [n|x] eqn:Em; [discriminate|]; inversion H; subst;
    exact (map_r_err_all _ _ _ sweep_entry_f_err Em).
Qed.

Lemma forallb_false_ex {A} (f : A -> bool) (xs : list A) :
  forallb f xs = false -> exists x, In x xs /\ f x = false.
Proof.
  induction xs as [|x rest IH]; simpl; [discriminate|].
  destruct (f x) eqn:E; simpl; intros H.
  - destruct (IH H) as [y [Hy Hf]]. eauto.
  - eauto.
Qed.

Lemma load_flow_step_bad path i entry :
  step_entry_ok entry = false -> exists e, load_flow_step py_str path (i, entry) = Err e.
Proof.
  destruct entry as [| | | | | |d]; intros Hb; try (eexists; reflexivity).
  unfold step_entry_ok in Hb. unfold load_flow_step, rbind.
  destruct (require_keys d ["name"; "adapter"]) as [[]|x] eqn:Er; [|eauto].
  rewrite require_keys_ok in Er.
  rewrite (Er "name"), (Er "adapter") in Hb by (simpl; auto). cbn [andb] in Hb.
  destruct (dict_get d "parameters") as [pv|];
    [destruct pv as [| | | | | |params]; try (eexists; reflexivity)|].
  all: destruct (dict_get d "sweeps") as [sv|]; [destruct sv as [| | | | | |s]|];
    cbn [py_truthy negb andb] in Hb |- *; try discriminate Hb.
  all: try (match type of Hb with negb ?b = false =>
              destruct b; [eexists; reflexivity|discriminate Hb] end).
  all: destruct (forallb_false_ex _ _ Hb) as [kv [Hin Hf]];
    destruct (sweep_list (snd kv)) eqn:Ek; try discriminate Hf;
    destruct (map_r_err_some
                (fun kv => match sweep_list (snd kv) with
                           | Some l => Ok (fst kv, l) | None => Err (ValidationError (fst kv)) end)
                s kv (ValidationError (fst kv)) Hin) as [e' He'];
    [rewrite Ek; reflexivity|]; rewrite He'; eauto.
Qed.

Lemma load_flow_step_ok path i entry st :
  load_flow_step py_str path (i, entry) = Ok st ->
  step_entry_ok entry = true /\
  exists e n a, entry = VDict e /\ dict_get e "name" = Some n /\ dict_get e "adapter" = Some a /\
    step_name st = py_str n /\ step_adapter st = py_str a /\
    match dict_get e "parameters" with
    | None => step_parameters st = []
    | Some v => v = VDict (step_parameters st)
    end /\
    Forall2 (fun kv kl => fst kl = fst kv /\ sweep_list (snd kv) = Some (snd kl))
      (match dict_get e "sweeps" with Some (VDict s) => s | _ => [] end) (step_sweeps st).
Proof.
  intros H. split.
  { destruct (step_entry_ok entry) eqn:Eok; [reflexivity|].
    destruct (load_flow_step_bad path i entry Eok) as [e He]. congruence. }
  destruct entry as [| | | | | |d]; try discriminate H.
  unfold load_flow_step, rbind in H.
  destruct (require_keys d ["name"; "adapter"]) as [[]|x] eqn:Er; [|discriminate H].
  rewrite require_keys_ok in Er.
  destruct (dict_has_get d "name" (Er "name" ltac:(simpl; auto))) as [n Hn].
  destruct (dict_has_get d "adapter" (Er "adapter" ltac:(simpl; auto))) as [a Ha].
  rewrite Hn, Ha in H. exists d, n, a. split; [reflexivity|]. split; [exact Hn|]. split; [exact Ha|].
  destruct (dict_get d "parameters") as [pv|];
    [destruct pv as [| | | | | |params]; try discriminate H|].
  all: destruct (dict_get d "sweeps") as [sv|]; [destruct sv as [| | | | | |s]|];
    cbn [py_truthy negb andb] in H; try discriminate H;
    try (destruct b in H; [discriminate H|]);
    try (destruct (Qeq_bool _ _) in H; [|discriminate H]);
    try (destruct (z =? 0)%Z in H; [|discriminate H]);
    try (destruct (String.eqb _ _) in H; [|discriminate H]);
    try (destruct (Nat.eqb _ _) in H; [|discriminate H]).
  all: cbn [negb] in H; destruct (map_r _ _) as [nl|x] eqn:Em; try discriminate H;
    inversion H; subst; cbn [step_name step_adapter step_parameters step_sweeps];
    split; [reflexivity|]; split; [reflexivity|]; split; [reflexivity|];
    apply map_r_forall2 in Em; eapply Forall2_impl; [|exact Em];
    intros kv kl Hk; cbv beta in Hk; destruct (sweep_list (snd kv)) eqn:E;
    inversion Hk; subst; split; reflexivity.
Qed.

Lemma forall2_enumerate {A B} (R : nat * A -> B -> Prop) (xs : list A) (ys : list B) :
  Forall2 R (enumerate xs) ys -> Forall2 (fun x y => exists i, R (i, x) y) xs ys.
Proof.
  unfold enumerate. generalize 0. revert ys.
  induction xs as [|x rest IH]; intros ys s H; simpl in H; inversion H; subst; constructor; eauto.
Qed.

(** [load_flow]: a loaded flow has one step per entry of the document's
    [steps] list, in order; every entry is a step mapping [load_flow]
    accepts; each step's name and adapter are [str()] of the entry's, its
    parameters are the entry's mapping (empty when absent), and its sweeps
    follow the entry's [sweeps] mapping key by key, each turned into the list
    of its values (of its keys for a mapping); a falsy [sweeps] ([null],
    [false], [0], [""], [[]]) gives a step with no sweep. *)
Theorem load_flow_steps path payload fd :
  load_flow py_str dict_of_other path payload = Ok fd ->
  exists p entries,
    payload = VDict p /\ dict_get p "steps" = Some (VList entries) /\
    Forall2 (fun entry st =>
      step_entry_ok entry = true /\
      exists e n a, entry = VDict e /\ dict_get e "name" = Some n /\ dict_get e "adapter" = Some a /\
        step_name st = py_str n /\ step_adapter st = py_str a /\
        match dict_get e "parameters" with
        | None => step_parameters st = []
        | Some v => v = VDict (step_parameters st)
        end /\
        Forall2 (fun kv kl => fst kl = fst kv /\ sweep_list (snd kv) = Some (snd kl))
          (match dict_get e "sweeps" with Some (VDict s) => s | _ => [] end) (step_sweeps st))
      entries (flow_steps fd).
Proof.
  destruct payload as [| | | | | |p]; try discriminate. unfold load_flow, rbind.
  destruct (require_keys p ["metadata"; "steps"]) as [[]|x]; [|discriminate].
  destruct (dict_get p "steps") as [[| | | | | entries|]|] eqn:Hs; try discriminate.
  destruct (map_r (load_flow_step py_str path) (enumerate entries)) as [steps|x] eqn:Hm;
    [|discriminate].
  destruct (py_dict dict_of_other _) as [md|x]; [|discriminate].
  intros H. inversion H; subst. exists p, entries. split; [reflexivity|]. split; [exact Hs|].
  apply map_r_forall2, forall2_enumerate in Hm. cbn [flow_steps].
  eapply Forall2_impl; [|exact Hm]. intros entry st [i Hi].
  exact (load_flow_step_ok path i entry st Hi).
Qed.

(** [load_flow]: a document whose [steps] list holds an entry [load_flow]
    does not accept (not a mapping, without [name] or [adapter], with
    [parameters] that is not a mapping, with a truthy [sweeps] that is not a
    mapping, or with a sweep given as a string, a number, a boolean or
    [null]) fails to load with a [ValidationError]. *)
Theorem load_flow_rejects_bad_step path p entries entry :
  dict_get p "steps" = Some (VList entries) -> In entry entries -> step_entry_ok entry = false ->
  exists w, load_flow py_str dict_of_other path (VDict p) = Err (ValidationError w).
Proof.
  intros Hs Hin Hb. unfold load_flow, rbind.
  destruct (require_keys p ["metadata"; "steps"]) as [[]|x] eqn:Er;
    [|destruct (require_keys_err _ _ _ Er) as [w ->]; eauto].
  rewrite Hs. destruct (in_enumerate _ _ Hin) as [i Hi].
  destruct (load_flow_step_bad path i entry Hb) as [e He].
  destruct (map_r_err_some _ _ _ _ Hi He) as [e' He']. rewrite He'.
  destruct (map_r_err_all _ _ _ (load_flow_step_err path) He') as [w ->]. eauto.
Qed.

End FlowLoading.

(** ** Loading a margin profile *)

Lemma load_target_entries_cons ctx k0 v0 rest fx sw jt r :
  load_target_entries ctx ((k0, v0) :: rest) (fx, sw, jt) = Ok r ->
  exists fx1 sw1 jt1,
    load_target_entries ctx rest (fx1, sw1, jt1) = Ok r /\
    (k0 = "jitter" -> fx1 = fx /\ sw1 = sw /\
                      jt1 = match v0 with VDict d => Some d | _ => None end) /\
    (k0 <> "jitter" -> jt1 = jt /\
       fx1 = match margin_fixed_of v0 with Some x => dict_set fx k0 x | None => fx end /\
       sw1 = match margin_sweep_of v0 with Some l => dict_set sw k0 l | None => sw end).
Proof.
  cbn [load_target_entries]. destruct (String.eqb_spec k0 "jitter") as [->|Hk].
  - intros H. eexists _, _, _. split; [exact H|]. split; [|intros []; reflexivity].
    intros _. repeat split.
  - destruct v0 as [| | | | | |d]; intros H;
      try (eexists _, _, _; split; [exact H|]; split; [intros; contradiction|];
           intros _; repeat split; fail).
    unfold margin_fixed_of, margin_sweep_of.
    destruct (dict_get d "sweep") as [sv|].
    + destruct (sweep_list sv) as [l|]; [|discriminate].
      eexists _, _, _. split; [exact H|]. split; [intros; contradiction|]. intros _. repeat split.
    + destruct (dict_get d "value") as [x|];
        (eexists _, _, _; split; [exact H|]; split; [intros; contradiction|]; intros _; repeat split).
Qed.

Lemma load_target_entries_spec ctx items :
  NoDup (map fst items) ->
  forall fx sw jt fx' sw' jt',
    load_target_entries ctx items (fx, sw, jt) = Ok (fx', sw', jt') ->
    (forall k, k <> "jitter" ->
       dict_get fx' k = match dict_get items k with
                        | Some v => match margin_fixed_of v with
                                    | Some x => Some x | None => dict_get fx k end
                        | None => dict_get fx k
                        end /\
       dict_get sw' k = match dict_get items k with
                        | Some v => match margin_sweep_of v with
                                    | Some l => Some l | None => dict_get sw k end
                        | None => dict_get sw k
                        end) /\
    jt' = match dict_get items "jitter" with
          | Some (VDict d) => Some d | Some _ => None | None => jt end.
Proof.
  induction items as [|[k0 v0] rest IH]; intros Hnd fx sw jt fx' sw' jt' H.
  - cbn [load_target_entries] in H. inversion H; subst. split; [|reflexivity].
    intros k _. split; reflexivity.
  - inversion Hnd as [|x l Hnot Hnd' Heq]; subst.
    destruct (load_target_entries_cons _ _ _ _ _ _ _ _ H) as [fx1 [sw1 [jt1 [Hr [Hj Hn]]]]].
    destruct (IH Hnd' _ _ _ _ _ _ Hr) as [Hk Hjt]. cbn [dict_get].
    destruct (String.eqb_spec k0 "jitter") as [->|Hk0].
    + destruct (Hj eq_refl) as [-> [-> ->]]. split.
      * intros k Hkj. destruct (String.eqb_spec k "jitter"); [contradiction|]. exact (Hk k Hkj).
      * rewrite String.eqb_refl. rewrite Hjt.
        rewrite dict_get_notin by exact Hnot. reflexivity.
    + destruct (Hn Hk0) as [-> [-> ->]]. split.
      * intros k Hkj. destruct (Hk k Hkj) as [Hf Hs]. rewrite Hf, Hs.
        destruct (String.eqb_spec k k0) as [->|Hne].
        -- rewrite !dict_get_notin by exact Hnot.
           destruct (margin_fixed_of v0) as [x|]; [rewrite dict_get_set, String.eqb_refl|];
           (destruct (margin_sweep_of v0) as [l|]; [rewrite dict_get_set, String.eqb_refl|]);
           split; reflexivity.
        -- destruct (margin_fixed_of v0); destruct (margin_sweep_of v0);
           rewrite ?dict_get_set; destruct (String.eqb_spec k k0); try contradiction;
           split; reflexivity.
      * destruct (String.eqb_spec "jitter" k0) as [E|_]; [subst; contradiction|]. exact Hjt.
Qed.

Lemma load_targets_spec path traw :
  NoDup (map fst traw) ->
  forall acc ts,
    (forall k, In k (map fst traw) -> ~ In k (map fst acc)) ->
    load_targets path traw acc = Ok ts ->
    map fst ts = map fst acc ++ map fst traw /\
    (forall k, ~ In k (map fst traw) -> dict_get ts k = dict_get acc k) /\
    (forall tn v, In (tn, v) traw -> exists tp, v = VDict tp) /\
    (forall tn tp, dict_get traw tn = Some (VDict tp) ->
       exists t, dict_get ts tn = Some t /\
         load_target_entries (path +:+ " target '" +:+ tn +:+ "'") tp ([], [], None)
           = Ok (fixed t, target_sweeps t, jitter t)).
Proof.
  induction traw as [|[tn0 v0] rest IH]; intros Hnd acc ts Hdis H.
  - cbn [load_targets] in H. inversion H; subst. rewrite app_nil_r.
    split; [reflexivity|]. split; [reflexivity|]. split; [intros _ _ []|]. discriminate.
  - inversion Hnd as [|x l Hnot Hnd' Heq]; subst.
    destruct v0 as [| | | | | |tp0]; cbn [load_targets] in H; try discriminate H.
    unfold rbind in H.
    destruct (load_target_entries _ tp0 ([], [], None)) as [[[fx sw] jt]|x] eqn:Ht; [|discriminate H].
    assert (Hnew : ~ In tn0 (map fst acc)) by (apply Hdis; left; reflexivity).
    rewrite dict_set_new in H by exact Hnew.
    set (t0 := {| fixed := fx; target_sweeps := sw; jitter := jt |}) in H.
    assert (Hdis' : forall k, In k (map fst rest) -> ~ In k (map fst (acc ++ [(tn0, t0)]))).
    { intros k Hk. rewrite map_app, in_app_iff. simpl. intros [Hin|[Heq|[]]].
      - exact (Hdis k (or_intror Hk) Hin).
      - subst. contradiction. }
    destruct (IH Hnd' _ _ Hdis' H) as [Hkeys [Hout [Hdict Hin]]].
    split; [rewrite Hkeys, map_app, <- app_assoc; reflexivity|]. split; [|split].
    + intros k Hk. rewrite Hout by (intro; apply Hk; right; assumption).
      rewrite dict_get_app. destruct (dict_get acc k); [reflexivity|]. simpl.
      destruct (String.eqb_spec k tn0); [subst; exfalso; apply Hk; left; reflexivity|reflexivity].
    + intros tn v [Heq|Hr]; [inversion Heq; subst; eauto|exact (Hdict tn v Hr)].
    + intros tn tp. cbn [dict_get]. destruct (String.eqb_spec tn tn0) as [->|Hne].
      * intros Hs. inversion Hs; subst tp0.
        exists t0. split; [|exact Ht].
        rewrite Hout by exact Hnot. rewrite dict_get_app, dict_get_notin by exact Hnew.
        simpl. rewrite String.eqb_refl. reflexivity.
      * exact (Hin tn tp).
Qed.

(** [load_margin_profile]: in a loaded profile the targets are those of the
    document, in order, each given as a mapping; in a target, an entry other
    than [jitter] given as a mapping with [sweep] is a sweep over the list of
    that value (the keys of a mapping), one given as a mapping with [value]
    is fixed to that value, and any other entry is fixed to itself; the
    target's jitter is its [jitter] entry when that is a mapping, and none
    otherwise (for documents without repeated keys). *)
Theorem load_margin_profile_targets dict_of_other path p traw mp :
  dict_get p "targets" = Some (VDict traw) -> NoDup (map fst traw) ->
  load_margin_profile dict_of_other path (VDict p) = Ok mp ->
  map fst (targets mp) = map fst traw /\
  (forall tn v, In (tn, v) traw -> exists tp, v = VDict tp) /\
  (forall tn tp, dict_get traw tn = Some (VDict tp) -> NoDup (map fst tp) ->
     exists t, dict_get (targets mp) tn = Some t /\
       (forall k, k <> "jitter" ->
          dict_get (fixed t) k = match dict_get tp k with
                                 | Some v => margin_fixed_of v | None => None end /\
          dict_get (target_sweeps t) k = match dict_get tp k with
                                         | Some v => margin_sweep_of v | None => None end) /\
       jitter t = match dict_get tp "jitter" with Some (VDict j) => Some j | _ => None end).
Proof.
  intros Ht Hnd H. unfold load_margin_profile, rbind in H.
  destruct (require_keys p ["metadata"; "targets"]) as [[]|x]; [|discriminate H].
  rewrite Ht in H.
  destruct (load_targets path traw []) as [ts|x] eqn:Hl; [|discriminate H].
  destruct (load_global_seed path _) as [seed|x]; [|discriminate H].
  destruct (py_dict dict_of_other _) as [md|x]; [|discriminate H].
  inversion H; subst. cbn [targets].
  destruct (load_targets_spec path traw Hnd [] ts (fun _ _ H => H) Hl)
    as [Hkeys [_ [Hdict Hin]]].
  split; [exact Hkeys|]. split; [exact Hdict|].
  intros tn tp Htp Hndp. destruct (Hin tn tp Htp) as [t [Hts He]].
  exists t. split; [exact Hts|].
  destruct (load_target_entries_spec _ tp Hndp _ _ _ _ _ _ He) as [Hk Hj].
  split.
  - intros k Hkj. destruct (Hk k Hkj) as [Hf Hs]. rewrite Hf, Hs.
    destruct (dict_get tp k) as [v|]; [|split; reflexivity].
    destruct (margin_fixed_of v); destruct (margin_sweep_of v); split; reflexivity.
  - rewrite Hj. destruct (dict_get tp "jitter") as [[]|]; reflexivity.
Qed.

Lemma load_targets_err path traw acc e :
  load_targets path traw acc = Err e -> exists w, e = ValidationError w.
Proof.
  revert acc. induction traw as [|[tn v] rest IH]; intros acc; cbn [load_targets]; [discriminate|].
  destruct v as [| | | | | |tp]; intros H; try (inversion H; eauto; fail).
  unfold rbind in H. destruct (load_target_entries _ tp _) as [[[fx sw] jt]|x] eqn:E.
  - exact (IH _ H).
  - inversion H; subst. clear H IH. revert E. generalize (@nil (string * PyValue), @nil (string * list PyValue), @None (Dict PyValue)).
    induction tp as [|[k0 v0] tr IHt]; intros [[fx0 sw0] jt0]; cbn [load_target_entries];
      [discriminate|].
    destruct (String.eqb k0 "jitter"); [apply IHt|].
    destruct v0 as [| | | | | |d]; try apply IHt.
    destruct (dict_get d "sweep"); [destruct (sweep_list _); [apply IHt|intros E; inversion E; eauto]|].
    destruct (dict_get d "value"); apply IHt.
Qed.

(** [load_margin_profile]: a loaded profile's seed is the document's
    [global_seed] when it is an integer (a boolean counting as 0 or 1) and
    none when it is absent or [null]; a [global_seed] of any other type (a
    float, a string, a list or a mapping) makes the load fail with a
    [ValidationError]. *)
Theorem load_margin_profile_seed dict_of_other path p :
  (forall mp, load_margin_profile dict_of_other path (VDict p) = Ok mp ->
     global_seed mp = match dict_get p "global_seed" with
                      | Some (VInt z) => Some z
                      | Some (VBool b) => Some (if b then 1%Z else 0%Z)
                      | _ => None
                      end) /\
  (forall v, dict_get p "global_seed" = Some v ->
     match v with VNone | VBool _ | VInt _ => False | _ => True end ->
     exists w, load_margin_profile dict_of_other path (VDict p) = Err (ValidationError w)).
Proof.
  unfold load_margin_profile, rbind. split.
  - intros mp H.
    destruct (require_keys p ["metadata"; "targets"]) as [[]|x]; [|discriminate H].
    destruct (dict_get p "targets") as [[| | | | | |traw]|]; try discriminate H.
    destruct (load_targets path traw []) as [ts|x]; [|discriminate H].
    destruct (load_global_seed path (dict_get p "global_seed")) as [seed|x] eqn:Es; [|discriminate H].
    destruct (py_dict dict_of_other _) as [md|x]; [|discriminate H].
    inversion H; subst. cbn [global_seed]. unfold load_global_seed in Es.
    destruct (dict_get p "global_seed") as [[| | | | | |]|]; inversion Es; reflexivity.
  - intros v Hv Hbad.
    destruct (require_keys p ["metadata"; "targets"]) as [[]|x] eqn:Er;
      [|destruct (require_keys_err _ _ _ Er) as [w ->]; eauto].
    destruct (dict_get p "targets") as [[| | | | | |traw]|]; try (eexists; reflexivity).
    destruct (load_targets path traw []) as [ts|x] eqn:Hl;
      [|destruct (load_targets_err _ _ _ _ Hl) as [w ->]; eauto].
    rewrite Hv. destruct v; try contradiction; eexists; reflexivity.
Qed.

(** ** The safety profile engine *)

Lemma append_empty_r (s : string) : s +:+ "" = s.
Proof. induction s as [|c s IH]; simpl; [reflexivity | rewrite IH; reflexivity]. Qed.

Lemma append_assoc_str (a b c : string) : (a +:+ b) +:+ c = a +:+ (b +:+ c).
Proof. induction a as [|x a IH]; simpl; [reflexivity | rewrite IH; reflexivity]. Qed.

Lemma str_forallb_app (p : ascii -> bool) (a b : string) :
  str_forallb p (a +:+ b) = str_forallb p a && str_forallb p b.
Proof.
  induction a as [|c a IH]; simpl; [reflexivity|].
  rewrite IH. destruct (p c); reflexivity.
Qed.

Lemma str_forallb_impl (p q : ascii -> bool) (s : string) :
  (forall c, p c = true -> q c = true) -> str_forallb p s = true -> str_forallb q s = true.
Proof.
  intros Hpq. induction s as [|c s IH]; simpl; [reflexivity|].
  intros H. apply andb_true_iff in H as [H1 H2]. rewrite (Hpq c H1), (IH H2). reflexivity.
Qed.

(** A line without a break, ended by [\n], is one line of [splitlines]. *)
Lemma splitlines_from_line (l rest cur : string) :
  str_forallb (fun c => negb (is_linebreak c)) l = true ->
  splitlines_from (l +:+ String "010"%char rest) cur = (cur +:+ l) :: splitlines_from rest "".
Proof.
  revert cur. induction l as [|c l IH]; intros cur Hl.
  - simpl. rewrite append_empty_r. reflexivity.
  - simpl in Hl. apply andb_true_iff in Hl as [Hc Hl].
    apply negb_true_iff in Hc.
    cbn [String.append splitlines_from].
    destruct (Ascii.eqb c "013"%char) eqn:Ecr.
    + apply Ascii.eqb_eq in Ecr. subst c. discriminate.
    + rewrite Hc, IH by exact Hl. rewrite append_assoc_str. reflexivity.
Qed.

Lemma splitlines_lscpu_text (entries : list (string * string)) :
  forallb lscpu_entry_ok entries = true ->
  splitlines (lscpu_text entries) = map (fun kv => fst kv +:+ ":" +:+ snd kv) entries.
Proof.
  unfold splitlines. induction entries as [|[k v] rest IH]; intros H; [reflexivity|].
  cbn [forallb] in H.
  apply andb_true_iff in H as [Hkv Hrest]. unfold lscpu_entry_ok in Hkv. simpl in Hkv.
  apply andb_true_iff in Hkv as [Hk Hv].
  change (lscpu_text ((k, v) :: rest))
    with (k +:+ ":" +:+ v +:+ String "010"%char (lscpu_text rest)).
  rewrite <- append_assoc_str, <- append_assoc_str.
  rewrite splitlines_from_line.
  - cbn [map fst snd String.append]. rewrite IH by exact Hrest.
    rewrite append_assoc_str. reflexivity.
  - rewrite !str_forallb_app. simpl.
    rewrite (str_forallb_impl
               (fun c => negb (is_linebreak c) && negb (Ascii.eqb c ":"))
               (fun c => negb (is_linebreak c)) k); [exact Hv| |exact Hk].
    intros c Hc. apply andb_true_iff in Hc as [Hc _]. exact Hc.
Qed.

Lemma split_colon_key (k v : string) :
  str_forallb (fun c => negb (is_linebreak c) && negb (Ascii.eqb c ":")) k = true ->
  split_colon (k +:+ ":" +:+ v) = Some (k, v).
Proof.
  induction k as [|c k IH]; simpl in *; intros H; [reflexivity|].
  apply andb_true_iff in H as [Hc Hk]. apply andb_true_iff in Hc as [_ Hc].
  apply negb_true_iff in Hc. rewrite Hc, IH by exact Hk. reflexivity.
Qed.

(** Parsing an [lscpu] output assigns each line's normalised key in turn. *)
Lemma parse_lscpu_text (entries : list (string * string)) :
  forallb lscpu_entry_ok entries = true ->
  parse_lscpu (lscpu_text entries) =
  dict_update [] (map (fun kv => (lower (strip py_isspace (fst kv)), strip py_isspace (snd kv)))
                      entries).
Proof.
  intros H. unfold parse_lscpu. rewrite splitlines_lscpu_text by exact H.
  rewrite dict_update_map. generalize (@nil (string * string)) as acc.
  induction entries as [|[k v] rest IH]; intros acc; cbn [map fold_left fst snd];
    [reflexivity|].
  cbn [forallb] in H. apply andb_true_iff in H as [Hkv Hrest].
  unfold lscpu_entry_ok in Hkv. simpl in Hkv. apply andb_true_iff in Hkv as [Hk _].
  rewrite split_colon_key by exact Hk. apply IH. exact Hrest.
Qed.

(** Nothing is parsed from an output none of whose lines has a colon. *)
Lemma parse_lscpu_no_colon (output : string) :
  (forall line, In line (splitlines output) -> split_colon line = None) ->
  parse_lscpu output = [].
Proof.
  unfold parse_lscpu. generalize (splitlines output) as lines.
  intros lines H. induction lines as [|line rest IH]; simpl; [reflexivity|].
  rewrite (H line (or_introl eq_refl)). apply IH. intros l Hl. apply H. right. exact Hl.
Qed.

Lemma insert_by_priority_perm (p : SafetyProfile) (s : list SafetyProfile) :
  Permutation (insert_by_priority p s) (p :: s).
Proof.
  induction s as [|q s IH]; simpl; [reflexivity|].
  destruct (priority p <? priority q)%Z; [|reflexivity].
  eapply perm_trans; [apply perm_skip, IH | apply perm_swap].
Qed.

Lemma sort_by_priority_perm (ps : list SafetyProfile) : Permutation (sort_by_priority ps) ps.
Proof.
  induction ps as [|p ps IH]; simpl; [reflexivity|].
  eapply perm_trans; [apply insert_by_priority_perm | apply perm_skip, IH].
Qed.

Definition prio_ge (a b : SafetyProfile) : Prop := (priority b <= priority a)%Z.

Lemma insert_by_priority_sorted (p : SafetyProfile) (s : list SafetyProfile) :
  Sorted prio_ge s -> Sorted prio_ge (insert_by_priority p s).
Proof.
  induction s as [|q s IH]; simpl; intros HS.
  - repeat constructor.
  - destruct (priority p <? priority q)%Z eqn:E.
    + apply Z.ltb_lt in E. inversion HS as [|? ? HS' Hhd]; subst.
      constructor; [apply IH, HS'|].
      destruct s as [|r s]; simpl.
      * constructor. unfold prio_ge. lia.
      * destruct (priority p <? priority r)%Z; constructor; unfold prio_ge.
        -- inversion Hhd; assumption.
        -- lia.
    + apply Z.ltb_ge in E. constructor; [exact HS|]. constructor. unfold prio_ge. lia.
Qed.

Lemma insert_by_priority_filter (z : Z) (p : SafetyProfile) (s : list SafetyProfile) :
  filter (fun q => Z.eqb (priority q) z) (insert_by_priority p s) =
  filter (fun q => Z.eqb (priority q) z) (p :: s).
Proof.
  induction s as [|q s IH]; simpl; [reflexivity|].
  destruct (priority p <? priority q)%Z eqn:E; [|reflexivity].
  apply Z.ltb_lt in E. simpl. rewrite IH. simpl.
  destruct (Z.eqb (priority q) z) eqn:Eq, (Z.eqb (priority p) z) eqn:Ep; try reflexivity.
  apply Z.eqb_eq in Eq, Ep. lia.
Qed.

Lemma strongly_sorted_app_r {A} (R : A -> A -> Prop) (l1 l2 : list A) :
  StronglySorted R (l1 ++ l2) -> StronglySorted R l2.
Proof.
  induction l1 as [|x l1 IH]; simpl; intros H; [exact H|].
  apply StronglySorted_inv in H as [H _]. apply IH, H.
Qed.

Lemma app_cons_first {A} (a c b d : list A) (x : A) :
  a ++ x :: b = c ++ x :: d -> ~ In x a -> ~ In x c -> a = c.
Proof.
  revert c. induction a as [|y a IH]; intros c H Ha Hc; destruct c as [|y' c]; simpl in *.
  - reflexivity.
  - inversion H; subst. exfalso. apply Hc. left. reflexivity.
  - inversion H; subst. exfalso. apply Ha. left. reflexivity.
  - inversion H; subst. f_equal. apply IH; auto.
Qed.

Section SelectionProps.
Variable py_str : PyValue -> string.
Variable int_of_str : string -> option Z.

Lemma first_match_some (fp : HardwareFingerprint) (ps : list SafetyProfile) (p : SafetyProfile) :
  first_match py_str int_of_str fp ps = Ok (Some p) ->
  exists s1 s2, ps = s1 ++ p :: s2 /\
    Forall (fun q => matches py_str int_of_str (prof_match q) fp = Ok false) s1 /\
    matches py_str int_of_str (prof_match p) fp = Ok true.
Proof.
  induction ps as [|q rest IH]; simpl; intros H; [discriminate|].
  destruct (matches py_str int_of_str (prof_match q) fp) as [[|]|e] eqn:E; simpl in H.
  - inversion H; subst. exists [], rest. auto.
  - destruct (IH H) as (s1 & s2 & -> & Hs1 & Hp). exists (q :: s1), s2. auto.
  - discriminate.
Qed.

Lemma first_match_none (fp : HardwareFingerprint) (ps : list SafetyProfile) :
  first_match py_str int_of_str fp ps = Ok None ->
  Forall (fun q => matches py_str int_of_str (prof_match q) fp = Ok false) ps.
Proof.
  induction ps as [|q rest IH]; simpl; intros H; [constructor|].
  destruct (matches py_str int_of_str (prof_match q) fp) as [[|]|e] eqn:E; simpl in H;
    try discriminate.
  constructor; [exact E | apply IH, H].
Qed.
End SelectionProps.

Lemma sort_by_priority_sorted (ps : list SafetyProfile) : Sorted prio_ge (sort_by_priority ps).
Proof.
  induction ps as [|p ps IH]; simpl; [constructor|].
  apply insert_by_priority_sorted, IH.
Qed.

Lemma sort_by_priority_filter (z : Z) (ps : list SafetyProfile) :
  filter (fun p => Z.eqb (priority p) z) (sort_by_priority ps) =
  filter (fun p => Z.eqb (priority p) z) ps.
Proof.
  induction ps as [|p ps IH]; simpl; [reflexivity|].
  rewrite insert_by_priority_filter. simpl. rewrite IH. reflexivity.
Qed.

(** [safety._parse_lscpu] on an [lscpu] output of [key:value] lines: the
    value parsed for a key (stripped and lowercased) is the stripped value
    of the last line with that key. *)
Theorem parse_lscpu_last_line_wins (e1 e2 : list (string * string)) (k v : string) :
  forallb lscpu_entry_ok (e1 ++ (k, v) :: e2) = true ->
  Forall (fun kv => lower (strip py_isspace (fst kv)) <> lower (strip py_isspace k)) e2 ->
  dict_get (parse_lscpu (lscpu_text (e1 ++ (k, v) :: e2))) (lower (strip py_isspace k)) =
  Some (strip py_isspace v).
Proof.
  intros Hok He2. rewrite parse_lscpu_text by exact Hok.
  rewrite dict_get_update, map_app, rev_app_distr. cbn [map rev fst snd].
  rewrite !dict_get_app.
  rewrite (dict_get_notin (rev (map _ e2))).
  - simpl. rewrite String.eqb_refl. reflexivity.
  - rewrite map_rev, <- in_rev, map_map. intros Hin.
    apply in_map_iff in Hin as (kv & Heq & Hin).
    rewrite Forall_forall in He2. exact (He2 kv Hin Heq).
Qed.

(** [HardwareFingerprint.from_sysinfo]: when no line of the [lscpu] output
    has a colon (as with [command-not-found], or no [lscpu] entry at all),
    the fingerprint has an empty CPU model, no core count, and the [uname]
    output as its architecture. *)
Theorem from_sysinfo_without_lscpu_fields (int_of_str : string -> option Z)
    (sysinfo : Dict string) :
  (forall line, In line (splitlines (get_or sysinfo "lscpu" "")) -> split_colon line = None) ->
  from_sysinfo int_of_str sysinfo =
  {| cpu_model := ""; total_cores := None; architecture := get_or sysinfo "uname" "" |}.
Proof.
  intros H. unfold from_sysinfo. rewrite (parse_lscpu_no_colon _ H). reflexivity.
Qed.

(** The sort at the end of [SafetyProfileEngine.load] keeps the profiles
    (a permutation), puts them in order of decreasing priority, and keeps
    the load order among profiles of equal priority. *)
Theorem sort_by_priority_order (ps : list SafetyProfile) :
  Permutation (sort_by_priority ps) ps /\
  Sorted (fun a b => (priority b <= priority a)%Z) (sort_by_priority ps) /\
  (forall z, filter (fun p => Z.eqb (priority p) z) (sort_by_priority ps) =
             filter (fun p => Z.eqb (priority p) z) ps).
Proof.
  split; [apply sort_by_priority_perm|]. split.
  - exact (sort_by_priority_sorted ps).
  - intros z. apply sort_by_priority_filter.
Qed.

(** [SafetyProfileEngine.select] after [load] (profiles read from files of
    distinct paths): the selected profile is one of them and matches the
    fingerprint; no profile of higher priority matches, nor any profile of
    the same priority loaded before it. *)
Theorem select_highest_priority (py_str : PyValue -> string)
    (int_of_str : string -> option Z) (loaded : list SafetyProfile)
    (sysinfo : Dict string) (p : SafetyProfile) :
  NoDup (map source_path loaded) ->
  select py_str int_of_str (sort_by_priority loaded) sysinfo = Ok (Some p) ->
  In p loaded /\
  matches py_str int_of_str (prof_match p) (from_sysinfo int_of_str sysinfo) = Ok true /\
  (forall q, In q loaded -> (priority p < priority q)%Z ->
     matches py_str int_of_str (prof_match q) (from_sysinfo int_of_str sysinfo) = Ok false) /\
  (forall l1 l2, loaded = l1 ++ p :: l2 -> forall q, In q l1 -> priority q = priority p ->
     matches py_str int_of_str (prof_match q) (from_sysinfo int_of_str sysinfo) = Ok false).
Proof.
  intros Hnd Hsel.
  assert (Hfm : first_match py_str int_of_str (from_sysinfo int_of_str sysinfo)
                  (sort_by_priority loaded) = Ok (Some p)).
  { unfold select in Hsel. destruct (sort_by_priority loaded); [discriminate | exact Hsel]. }
  set (fp := from_sysinfo int_of_str sysinfo) in *.
  destruct (first_match_some py_str int_of_str fp _ p Hfm) as (s1 & s2 & Hs & Hs1 & Hp).
  pose proof (sort_by_priority_perm loaded) as Hperm.
  pose proof (NoDup_map_inv _ _ Hnd) as Hnd'.
  assert (Hin : forall q, In q loaded <-> In q (s1 ++ p :: s2)).
  { intros q. rewrite <- Hs. split; intros H.
    - exact (Permutation_in _ (Permutation_sym Hperm) H).
    - exact (Permutation_in _ Hperm H). }
  rewrite Forall_forall in Hs1.
  split; [apply Hin, in_elt|]. split; [exact Hp|]. split.
  - intros q Hq Hlt. apply Hin in Hq. apply in_app_or in Hq as [Hq|[Hq|Hq]].
    + apply Hs1, Hq.
    + subst q. lia.
    + pose proof (sort_by_priority_sorted loaded) as HS. rewrite Hs in HS.
      apply Sorted_StronglySorted in HS; [|intros a b c; unfold prio_ge; lia].
      apply strongly_sorted_app_r, StronglySorted_inv in HS as [_ HF].
      rewrite Forall_forall in HF. specialize (HF q Hq). unfold prio_ge in HF. lia.
  - intros l1 l2 Hl q Hq Heq.
    pose proof (sort_by_priority_filter (priority p) loaded) as Hf.
    rewrite Hs, Hl, !filter_app in Hf. cbn [filter] in Hf. rewrite Z.eqb_refl in Hf.
    assert (Hpl1 : ~ In p l1).
    { rewrite Hl in Hnd'. apply NoDup_remove_2 in Hnd'.
      intros H. apply Hnd', in_or_app. left. exact H. }
    assert (Hps1 : ~ In p s1).
    { assert (HndS : NoDup (s1 ++ p :: s2)).
      { rewrite <- Hs. exact (Permutation_NoDup (Permutation_sym Hperm) Hnd'). }
      apply NoDup_remove_2 in HndS. intros H. apply HndS, in_or_app. left. exact H. }
    apply app_cons_first in Hf.
    + apply Hs1.
      assert (Hq' : In q (filter (fun r => Z.eqb (priority r) (priority p)) l1)).
      { apply filter_In. split; [exact Hq | apply Z.eqb_eq, Heq]. }
      rewrite <- Hf in Hq'. apply filter_In in Hq' as [Hq' _]. exact Hq'.
    + intros H. apply filter_In in H as [H _]. exact (Hps1 H).
    + intros H. apply filter_In in H as [H _]. exact (Hpl1 H).
Qed.

(** [SafetyProfileEngine.select] after [load] selects nothing only when no
    loaded profile matches the fingerprint. *)
Theorem select_none_no_match (py_str : PyValue -> string)
    (int_of_str : string -> option Z) (loaded : list SafetyProfile)
    (sysinfo : Dict string) :
  select py_str int_of_str (sort_by_priority loaded) sysinfo = Ok None ->
  forall q, In q loaded ->
    matches py_str int_of_str (prof_match q) (from_sysinfo int_of_str sysinfo) = Ok false.
Proof.
  intros Hsel q Hq.
  apply (Permutation_in _ (Permutation_sym (sort_by_priority_perm loaded))) in Hq.
  revert Hq. unfold select in Hsel.
  destruct (sort_by_priority loaded) as [|r rest]; [contradiction|].
  intros Hq. apply first_match_none in Hsel. rewrite Forall_forall in Hsel.
  exact (Hsel q Hq).
Qed.

(** ** Files a run writes *)

Lemma drop_through_slash_list (s : string) :
  (~ In "/"%char (list_ascii_of_string s) /\ drop_through_slash s = "") \/
  exists x1 x2, list_ascii_of_string s = x1 ++ "/"%char :: x2 /\ ~ In "/"%char x1 /\
                list_ascii_of_string (drop_through_slash s) = x2.
Proof.
  induction s as [|c s IH]; simpl.
  - left. split; [intros []|reflexivity].
  - destruct (Ascii.eqb c "/") eqn:E.
    + apply Ascii.eqb_eq in E. subst c. right. exists [], (list_ascii_of_string s).
      split; [reflexivity|]. split; [intros []|reflexivity].
    + apply Ascii.eqb_neq in E.
      destruct IH as [[Hn Hd]|(x1 & x2 & Hs & Hn & Hd)].
      * left. split; [intros [H|H]; [congruence | contradiction] | exact Hd].
      * right. exists (c :: x1), x2. rewrite Hs. split; [reflexivity|].
        split; [intros [H|H]; [congruence | contradiction] | exact Hd].
Qed.

(** [Path(p).parent] of a path below [d] is within [d]. *)
Lemma path_parent_below (d r : string) : path_within d (path_parent (d +:+ String "/" r)).
Proof.
  unfold path_parent.
  assert (Hrev : list_ascii_of_string (str_rev (d +:+ String "/" r)) =
                 rev (list_ascii_of_string r) ++ "/"%char :: rev (list_ascii_of_string d)).
  { rewrite str_rev_list, las_app. simpl. rewrite rev_app_distr. simpl.
    rewrite <- app_assoc. reflexivity. }
  destruct (drop_through_slash_list (str_rev (d +:+ String "/" r)))
    as [[Hn _]|(x1 & x2 & Hs & Hn & Hd)].
  - exfalso. apply Hn. rewrite Hrev. apply in_or_app. right. left. reflexivity.
  - rewrite Hrev in Hs.
    assert (Hx2 : x2 = rev (list_ascii_of_string d) \/
                  exists l, x2 = l ++ "/"%char :: rev (list_ascii_of_string d)).
    { apply app_eq_app in Hs as [l [[H1 H2]|[H1 H2]]].
      - destruct l as [|c l]; simpl in H2.
        + inversion H2. left. reflexivity.
        + inversion H2; subst. right. exists l. reflexivity.
      - destruct l as [|c l]; simpl in H2.
        + inversion H2. left. reflexivity.
        + inversion H2; subst. exfalso. apply Hn. apply in_or_app. right. left. reflexivity. }
    destruct Hx2 as [Hx2|[l Hx2]].
    + left. apply las_inj. rewrite str_rev_list, Hd, Hx2, rev_involutive. reflexivity.
    + right. exists (string_of_list_ascii (rev l)). apply las_inj.
      rewrite str_rev_list, Hd, Hx2, las_app. simpl.
      rewrite list_ascii_of_string_of_list_ascii, rev_app_distr. simpl.
      rewrite rev_involutive, <- app_assoc. reflexivity.
Qed.

Lemma subrun_dir_below (base pid sid : string) :
  path_below (run_parent_dir base pid) (subrun_dir base pid sid).
Proof. unfold subrun_dir. eexists. reflexivity. Qed.

Lemma subrun_file_below (base pid sid f : string) :
  path_below (run_parent_dir base pid) (subrun_dir base pid sid +:+ String "/" f).
Proof. unfold subrun_dir. rewrite !append_assoc_str. eexists. reflexivity. Qed.

Lemma subrun_ldjson_below (base pid sid : string) :
  path_below (run_parent_dir base pid) (subrun_ldjson base pid sid).
Proof. apply subrun_file_below. Qed.

Lemma subrun_summary_below (base pid sid : string) :
  path_below (run_parent_dir base pid) (subrun_summary base pid sid).
Proof. apply subrun_file_below. Qed.

Lemma step_stdout_below (base pid sid name : string) (i k : nat) :
  path_below (run_parent_dir base pid) (step_stdout base pid sid name i k).
Proof. apply subrun_file_below. Qed.

Lemma step_stderr_below (base pid sid name : string) (i k : nat) :
  path_below (run_parent_dir base pid) (step_stderr base pid sid name i k).
Proof. apply subrun_file_below. Qed.

Lemma effects_within_ret {A} (d : string) (a : A) : effects_within d (ret a).
Proof. intros w. exists []. split; [symmetry; apply app_nil_r | constructor]. Qed.

Lemma effects_within_raise {A} (d : string) (e : PyExc) : effects_within d (@raise A e).
Proof. intros w. exists []. split; [symmetry; apply app_nil_r | constructor]. Qed.

Lemma effects_within_lift {A} (d : string) (r : Result A) : effects_within d (lift r).
Proof. intros w. exists []. split; [symmetry; apply app_nil_r | constructor]. Qed.

Lemma effects_within_get_world (d : string) : effects_within d get_world.
Proof. intros w. exists []. split; [symmetry; apply app_nil_r | constructor]. Qed.

Lemma effects_within_emit (d : string) (e : Event) :
  event_within d e -> effects_within d (emit e).
Proof. intros He w. exists [e]. split; [reflexivity | repeat constructor; exact He]. Qed.

Lemma effects_within_bind {A B} (d : string) (m : M A) (k : A -> M B) :
  effects_within d m -> (forall a, effects_within d (k a)) -> effects_within d (mbind m k).
Proof.
  intros Hm Hk w. unfold mbind.
  destruct (Hm w) as (n1 & E1 & F1). destruct (m w) as [w1 [a|e]]; simpl in E1.
  - destruct (Hk a w1) as (n2 & E2 & F2). exists (n1 ++ n2).
    rewrite E2, E1, app_assoc. split; [reflexivity | apply Forall_app; split; assumption].
  - exists n1. split; assumption.
Qed.

Lemma effects_within_catch_exec (d : string) (m : M unit) :
  effects_within d m -> effects_within d (catch_exec m).
Proof.
  intros Hm w. unfold catch_exec.
  destruct (Hm w) as (n1 & E1 & F1). destruct (m w) as [w1 [a|[]]]; simpl in E1;
    exists n1; split; assumption.
Qed.

Ltac within_steps :=
  repeat match goal with
  | |- effects_within _ (mbind _ _) => apply effects_within_bind; [|intro]
  | |- effects_within _ (ret _) => apply effects_within_ret
  | |- effects_within _ (raise _) => apply effects_within_raise
  | |- effects_within _ (lift _) => apply effects_within_lift
  | |- effects_within _ get_world => apply effects_within_get_world
  | |- effects_within _ (catch_exec _) => apply effects_within_catch_exec
  | |- effects_within _ (emit _) => apply effects_within_emit; simpl event_within
  | |- effects_within _ (let _ := _ in _) => cbv zeta
  | |- effects_within _ (match ?x with _ => _ end) => destruct x
  end.

(** [AdapterExecutor.run] creates and writes only the directories and files
    of its two log paths. *)
Lemma adapter_run_within fos py_str pe which sx registry name params o e env (d : string) :
  path_below d o -> path_below d e ->
  effects_within d (adapter_run fos py_str pe which sx registry name params o e env).
Proof.
  intros Ho He. unfold adapter_run. within_steps.
  - destruct Ho as [r ->]. apply path_parent_below.
  - destruct He as [r ->]. apply path_parent_below.
  - right. exact Ho.
  - right. exact He.
  - exact I.
Qed.

Section RunFiles.
Variable py_str : PyValue -> string.
Variable executor : Executor.
Variable runs_path : string.
Hypothesis executor_within : forall d name params o e env,
  path_below d o -> path_below d e -> effects_within d (executor name params o e env).

Lemma run_invocations_within rp subplan si sp ii invs acc :
  effects_within (run_parent_dir runs_path (parent_id rp))
    (run_invocations py_str executor runs_path rp subplan si sp ii invs acc).
Proof.
  revert ii acc. induction invs as [|params rest IH]; intros ii acc; simpl; within_steps.
  - right. apply subrun_ldjson_below.
  - unfold build_step_environment. within_steps.
  - apply executor_within; [apply step_stdout_below | apply step_stderr_below].
  - right. apply subrun_ldjson_below.
  - apply IH.
Qed.

Lemma run_steps_within rp subplan si steps acc :
  effects_within (run_parent_dir runs_path (parent_id rp))
    (run_steps py_str executor runs_path rp subplan si steps acc).
Proof.
  revert si acc. induction steps as [|sp rest IH]; intros si acc; simpl; within_steps.
  - apply run_invocations_within.
  - apply IH.
Qed.

Lemma execute_subrun_within rp subplan :
  effects_within (run_parent_dir runs_path (parent_id rp))
    (execute_subrun py_str executor runs_path rp subplan).
Proof.
  unfold execute_subrun. within_steps.
  - right. apply subrun_dir_below.
  - destruct (subrun_ldjson_below runs_path (parent_id rp) (sr_identifier subplan)) as [r ->].
    apply path_parent_below.
  - apply run_steps_within.
  - right. apply subrun_summary_below.
Qed.

Lemma execute_subruns_within rp subs :
  effects_within (run_parent_dir runs_path (parent_id rp))
    (execute_subruns py_str executor runs_path rp subs).
Proof.
  induction subs as [|subplan rest IH]; simpl; within_steps.
  - apply execute_subrun_within.
  - right. eexists. reflexivity.
  - apply IH.
Qed.

Lemma execute_within rp dry_run :
  effects_within (run_parent_dir runs_path (parent_id rp))
    (execute py_str executor runs_path rp dry_run).
Proof.
  unfold execute. within_steps.
  all: try (left; reflexivity).
  all: try (right; eexists; reflexivity).
  all: try exact I.
  apply execute_subruns_within.
Qed.

End RunFiles.

(** [Runner.execute] with the [AdapterExecutor], dry run or not and whatever
    the adapters do or exit with: it only adds effects, and every directory
    it creates and every file it writes or appends to lies within the run's
    directory [<runs>/<parent id>]. *)
Theorem execute_writes_within_run_dir fos py_str pe which sx registry runs_path rp dry_run w :
  exists new,
    events (fst (execute py_str (adapter_run fos py_str pe which sx registry) runs_path rp
                         dry_run w)) = events w ++ new /\
    Forall (event_within (run_parent_dir runs_path (parent_id rp))) new.
Proof.
  apply execute_within. intros d name params o e env Ho He.
  apply adapter_run_within; assumption.
Qed.

(** * Witnesses of the further properties *)

(** The [stress] margin of a point whose default values carry a jitter entry
    and whose [stress] values override [vcore_mv]. *)
Lemma apply_margin_for_step_lookup_witness :
  let pt := {| identifier := "vcore_mv=950";
               values := [("default", [("vcore_mv", VInt 900); ("jitter", VInt 1)]);
                          ("stress", [("vcore_mv", VInt 950)])];
               seed := 7%Z |} in
  NoDup (map fst (dict_get_or_empty (values pt) "default")) /\
  NoDup (map fst (dict_get_or_empty (values pt) "stress")) /\
  dict_get (apply_margin_for_step pt "stress") "vcore_mv" = Some (VInt 950) /\
  dict_get (apply_margin_for_step pt "stress") "jitter" = None.
Proof.
  intros pt.
  assert (H1 : NoDup (map fst (dict_get_or_empty (values pt) "default"))).
  { simpl. constructor; [intros [H|[]]; discriminate|]. constructor; [intros []|constructor]. }
  assert (H2 : NoDup (map fst (dict_get_or_empty (values pt) "stress"))).
  { simpl. constructor; [intros []|constructor]. }
  split; [exact H1|]. split; [exact H2|]. split.
  - exact (apply_margin_for_step_lookup pt "stress" "vcore_mv" H1 H2).
  - exact (apply_margin_for_step_lookup pt "stress" "jitter" H1 H2).
Defined.

(** The [stress] adapter run with a valid duration, its child exiting 0. *)
Lemma adapter_run_ok_spawned_witness :
  let fos := fun _ : string => @None Q in
  let pe := fun p => String.eqb p "/opt/diags/stress" in
  let which := fun _ : string => @None string in
  let sx := fun (_ : list Event) (_ : list string) (_ : Dict string) => Some 0%Z in
  let params := [("duration", VInt 1)] in
  let run := adapter_run fos ex_py_str pe which sx ex_registry "stress" params
                         "runs/r/out.log" "runs/r/err.log" None in
  run ex_world = (fst (run ex_world), Ok tt) /\
  exists m cmd argv,
    registry_get ex_registry "stress" = Ok m /\
    build_command fos ex_py_str m params = Ok cmd /\
    resolve_command pe which m "stress" cmd = Ok argv /\
    let pre := [MakeDirs (path_parent "runs/r/out.log"); MakeDirs (path_parent "runs/r/err.log");
                WriteFile "runs/r/out.log"; WriteFile "runs/r/err.log"] in
    sx (events ex_world ++ pre) argv (environ ex_world) = Some 0%Z /\
    fst (run ex_world) =
      {| environ := environ ex_world; events := events ex_world ++ pre ++ [Spawn argv (environ ex_world)] |}.
Proof.
  intros fos pe which sx params run.
  assert (H : run ex_world = (fst (run ex_world), Ok tt)) by (vm_compute; reflexivity).
  split; [exact H|].
  exact (adapter_run_ok_spawned fos ex_py_str pe which sx ex_registry "stress" params
           "runs/r/out.log" "runs/r/err.log" None ex_world (fst (run ex_world)) H).
Defined.

(** The [stress] adapter run with a duration above its maximum. *)
Lemma adapter_run_validation_error_no_effect_witness :
  let run := ex_executor (fun _ => 0%Z) "stress" [("duration", VInt 50)]
                         "runs/r/out.log" "runs/r/err.log" None in
  run ex_world = (fst (run ex_world), Err (ValidationError "duration")) /\
  fst (run ex_world) = ex_world.
Proof.
  intros run.
  assert (H : run ex_world = (fst (run ex_world), Err (ValidationError "duration")))
    by (vm_compute; reflexivity).
  split; [exact H|].
  unfold run, ex_executor in H |- *.
  exact (adapter_run_validation_error_no_effect (fun _ => None) ex_py_str
           (fun p => String.eqb p "/opt/diags/stress") (fun _ => None)
           (fun _ argv _ => Some ((fun _ => 0%Z) argv)) ex_registry "stress"
           [("duration", VInt 50)] "runs/r/out.log" "runs/r/err.log" None ex_world _ _ H).
Defined.

(** The plan of the [stress] flow over the two [vcore_mv] points. *)
Lemma plan_subruns_follow_points_witness :
  snd (ex_plan_run (ex_flow 5) (Some "margins/vcore.yaml") (Some ex_margin)) = Ok (ex_plan 5) /\
  rp_seed (ex_plan 5) = 7%Z /\ length (subruns (ex_plan 5)) = 2.
Proof.
  assert (H : snd (ex_plan_run (ex_flow 5) (Some "margins/vcore.yaml") (Some ex_margin)) =
              Ok (ex_plan 5)) by (vm_compute; reflexivity).
  split; [exact H|].
  destruct (plan_subruns_follow_points (fun _ => None) 1760486400%Z "20261015T000000Z"
              (fun _ => "0123456789") "flows/stress.yaml" (ex_flow 5) (Some "margins/vcore.yaml")
              (Some ex_margin) ex_policy "policy/safety.yaml" ex_world (ex_plan 5) H)
    as [Hseed [Hlen _]].
  split; [exact Hseed | exact Hlen].
Defined.

Lemma plan_subrun_ids_distinct_witness :
  snd (ex_plan_run (ex_flow 5) (Some "margins/vcore.yaml") (Some ex_margin)) = Ok (ex_plan 5) /\
  NoDup (map sr_identifier (subruns (ex_plan 5))).
Proof.
  assert (H : snd (ex_plan_run (ex_flow 5) (Some "margins/vcore.yaml") (Some ex_margin)) =
              Ok (ex_plan 5)) by (vm_compute; reflexivity).
  split; [exact H|].
  exact (plan_subrun_ids_distinct (fun _ => None) 1760486400%Z "20261015T000000Z"
           (fun _ => "0123456789") "flows/stress.yaml" (ex_flow 5) (Some "margins/vcore.yaml")
           (Some ex_margin) ex_policy "policy/safety.yaml" ex_world (ex_plan 5) H).
Defined.

(** The stdout log of the second invocation of step 0 of a sub-run. *)
Lemma step_stdout_distinct_witness :
  step_stdout "runs" "rr-20261015T000000Z-0123456789" "rr-20261015T000000Z-0123456789-s00"
    "stress" 0 1 =
  step_stdout "runs" "rr-20261015T000000Z-0123456789" "rr-20261015T000000Z-0123456789-s00"
    "stress" 0 1 /\ 0 = 0 /\ ("stress" = "stress" -> 1 = 1).
Proof.
  assert (H : step_stdout "runs" "rr-20261015T000000Z-0123456789" "rr-20261015T000000Z-0123456789-s00"
                "stress" 0 1 =
              step_stdout "runs" "rr-20261015T000000Z-0123456789" "rr-20261015T000000Z-0123456789-s00"
                "stress" 0 1) by reflexivity.
  split; [exact H|].
  exact (step_stdout_distinct _ _ _ _ _ _ _ _ _ H).
Defined.

(** The flow document with a [null] sweeps entry loads. *)
Lemma load_flow_steps_witness :
  load_flow ex_py_str ex_dict_of_other "flows/stress.yaml" ex_flow_doc = Ok ex_loaded_flow /\
  length (flow_steps ex_loaded_flow) = 2 /\
  exists p entries, ex_flow_doc = VDict p /\ dict_get p "steps" = Some (VList entries).
Proof.
  assert (H : load_flow ex_py_str ex_dict_of_other "flows/stress.yaml" ex_flow_doc = Ok ex_loaded_flow)
    by (vm_compute; reflexivity).
  split; [exact H|]. split; [vm_compute; reflexivity|].
  destruct (load_flow_steps ex_py_str ex_dict_of_other "flows/stress.yaml" ex_flow_doc ex_loaded_flow H)
    as [p [entries [Hp [Hs _]]]].
  exists p, entries. split; assumption.
Defined.

(** A sweep written as a string is rejected. *)
Lemma load_flow_rejects_bad_step_witness :
  let entry := VDict [("name", VStr "stress"); ("adapter", VStr "stress");
                      ("sweeps", VDict [("threads", VStr "1,2")])] in
  dict_get [("metadata", VDict []); ("steps", VList [entry])] "steps" = Some (VList [entry]) /\
  In entry [entry] /\ step_entry_ok entry = false /\
  exists w, load_flow ex_py_str ex_dict_of_other "flows/bad.yaml"
              (VDict [("metadata", VDict []); ("steps", VList [entry])]) = Err (ValidationError w).
Proof.
  intros entry.
  assert (H1 : dict_get [("metadata", VDict []); ("steps", VList [entry])] "steps" = Some (VList [entry]))
    by reflexivity.
  assert (H2 : In entry [entry]) by (left; reflexivity).
  assert (H3 : step_entry_ok entry = false) by reflexivity.
  split; [exact H1|]. split; [exact H2|]. split; [exact H3|].
  exact (load_flow_rejects_bad_step ex_py_str ex_dict_of_other "flows/bad.yaml" _ _ _ H1 H2 H3).
Defined.

(** The margin document with a sweep, a [value] entry, a plain entry and a
    jitter mapping. *)
Lemma load_margin_profile_targets_witness :
  dict_get ex_margin_doc "targets" = Some (VDict ex_margin_targets) /\
  NoDup (map fst ex_margin_targets) /\
  load_margin_profile ex_dict_of_other "margins/vcore.yaml" (VDict ex_margin_doc) = Ok ex_loaded_margin /\
  map fst (targets ex_loaded_margin) = ["default"; "stress"].
Proof.
  assert (H1 : dict_get ex_margin_doc "targets" = Some (VDict ex_margin_targets)) by reflexivity.
  assert (H2 : NoDup (map fst ex_margin_targets)).
  { simpl. constructor; [intros [H|[]]; discriminate|]. constructor; [intros []|constructor]. }
  assert (H3 : load_margin_profile ex_dict_of_other "margins/vcore.yaml" (VDict ex_margin_doc)
               = Ok ex_loaded_margin) by (vm_compute; reflexivity).
  split; [exact H1|]. split; [exact H2|]. split; [exact H3|].
  destruct (load_margin_profile_targets ex_dict_of_other "margins/vcore.yaml" ex_margin_doc
              ex_margin_targets ex_loaded_margin H1 H2 H3) as [Hk _].
  exact Hk.
Defined.

Lemma parse_lscpu_last_line_wins_witness :
  forallb lscpu_entry_ok ([("CPU(s)", "   8")] ++ (" cpu(s) ", "  16") :: [("Model name", " EPYC")])
    = true /\
  Forall (fun kv => lower (strip py_isspace (fst kv)) <> lower (strip py_isspace " cpu(s) "))
    [("Model name", " EPYC")] /\
  dict_get (parse_lscpu (lscpu_text ([("CPU(s)", "   8")] ++ (" cpu(s) ", "  16") ::
                                     [("Model name", " EPYC")])))
           (lower (strip py_isspace " cpu(s) ")) = Some (strip py_isspace "  16").
Proof.
  assert (H1 : forallb lscpu_entry_ok ([("CPU(s)", "   8")] ++ (" cpu(s) ", "  16") ::
                                       [("Model name", " EPYC")]) = true)
    by (vm_compute; reflexivity).
  assert (H2 : Forall (fun kv => lower (strip py_isspace (fst kv)) <>
                                 lower (strip py_isspace " cpu(s) "))
                 [("Model name", " EPYC")])
    by (constructor; [vm_compute; discriminate | constructor]).
  split; [exact H1|]. split; [exact H2|].
  exact (parse_lscpu_last_line_wins _ _ _ _ H1 H2).
Defined.

Lemma from_sysinfo_without_lscpu_fields_witness :
  (forall line, In line (splitlines (get_or [("uname", "Linux host 6.1.0 aarch64");
                                              ("lscpu", "command-not-found")] "lscpu" "")) ->
                split_colon line = None) /\
  from_sysinfo ex_int_of_str [("uname", "Linux host 6.1.0 aarch64"); ("lscpu", "command-not-found")] =
  {| cpu_model := ""; total_cores := None;
     architecture := get_or [("uname", "Linux host 6.1.0 aarch64");
                             ("lscpu", "command-not-found")] "uname" "" |}.
Proof.
  assert (H : forall line, In line (splitlines (get_or [("uname", "Linux host 6.1.0 aarch64");
                                                       ("lscpu", "command-not-found")] "lscpu" "")) ->
                           split_colon line = None).
  { intros line Hl. vm_compute in Hl. destruct Hl as [<-|[]]. vm_compute. reflexivity. }
  split; [exact H|]. exact (from_sysinfo_without_lscpu_fields ex_int_of_str _ H).
Defined.

Lemma select_highest_priority_witness :
  NoDup (map source_path ex_profiles) /\
  select ex_py_str ex_int_of_str (sort_by_priority ex_profiles) (ex_sysinfo "Intel(R) Xeon(R) Gold")
    = Ok (Some ex_xeon) /\
  let fp := from_sysinfo ex_int_of_str (ex_sysinfo "Intel(R) Xeon(R) Gold") in
  In ex_xeon ex_profiles /\
  matches ex_py_str ex_int_of_str (prof_match ex_xeon) fp = Ok true /\
  (forall q, In q ex_profiles -> (priority ex_xeon < priority q)%Z ->
     matches ex_py_str ex_int_of_str (prof_match q) fp = Ok false) /\
  (forall l1 l2, ex_profiles = l1 ++ ex_xeon :: l2 -> forall q, In q l1 ->
     priority q = priority ex_xeon -> matches ex_py_str ex_int_of_str (prof_match q) fp = Ok false).
Proof.
  assert (H1 : NoDup (map source_path ex_profiles)).
  { vm_compute. repeat constructor; simpl; intuition discriminate. }
  assert (H2 : select ex_py_str ex_int_of_str (sort_by_priority ex_profiles)
                 (ex_sysinfo "Intel(R) Xeon(R) Gold") = Ok (Some ex_xeon))
    by (vm_compute; reflexivity).
  split; [exact H1|]. split; [exact H2|].
  exact (select_highest_priority ex_py_str ex_int_of_str ex_profiles _ ex_xeon H1 H2).
Defined.

Lemma select_none_no_match_witness :
  select ex_py_str ex_int_of_str (sort_by_priority [ex_epyc; ex_xeon]) (ex_sysinfo "ARM Neoverse-N1")
    = Ok None /\
  forall q, In q [ex_epyc; ex_xeon] ->
    matches ex_py_str ex_int_of_str (prof_match q)
      (from_sysinfo ex_int_of_str (ex_sysinfo "ARM Neoverse-N1")) = Ok false.
Proof.
  assert (H : select ex_py_str ex_int_of_str (sort_by_priority [ex_epyc; ex_xeon])
                (ex_sysinfo "ARM Neoverse-N1") = Ok None) by (vm_compute; reflexivity).
  split; [exact H|]. exact (select_none_no_match ex_py_str ex_int_of_str _ _ H).
Defined.
